(** * MSAL browser cache: BrowserStorage, AuthCache and the older Storage class

    A shallow embedding of the persistence layer of msal-core
    ([cache/BrowserStorage.ts], [cache/AuthCache.ts] and the earlier
    [Storage.ts]) together with the small part of the JavaScript host that
    the code calls into: string primitives, [JSON.parse], the Web Storage
    areas, [document.cookie] and promises. *)

From stdpp Require Import base option list gmap strings fin_maps.
From Stdlib Require Import ZArith QArith_base Ascii String Lia.

Local Open Scope Z_scope.
Local Open Scope string_scope.

#[local] Arguments String.append !_ _ / : simpl nomatch.

(** ** The JavaScript host *)

Module JS.

(** Strings are sequences of code units; the model keeps the code units
    below 256, which covers every key the cache itself builds. *)

(** [s.indexOf(pat)]: index of the first occurrence of [pat] in [s], or -1. *)
Fixpoint indexOf_from (i : Z) (s pat : string) : Z :=
  if String.prefix pat s then i
  else match s with
       | EmptyString => -1
       | String _ s' => indexOf_from (i + 1) s' pat
       end.

Definition indexOf (s pat : string) : Z := indexOf_from 0 s pat.

(** ToBoolean on a string: only the empty string is falsy. *)
Definition truthy (s : string) : bool :=
  match s with EmptyString => false | _ => true end.

(** ToBoolean on [string | null]. *)
Definition truthy_nullable (o : option string) : bool :=
  match o with Some s => truthy s | None => false end.

(** [s.substring(n)] *)
Fixpoint substring_from (n : nat) (s : string) : string :=
  match n, s with
  | O, _ => s
  | S n', String _ s' => substring_from n' s'
  | S _, EmptyString => EmptyString
  end.

(** [s.split(sep)].  [skip] counts the code units of a separator that was
    just recognised and still has to be dropped; [cur] is the piece being
    collected, reversed. An empty separator splits between code units. *)
Fixpoint rev_string (acc s : string) : string :=
  match s with
  | EmptyString => acc
  | String c s' => rev_string (String c acc) s'
  end.

Fixpoint split_go (sep : string) (skip : nat) (cur : string) (s : string)
  : list string :=
  match s with
  | EmptyString => [rev_string "" cur]
  | String c s' =>
      match skip with
      | S k => split_go sep k cur s'
      | O =>
          if String.prefix sep s
          then rev_string "" cur :: split_go sep (String.length sep - 1) "" s'
          else split_go sep O (String c cur) s'
      end
  end.

Fixpoint chars (s : string) : list string :=
  match s with
  | EmptyString => []
  | String c s' => String c "" :: chars s'
  end.

Definition split (s sep : string) : list string :=
  match sep with
  | EmptyString => chars s
  | _ => split_go sep O "" s
  end.

(** *** JSON.parse

    A recursive-descent reader for the JSON grammar of ECMA-404, which is
    what [JSON.parse] accepts.  Numbers and string bodies keep their source
    text: nothing in the cache looks inside a decoded value. *)

#[local] Set Warnings "-register-all".
Inductive JSONValue :=
| JNull
| JBool (b : bool)
| JNumber (lexeme : string)
| JString (body : string)
| JArray (items : list JSONValue)
| JObject (members : list (string * JSONValue)).

Definition isWs (c : ascii) : bool :=
  let n := nat_of_ascii c in
  (Nat.eqb n 32 || Nat.eqb n 9 || Nat.eqb n 10 || Nat.eqb n 13)%bool.

Definition isDigit (c : ascii) : bool :=
  let n := nat_of_ascii c in (Nat.leb 48 n && Nat.leb n 57)%bool.

Definition isHex (c : ascii) : bool :=
  let n := nat_of_ascii c in
  (isDigit c || (Nat.leb 65 n && Nat.leb n 70) || (Nat.leb 97 n && Nat.leb n 102))%bool.

Definition isEscapable (c : ascii) : bool :=
  existsb (Ascii.eqb c) (list_ascii_of_string "\/bfnrt") || Ascii.eqb c "034"%char.

Fixpoint skipWs (s : string) : string :=
  match s with
  | String c s' => if isWs c then skipWs s' else s
  | EmptyString => s
  end.

(** Digits at the front of [s], and what follows them. *)
Fixpoint digits (s : string) : string * string :=
  match s with
  | String c s' =>
      if isDigit c then let '(d, r) := digits s' in (String c d, r)
      else (EmptyString, s)
  | EmptyString => (EmptyString, s)
  end.

(** The body of a string literal, after the opening quote. *)
Fixpoint stringBody (s : string) : option (string * string) :=
  match s with
  | EmptyString => None
  | String c s' =>
      if Ascii.eqb c "034"%char then Some (EmptyString, s')
      else if Ascii.eqb c "\"%char then
        match s' with
        | String e s'' =>
            if isEscapable e then
              '(b, r) ← stringBody s''; Some (String c (String e b), r)
            else if Ascii.eqb e "u"%char then
              match s'' with
              | String h1 (String h2 (String h3 (String h4 s4))) =>
                  if (isHex h1 && isHex h2 && isHex h3 && isHex h4)%bool then
                    '(b, r) ← stringBody s4;
                    Some (String c (String e (String h1 (String h2
                            (String h3 (String h4 b))))), r)
                  else None
              | _ => None
              end
            else None
        | EmptyString => None
        end
      else if Nat.ltb (nat_of_ascii c) 32 then None
      else '(b, r) ← stringBody s'; Some (String c b, r)
  end.

(** An optional minus sign, an integer part without a leading zero, an
    optional fraction and an optional exponent. *)
Definition number (s : string) : option (string * string) :=
  let '(sign, s1) :=
    match s with
    | String "-" r => ("-", r)
    | _ => ("", s)
    end in
  let '(int, s2) := digits s1 in
  match int with
  | EmptyString => None
  | String "0" (String _ _) => None
  | _ =>
      frac ← match s2 with
             | String "." r =>
                 let '(f, r') := digits r in
                 match f with
                 | EmptyString => None
                 | _ => Some ("." +:+ f, r')
                 end
             | _ => Some ("", s2)
             end;
      let '(f, s3) := frac in
      ex ← match s3 with
           | String e r =>
               if (Ascii.eqb e "e" || Ascii.eqb e "E")%bool then
                 let '(sg, r1) :=
                   match r with
                   | String "+" r' => ("+", r')
                   | String "-" r' => ("-", r')
                   | _ => ("", r)
                   end in
                 let '(d, r2) := digits r1 in
                 match d with
                 | EmptyString => None
                 | _ => Some (String e sg +:+ d, r2)
                 end
               else Some ("", s3)
           | EmptyString => Some ("", s3)
           end;
      let '(x, s4) := ex in
      Some (sign +:+ int +:+ f +:+ x, s4)
  end.

(** A literal word ([true], [false], [null]) at the front of [s]. *)
Definition word (w : string) (s : string) : option string :=
  if String.prefix w s then Some (substring_from (String.length w) s) else None.

Fixpoint value (fuel : nat) (s : string) : option (JSONValue * string) :=
  match fuel with
  | O => None
  | S fuel' =>
      match skipWs s with
      | String "{" r =>
          match skipWs r with
          | String "}" r' => Some (JObject [], skipWs r')
          | r1 => '(ms, r') ← members fuel' r1; Some (JObject ms, skipWs r')
          end
      | String "[" r =>
          match skipWs r with
          | String "]" r' => Some (JArray [], skipWs r')
          | _ => '(vs, r') ← elements fuel' r; Some (JArray vs, skipWs r')
          end
      | String "034" r => '(b, r') ← stringBody r; Some (JString b, skipWs r')
      | String "t" _ => r ← word "true" (skipWs s); Some (JBool true, skipWs r)
      | String "f" _ => r ← word "false" (skipWs s); Some (JBool false, skipWs r)
      | String "n" _ => r ← word "null" (skipWs s); Some (JNull, skipWs r)
      | s0 => '(n, r) ← number s0; Some (JNumber n, skipWs r)
      end
  end
with elements (fuel : nat) (s : string) : option (list JSONValue * string) :=
  match fuel with
  | O => None
  | S fuel' =>
      '(v, r) ← value fuel' s;
      match r with
      | String "," r' => '(vs, r'') ← elements fuel' r'; Some (v :: vs, r'')
      | String "]" r' => Some ([v], r')
      | _ => None
      end
  end
with members (fuel : nat) (s : string)
  : option (list (string * JSONValue) * string) :=
  match fuel with
  | O => None
  | S fuel' =>
      match skipWs s with
      | String "034" r =>
          '(k, r1) ← stringBody r;
          match skipWs r1 with
          | String ":" r2 =>
              '(v, r3) ← value fuel' r2;
              match r3 with
              | String "," r4 =>
                  '(ms, r5) ← members fuel' r4; Some ((k, v) :: ms, r5)
              | String "}" r4 => Some ([(k, v)], r4)
              | _ => None
              end
          | _ => None
          end
      | _ => None
      end
  end.

(** [JSON.parse(text)]: [None] stands for the SyntaxError it throws.  Every
    nested call consumes input, so the length of the text bounds the depth. *)
Definition JSON_parse (text : string) : option JSONValue :=
  match value (S (String.length text)) text with
  | Some (v, EmptyString) => Some v
  | _ => None
  end.

(** [JSON.parse] applied to [string | null]: the argument is first converted
    to a string, and [null] becomes the text [null]. *)
Definition JSON_parse_nullable (o : option string) : option JSONValue :=
  match o with
  | Some s => JSON_parse s
  | None => JSON_parse "null"
  end.

(** *** String.prototype.match with a string argument

    [key.match(p)] with a string [p] compiles [p] as a regular expression.
    The model interprets the patterns built from ordinary characters and the
    wildcard [.]; what the engine does with a pattern that uses any other
    syntax character is left to the host record below. *)

Definition isSyntaxCharacter (c : ascii) : bool :=
  existsb (Ascii.eqb c) (list_ascii_of_string "^$\.*+?()[]{}|").

Definition isLineTerminator (c : ascii) : bool :=
  let n := nat_of_ascii c in (Nat.eqb n 10 || Nat.eqb n 13)%bool.

(** No syntax character at all: the pattern denotes itself. *)
Definition literalPattern (p : string) : bool :=
  forallb (fun c => negb (isSyntaxCharacter c)) (list_ascii_of_string p).

(** Ordinary characters and [.] only. *)
Definition dotPattern (p : string) : bool :=
  forallb (fun c => negb (isSyntaxCharacter c) || Ascii.eqb c ".")%bool
          (list_ascii_of_string p).

Fixpoint matchesAt (p s : string) : bool :=
  match p with
  | EmptyString => true
  | String c p' =>
      match s with
      | EmptyString => false
      | String d s' =>
          ((if Ascii.eqb c "." then negb (isLineTerminator d) else Ascii.eqb c d)
           && matchesAt p' s')%bool
      end
  end.

Fixpoint search (p s : string) : bool :=
  (matchesAt p s
   || match s with
      | EmptyString => false
      | String _ s' => search p s'
      end)%bool.

(** *** Errors *)

Inductive Error :=
| NoWindowObjectError
| StorageNotSupportedError
| NoStorageSupportedError
| CustomStorageNotImplementedError (methodName : string)
| UnsupportedStorageType
| TypeError
| ReferenceError
| SyntaxError
| HostError (message : string).

(** *** Numbers

    A number is finite, [NaN] or an infinity.  A finite one is kept as a
    rational, which every double is; the negative zero is the zero. *)

Inductive Number :=
| Finite (q : Q)
| NaN
| Infinity (negative : bool).

(** An integral number. *)
Definition integer (z : Z) : Number := Finite (inject_Z z).

(** ToBoolean on a number: the zero and [NaN] are falsy. *)
Definition truthy_number (x : Number) : bool :=
  match x with
  | Finite q => negb (Qeq_bool q (inject_Z 0))
  | NaN => false
  | Infinity _ => true
  end.

(** The value of a finite number, if it is integral. *)
Definition integral (q : Q) : option Z :=
  if Z.eqb (Z.modulo (Qnum q) (Z.pos (Qden q))) 0
  then Some (Z.div (Qnum q) (Z.pos (Qden q)))
  else None.

(** What the embedding leaves to the host: the rendering of dates (of the
    date at a time value, and of the date a fractional number of days after
    a time value, whose time value the source computes in double
    precision), whether the cookie store takes a rendered date to lie in
    the past, and regular expressions outside the modelled fragment ([inl]
    is a thrown error, [inr b] says whether there was a match). *)
Record Host := {
  toUTCString : Z -> string;
  fractionalDate : Z -> Q -> string;
  dateInPast : Z -> string -> bool;
  RegExp_other : string -> string -> Error + bool
}.

(** [new Date(t + days * 24 * 60 * 60 * 1000).toUTCString()], for the time
    value [t] of a valid date.  With an integral number of days the sum is
    an integer, which the host renders (as an invalid date where it lies
    outside the range of dates); with [NaN] or an infinity the date is
    invalid. *)
Definition utcStringAfter (host : Host) (t : Z) (days : Number) : string :=
  match days with
  | Finite q =>
      match integral q with
      | Some z => toUTCString host (t + z * 24 * 60 * 60 * 1000)
      | None => fractionalDate host t q
      end
  | NaN | Infinity _ => "Invalid Date"
  end.

Definition String_match (host : Host) (s p : string) : Error + bool :=
  if dotPattern p then inr (search p s) else RegExp_other host p s.

(** *** Promises

    A call of an [async] function returns a promise.  The built-in storage
    areas complete synchronously, so the promise is settled by the time the
    caller could look at it; the caller sees the result only through
    [await].  As any object, a promise is truthy. *)

Inductive Promise (A : Type) :=
| Fulfilled (a : A)
| Rejected (e : Error).
Arguments Fulfilled {A} a.
Arguments Rejected {A} e.

Definition truthy_object {A} (o : A) : bool := true.

(** *** Web Storage and document.cookie *)

Definition CookieJar := list (string * string).

Record Window := {
  localStorage : option (gmap string string);
  sessionStorage : option (gmap string string);
  cookies : CookieJar
}.

(** [Object.keys(storage)] for a storage area: the stored keys, in the
    order the user agent enumerates them. *)
Definition Object_keys (m : gmap string string) : list string :=
  (map_to_list m).*1.

Fixpoint trimStart (s : string) : string :=
  match s with
  | String c s' => if (Ascii.eqb c " " || Ascii.eqb c "009")%bool then trimStart s' else s
  | EmptyString => s
  end.

Definition trim (s : string) : string :=
  rev_string "" (trimStart (rev_string "" (trimStart s))).

Fixpoint join (sep : string) (l : list string) : string :=
  match l with
  | [] => ""
  | [x] => x
  | x :: l' => x +:+ sep +:+ join sep l'
  end.

(** [s.substring(0, n)] *)
Fixpoint take_string (n : nat) (s : string) : string :=
  match n, s with
  | S n', String c s' => String c (take_string n' s')
  | _, _ => EmptyString
  end.

Fixpoint jar_remove (name : string) (jar : CookieJar) : CookieJar :=
  match jar with
  | [] => []
  | (n, v) :: jar' =>
      if String.eqb n name then jar_remove name jar' else (n, v) :: jar_remove name jar'
  end.

Fixpoint jar_put (name value : string) (jar : CookieJar) : CookieJar :=
  match jar with
  | [] => [(name, value)]
  | (n, v) :: jar' =>
      if String.eqb n name then (n, value) :: jar' else (n, v) :: jar_put name value jar'
  end.

(** The [expires] attribute among the attributes of a cookie string. *)
Fixpoint expiresAttribute (attrs : list string) : option string :=
  match attrs with
  | [] => None
  | a :: attrs' =>
      match expiresAttribute attrs' with
      | Some d => Some d
      | None =>
          if String.prefix "expires=" (trimStart a)
          then Some (substring_from 8 (trimStart a))
          else None
      end
  end.

(** Assignment to [document.cookie], after RFC 6265, section 5.2, for one
    path and domain: the text up to the first [;] is the name-value pair,
    split at its first [=] and trimmed; a pair without [=] or with an empty
    name is ignored; an expiry date in the past deletes the cookie of that
    name, any other assignment creates it or replaces its value. *)
Definition cookie_assign (host : Host) (now : Z) (str : string) (jar : CookieJar)
  : CookieJar :=
  match split str ";" with
  | [] => jar
  | nv :: attrs =>
      let i := indexOf nv "=" in
      if Z.eqb i (-1) then jar
      else
        let name := trim (take_string (Z.to_nat i) nv) in
        let value := trim (substring_from (S (Z.to_nat i)) nv) in
        if negb (truthy name) then jar
        else match expiresAttribute attrs with
             | Some d =>
                 if dateInPast host now d then jar_remove name jar
                 else jar_put name value jar
             | None => jar_put name value jar
             end
  end.

(** Reading [document.cookie]. *)
Definition cookie_read (jar : CookieJar) : string :=
  join "; " (map (fun '(n, v) => n +:+ "=" +:+ v) jar).

End JS.

(** ** Cache locations, host-supplied storage and the world *)

(** [CacheLocation]: one of the two storage names, or a host-supplied
    object; [isCustomStorage] says whether that object is an instance of
    the [CustomStorage] class. *)
Inductive CacheLocation :=
| LocalStorageName
| SessionStorageName
| CustomObject (isCustomStorage : bool).

(** The interface [ICustomStorage], over the private state [T] of the
    host-supplied object.  Every method may throw.  The methods that
    answer ([getItem], [key], [getAllKeys]) are taken to leave the state of
    the object as it is: an implementation that writes while it reads is
    outside the model. *)
Class ICustomStorage (T : Type) := {
  cs_setItem : string -> string -> T -> JS.Error + T;
  cs_getItem : string -> T -> JS.Error + option string;
  cs_removeItem : string -> T -> JS.Error + T;
  cs_clear : T -> JS.Error + T;
  cs_key : nat -> T -> JS.Error + option string;
  cs_getAllKeys : T -> JS.Error + list string
}.

(** The class [CustomStorage] itself: a subclass is expected to override
    each method, and what is not overridden throws. *)
#[global] Instance CustomStorage : ICustomStorage unit := {|
  cs_setItem _ _ _ := inl (JS.CustomStorageNotImplementedError "setItem");
  cs_getItem _ _ := inl (JS.CustomStorageNotImplementedError "getItem");
  cs_removeItem _ _ := inl (JS.CustomStorageNotImplementedError "removeItem");
  cs_clear _ := inl (JS.CustomStorageNotImplementedError "clear");
  cs_key _ _ := inl (JS.CustomStorageNotImplementedError "key");
  cs_getAllKeys _ := inl (JS.CustomStorageNotImplementedError "getAllKeysgetAllKeys")
|}.

(** A subclass that overrides every method with an in-memory table. *)
#[global] Instance MemoryStorage : ICustomStorage (gmap string string) := {|
  cs_setItem k v m := inr (<[k:=v]> m);
  cs_getItem k m := inr (m !! k);
  cs_removeItem k m := inr (delete k m);
  cs_clear _ := inr ∅;
  cs_key i m := inr (JS.Object_keys m !! i);
  cs_getAllKeys m := inr (JS.Object_keys m)
|}.

(** The mutable state a call can see: the object bound to [window], or
    [None] where there is no such binding (outside a browser), the state of
    the host-supplied storage object, the clock, and the static field
    [Storage.instance] of the older class. *)
Record World (T : Type) := {
  window : option JS.Window;
  custom : T;
  now : Z;
  Storage_instance : option CacheLocation
}.
Arguments window {T} _.
Arguments custom {T} _.
Arguments now {T} _.
Arguments Storage_instance {T} _.

Inductive Outcome (T A : Type) :=
| Ok (a : A) (w : World T)
| Throw (e : JS.Error) (w : World T).
Arguments Ok {T A} a w.
Arguments Throw {T A} e w.

(** Computations that read and write the world and may throw. *)
Definition M (T A : Type) : Type := World T -> Outcome T A.

#[global] Instance M_ret {T} : MRet (M T) := fun A a w => Ok a w.
#[global] Instance M_bind {T} : MBind (M T) := fun A B f m w =>
  match m w with
  | Ok a w' => f a w'
  | Throw e w' => Throw e w'
  end.

Definition throw {T A} (e : JS.Error) : M T A := fun w => Throw e w.
Definition getWorld {T} : M T (World T) := fun w => Ok w w.
Definition putWorld {T} (w' : World T) : M T unit := fun _ => Ok tt w'.

(** [for (x of xs) body] *)
Fixpoint for_of {T A} (xs : list A) (body : A -> M T unit) : M T unit :=
  match xs with
  | [] => mret tt
  | x :: xs' => _ ← body x; for_of xs' body
  end.

(** [xs.forEach(f)], with what each call of [f] handed back. *)
Fixpoint forEach {T A B} (xs : list A) (f : A -> M T B) : M T (list B) :=
  match xs with
  | [] => mret []
  | x :: xs' => b ← f x; bs ← forEach xs' f; mret (b :: bs)
  end.

(** Calling an [async] function: the body runs, and what it returns or
    throws is wrapped in the promise handed to the caller. *)
Definition async {T A} (body : M T A) : M T (JS.Promise A) := fun w =>
  match body w with
  | Ok a w' => Ok (JS.Fulfilled a) w'
  | Throw e w' => Ok (JS.Rejected e) w'
  end.

Definition await {T A} (p : JS.Promise A) : M T A :=
  match p with
  | JS.Fulfilled a => mret a
  | JS.Rejected e => throw e
  end.

(** What [getStorage()] hands back: one of the two global storage
    objects, or the host-supplied object. *)
Inductive StorageRef := LocalRef | SessionRef | CustomRef.

Section Backend.
Context {T : Type} `{ICustomStorage T}.

(** The global [window]. *)
Definition theWindow : M T JS.Window := fun w =>
  match window w with
  | Some win => Ok win w
  | None => Throw JS.ReferenceError w
  end.

Definition putWindow (win : JS.Window) : M T unit := fun w =>
  Ok tt {| window := Some win; custom := custom w; now := now w;
           Storage_instance := Storage_instance w |}.

Definition putCustom (t : T) : M T unit := fun w =>
  Ok tt {| window := window w; custom := t; now := now w;
           Storage_instance := Storage_instance w |}.

(** [window[name]] for the two storage names. *)
Definition area (r : StorageRef) (win : JS.Window) : option (gmap string string) :=
  match r with
  | LocalRef => JS.localStorage win
  | SessionRef => JS.sessionStorage win
  | CustomRef => None
  end.

Definition set_area (r : StorageRef) (m : gmap string string) (win : JS.Window)
  : JS.Window :=
  match r with
  | LocalRef => {| JS.localStorage := Some m;
                   JS.sessionStorage := JS.sessionStorage win;
                   JS.cookies := JS.cookies win |}
  | SessionRef => {| JS.localStorage := JS.localStorage win;
                     JS.sessionStorage := Some m;
                     JS.cookies := JS.cookies win |}
  | CustomRef => win
  end.

(** A method of the host-supplied object that updates its state. *)
Definition callCustom (f : T -> JS.Error + T) : M T unit :=
  w ← getWorld;
  match f (custom w) with
  | inl e => throw e
  | inr t => putCustom t
  end.

(** A method of the host-supplied object that only answers. *)
Definition askCustom {A} (f : T -> JS.Error + A) : M T A :=
  w ← getWorld;
  match f (custom w) with
  | inl e => throw e
  | inr a => mret a
  end.

(** A method of a storage area; on a missing area (undefined or null) the
    property access throws. *)
Definition withArea {A} (r : StorageRef)
    (f : gmap string string -> JS.Window -> M T A) : M T A :=
  win ← theWindow;
  match area r win with
  | Some m => f m win
  | None => throw JS.TypeError
  end.

Definition storage_setItem (r : StorageRef) (key value : string) : M T unit :=
  match r with
  | CustomRef => callCustom (cs_setItem key value)
  | _ => withArea r (fun m win => putWindow (set_area r (<[key:=value]> m) win))
  end.

Definition storage_getItem (r : StorageRef) (key : string) : M T (option string) :=
  match r with
  | CustomRef => askCustom (cs_getItem key)
  | _ => withArea r (fun m _ => mret (m !! key))
  end.

Definition storage_removeItem (r : StorageRef) (key : string) : M T unit :=
  match r with
  | CustomRef => callCustom (cs_removeItem key)
  | _ => withArea r (fun m win => putWindow (set_area r (delete key m) win))
  end.

Definition storage_clear (r : StorageRef) : M T unit :=
  match r with
  | CustomRef => callCustom cs_clear
  | _ => withArea r (fun _ win => putWindow (set_area r ∅ win))
  end.

(** [storage instanceof CustomStorage ? await storage.getAllKeys()
    : Object.keys(storage)] *)
Definition keysOf (r : StorageRef) : M T (list string) :=
  match r with
  | CustomRef => askCustom cs_getAllKeys
  | _ => withArea r (fun m _ => mret (JS.Object_keys m))
  end.

(** [document.cookie], read and assigned. *)
Definition document_cookie : M T string :=
  win ← theWindow; mret (JS.cookie_read (JS.cookies win)).

Definition document_cookie_set (host : JS.Host) (str : string) : M T unit :=
  win ← theWindow;
  w ← getWorld;
  putWindow {| JS.localStorage := JS.localStorage win;
               JS.sessionStorage := JS.sessionStorage win;
               JS.cookies := JS.cookie_assign host (now w) str (JS.cookies win) |}.

End Backend.

(** ** utils/Constants

    The constants file is not part of the sources at hand; the classes take
    its values as parameters. *)

Record ConstantsT := {
  cachePrefix : string;
  adalIdToken : string;
  inProgress : string;
  resourceDelimiter : string
}.

Record TemporaryCacheKeysT := {
  AUTHORITY : string;
  ACQUIRE_TOKEN_ACCOUNT : string;
  STATE_LOGIN : string;
  STATE_ACQ_TOKEN : string;
  NONCE_IDTOKEN : string;
  LOGIN_REQUEST : string;
  RENEW_STATUS : string;
  INTERACTION_STATUS : string;
  REDIRECT_REQUEST : string
}.

Record PersistentCacheKeysT := {
  IDTOKEN : string;
  CLIENT_INFO : string
}.

Record ErrorCacheKeysT := {
  ERROR : string;
  ERROR_DESC : string
}.

(** ** cache/BrowserStorage.ts

    The two revisions of this file have the same constructor and the same
    cookie methods; in one of them the storage methods are [async] and
    await the storage.  With calls that complete when they are made, as
    modelled here, the two read alike. *)

Module BrowserStorage.

(** An instance: its field, and the two methods that a subclass overrides
    and that the methods below reach through [this]. *)
Record Object (T : Type) := {
  cacheLocation : option CacheLocation;
  this_setItemCookie : string -> string -> option JS.Number -> M T unit;
  this_getItemCookie : string -> M T string
}.
Arguments cacheLocation {T} _.
Arguments this_setItemCookie {T} _.
Arguments this_getItemCookie {T} _.

(** [typeof x === "string"] on a field of type [CacheLocation] that may
    still be undefined. *)
Definition typeof_string (x : option CacheLocation) : bool :=
  match x with
  | Some LocalStorageName | Some SessionStorageName => true
  | _ => false
  end.

(** [typeof window[name] !== "undefined" && window[name] != null] *)
Definition stringStorageSupported (x : option CacheLocation) (win : JS.Window) : bool :=
  match x with
  | Some LocalStorageName => bool_decide (is_Some (JS.localStorage win))
  | Some SessionStorageName => bool_decide (is_Some (JS.sessionStorage win))
  | _ => false
  end.

(** ToBoolean on an optional parameter of type number: [undefined] is
    falsy. *)
Definition truthy_number (x : option JS.Number) : bool :=
  match x with
  | Some n => JS.truthy_number n
  | None => false
  end.

(** The loop of [getItemCookie] over the pieces of [document.cookie]. *)
Fixpoint stripSpaces (c : string) : string :=
  match c with
  | String " " c' => stripSpaces c'
  | _ => c
  end.

Fixpoint findCookie (name : string) (ca : list string) : string :=
  match ca with
  | [] => ""
  | c :: ca' =>
      let c := stripSpaces c in
      if Z.eqb (JS.indexOf c name) 0
      then JS.substring_from (String.length name) c
      else findCookie name ca'
  end.

Section Class.
Context {T : Type} `{ICustomStorage T} (host : JS.Host).

(** The constructor.  The fields of the new object are undefined on entry,
    and [cacheLocation] is assigned in the last statement.  Where nothing
    is bound to [window], evaluating it in the guard throws a reference
    error; the guard itself fires for a binding that holds a falsy value,
    and the worlds of the model have none. *)
Definition constructor (cacheLocation : CacheLocation) : M T (option CacheLocation) :=
  let this_cacheLocation : option CacheLocation := None in
  win ← theWindow;
  _ ← (if negb (JS.truthy_object win) then throw JS.NoWindowObjectError
       else mret tt);
  _ ← (if typeof_string this_cacheLocation then
         if negb (stringStorageSupported this_cacheLocation win)
         then throw JS.StorageNotSupportedError
         else mret tt
       else mret tt);
  mret (Some cacheLocation).

Definition getStorage (this : Object T) : M T StorageRef :=
  match cacheLocation this with
  | Some LocalStorageName => _ ← theWindow; mret LocalRef
  | Some SessionStorageName => _ ← theWindow; mret SessionRef
  | Some (CustomObject true) => mret CustomRef
  | _ => throw JS.UnsupportedStorageType
  end.

Definition setItem (this : Object T) (key value : string)
    (enableCookieStorage : bool) : M T unit :=
  storage ← getStorage this;
  _ ← storage_setItem storage key value;
  if enableCookieStorage then this_setItemCookie this key value None
  else mret tt.

Definition getItem (this : Object T) (key : string)
    (enableCookieStorage : bool) : M T (option string) :=
  fromCookie ← (if enableCookieStorage
                then c ← this_getItemCookie this key; mret (JS.truthy c)
                else mret false);
  if (fromCookie : bool) then c ← this_getItemCookie this key; mret (Some c)
  else storage ← getStorage this; storage_getItem storage key.

Definition removeItem (this : Object T) (key : string) : M T unit :=
  storage ← getStorage this; storage_removeItem storage key.

Definition clear (this : Object T) : M T unit :=
  storage ← getStorage this; storage_clear storage.

Definition getCookieExpirationTime (cookieLifeDays : JS.Number) : M T string :=
  w ← getWorld;
  let today := now w in
  mret (JS.utcStringAfter host today cookieLifeDays).

Definition setItemCookie (cName cValue : string) (expires : option JS.Number)
  : M T unit :=
  let cookieStr := cName +:+ "=" +:+ cValue +:+ ";path=/;" in
  cookieStr ← (if truthy_number expires then
                 expireTime ← getCookieExpirationTime (default JS.NaN expires);
                 mret (cookieStr +:+ "expires=" +:+ expireTime +:+ ";")
               else mret cookieStr);
  document_cookie_set host cookieStr.

Definition getItemCookie (cName : string) : M T string :=
  let name := cName +:+ "=" in
  cookie ← document_cookie;
  mret (findCookie name (JS.split cookie ";")).

Definition clearItemCookie (this : Object T) (cName : string) : M T unit :=
  this_setItemCookie this cName "" (Some (JS.integer (-1))).

(** A plain instance, with the methods of the class itself. *)
Definition new (cacheLocation : CacheLocation) : M T (Object T) :=
  loc ← constructor cacheLocation;
  mret {| cacheLocation := loc;
          this_setItemCookie := setItemCookie;
          this_getItemCookie := getItemCookie |}.

End Class.
End BrowserStorage.

(** ** cache/AuthCache.ts *)

Module AuthCache.

Record AccessTokenCacheItem := {
  key : JS.JSONValue;
  value : JS.JSONValue
}.

Record Object := {
  cacheLocation : option CacheLocation;
  clientId : string;
  rollbackEnabled : bool
}.

(** What [new AuthCache(...)] leaves behind: the object, and the call of
    [migrateCacheEntries] that the constructor started and did not await,
    suspended at its first [await] on the outcome of the first read. *)
Record Constructed := {
  object : Object;
  migration : JS.Promise (option string)
}.

Section Class.
Context {T : Type} `{ICustomStorage T} (host : JS.Host).
Variable Constants : ConstantsT.
Variable TemporaryCacheKeys : TemporaryCacheKeysT.

Definition generateCacheKey (this : Object) (key : string) (addInstanceId : bool)
  : string :=
  match JS.JSON_parse key with
  | Some _ => key
  | None =>
      if (Z.eqb (JS.indexOf key (cachePrefix Constants)) 0
          || Z.eqb (JS.indexOf key (adalIdToken Constants)) 0)%bool
      then key
      else if addInstanceId
           then cachePrefix Constants +:+ "." +:+ clientId this +:+ "." +:+ key
           else cachePrefix Constants +:+ "." +:+ key
  end.

Definition setItemCookie (this : Object) (cName cValue : string)
    (expires : option JS.Number) : M T unit :=
  _ ← BrowserStorage.setItemCookie host (generateCacheKey this cName true)
        cValue expires;
  if rollbackEnabled this
  then BrowserStorage.setItemCookie host (generateCacheKey this cName false)
         cValue expires
  else mret tt.

Definition getItemCookie (this : Object) (cName : string) : M T string :=
  BrowserStorage.getItemCookie (generateCacheKey this cName true).

(** The object seen from the methods of the base class. *)
Definition super (this : Object) : BrowserStorage.Object T := {|
  BrowserStorage.cacheLocation := cacheLocation this;
  BrowserStorage.this_setItemCookie := setItemCookie this;
  BrowserStorage.this_getItemCookie := getItemCookie this
|}.

Definition setItem (this : Object) (key value : string)
    (enableCookieStorage : bool) : M T unit :=
  _ ← BrowserStorage.setItem (super this) (generateCacheKey this key true)
        value enableCookieStorage;
  if rollbackEnabled this
  then BrowserStorage.setItem (super this) (generateCacheKey this key false)
         value enableCookieStorage
  else mret tt.

Definition getItem (this : Object) (key : string) (enableCookieStorage : bool)
  : M T (option string) :=
  BrowserStorage.getItem (super this) (generateCacheKey this key true)
    enableCookieStorage.

Definition removeItem (this : Object) (key : string) : M T unit :=
  _ ← BrowserStorage.removeItem (super this) (generateCacheKey this key true);
  if rollbackEnabled this
  then BrowserStorage.removeItem (super this) (generateCacheKey this key false)
  else mret tt.

Definition resetCacheItems (this : Object) : M T unit :=
  storage ← BrowserStorage.getStorage (super this);
  keys ← keysOf storage;
  for_of keys (fun key =>
    if negb (Z.eqb (JS.indexOf key (cachePrefix Constants)) (-1))
    then BrowserStorage.removeItem (super this) key
    else mret tt).

(** [private async tokenRenewalInProgress]: the caller receives a promise. *)
Definition tokenRenewalInProgress (this : Object) (stateValue : string)
  : M T (JS.Promise bool) :=
  async (
    renewStatus ← getItem this
      (RENEW_STATUS TemporaryCacheKeys +:+ "|" +:+ stateValue) false;
    mret (JS.truthy_nullable renewStatus
          && bool_decide (renewStatus = Some (inProgress Constants)))).

Definition clearMsalCookie (this : Object) (state : string) : M T unit :=
  _ ← BrowserStorage.clearItemCookie (super this)
        (NONCE_IDTOKEN TemporaryCacheKeys +:+ "|" +:+ state);
  _ ← BrowserStorage.clearItemCookie (super this)
        (STATE_LOGIN TemporaryCacheKeys +:+ "|" +:+ state);
  _ ← BrowserStorage.clearItemCookie (super this)
        (LOGIN_REQUEST TemporaryCacheKeys +:+ "|" +:+ state);
  BrowserStorage.clearItemCookie (super this)
    (STATE_ACQ_TOKEN TemporaryCacheKeys +:+ "|" +:+ state).

(** In the condition of the loop the promise itself is negated: the call
    to [tokenRenewalInProgress] is not awaited. *)
Definition resetTempCacheItems (this : Object) (state : string) : M T unit :=
  storage ← BrowserStorage.getStorage (super this);
  keys ← keysOf storage;
  _ ← for_of keys (fun key =>
        go ← (if (negb (JS.truthy state)
                  || negb (Z.eqb (JS.indexOf key state) (-1)))%bool
              then p ← tokenRenewalInProgress this state;
                   mret (negb (JS.truthy_object p))
              else mret false);
        if (go : bool) then
          _ ← removeItem this key;
          _ ← setItemCookie this key "" (Some (JS.integer (-1)));
          clearMsalCookie this state
        else mret tt);
  _ ← removeItem this (INTERACTION_STATUS TemporaryCacheKeys);
  removeItem this (REDIRECT_REQUEST TemporaryCacheKeys).

(** [key.match(p)], with the error of an invalid pattern thrown. *)
Definition key_match (key p : string) : M T bool :=
  match JS.String_match host key p with
  | inl e => throw e
  | inr b => mret b
  end.

(** One turn of the loop of [getAllAccessTokens]; [results] is the array
    being filled.  The [try] block covers the two calls of [JSON.parse]. *)
Definition getAllAccessTokens_step (this : Object)
    (clientId homeAccountIdentifier : string)
    (results : list AccessTokenCacheItem) (key : string)
  : M T (list AccessTokenCacheItem) :=
  m1 ← key_match key clientId;
  m2 ← (if (m1 : bool) then key_match key homeAccountIdentifier else mret false);
  if (m2 : bool) then
    value ← getItem this key false;
    match JS.JSON_parse key with
    | Some parseAtKey =>
        match JS.JSON_parse_nullable value with
        | Some parsedValue =>
            mret (results ++ [{| key := parseAtKey; value := parsedValue |}])%list
        | None => mret results
        end
    | None => mret results
    end
  else mret results.

Fixpoint getAllAccessTokens_loop (this : Object)
    (clientId homeAccountIdentifier : string)
    (results : list AccessTokenCacheItem) (keys : list string)
  : M T (list AccessTokenCacheItem) :=
  match keys with
  | [] => mret results
  | key :: keys' =>
      results' ← getAllAccessTokens_step this clientId homeAccountIdentifier
                   results key;
      getAllAccessTokens_loop this clientId homeAccountIdentifier results' keys'
  end.

(** [if (storage)] holds whenever it is reached: [storage] is an object,
    or [Object.keys] has thrown on a missing area before. *)
Definition getAllAccessTokens (this : Object)
    (clientId homeAccountIdentifier : string)
  : M T (list AccessTokenCacheItem) :=
  storage ← BrowserStorage.getStorage (super this);
  keys ← keysOf storage;
  getAllAccessTokens_loop this clientId homeAccountIdentifier [] keys.

Definition generateAcquireTokenAccountKey (accountId state : string) : string :=
  ACQUIRE_TOKEN_ACCOUNT TemporaryCacheKeys +:+ resourceDelimiter Constants
    +:+ accountId +:+ resourceDelimiter Constants +:+ state.

Definition generateAuthorityKey (state : string) : string :=
  AUTHORITY TemporaryCacheKeys +:+ resourceDelimiter Constants +:+ state.

(** *** Calls that are not awaited

    A call of an [async] method runs the method up to its first [await] and
    hands back a promise; what follows the [await] runs once the caller has
    run to its end, the suspended calls resuming in the order in which they
    were suspended.  Where the caller does not await the promise, the two
    parts are modelled apart: [f_called] is the part that runs with the call,
    [f_resumed] the part that runs later.  The base class is the revision
    that stands in one file with [AuthCache], whose storage methods are not
    [async]: a call of [super.setItem] or [super.getItem] has completed when
    it returns. *)

Variable PersistentCacheKeys : PersistentCacheKeysT.
Variable ErrorCacheKeys : ErrorCacheKeysT.

(** [setItem] awaits its first [super.setItem]: the call performs the first
    write, the second is left for later. *)
Definition setItem_called (this : Object) (key value : string)
    (enableCookieStorage : bool) : M T (JS.Promise unit) :=
  async (BrowserStorage.setItem (super this) (generateCacheKey this key true)
           value enableCookieStorage).

Definition setItem_resumed (this : Object) (key value : string)
    (enableCookieStorage : bool) (first : JS.Promise unit) : M T (JS.Promise unit) :=
  match first with
  | JS.Fulfilled _ =>
      async (if rollbackEnabled this
             then BrowserStorage.setItem (super this) (generateCacheKey this key false)
                    value enableCookieStorage
             else mret tt)
  | JS.Rejected e => mret (JS.Rejected e)
  end.

(** The promise of [setItem] is dropped; it is kept here as the handle of
    the suspended call. *)
Definition duplicateCacheEntry (this : Object) (newKey : string)
    (value : option string) (storeAuthStateInCookie : bool)
  : M T (option (JS.Promise unit)) :=
  if JS.truthy_nullable value
  then p ← setItem_called this newKey (default "" value) storeAuthStateInCookie;
       mret (Some p)
  else mret None.

(** [migrateCacheEntries] up to its first [await]: the first read. *)
Definition migrateCacheEntries_called (this : Object)
  : M T (JS.Promise (option string)) :=
  let idTokenKey := cachePrefix Constants +:+ "." +:+ IDTOKEN PersistentCacheKeys in
  async (BrowserStorage.getItem (super this) idTokenKey false).

(** The rest of [migrateCacheEntries], and after it the suspended calls of
    [setItem] that [forEach] has left, in the order of the calls. *)
Definition migrateCacheEntries_resumed (this : Object)
    (storeAuthStateInCookie : bool) (first : JS.Promise (option string))
  : M T (JS.Promise unit) :=
  match first with
  | JS.Rejected e => mret (JS.Rejected e)
  | JS.Fulfilled idTokenValue =>
      async (
        let clientInfoKey :=
          cachePrefix Constants +:+ "." +:+ CLIENT_INFO PersistentCacheKeys in
        let errorKey := cachePrefix Constants +:+ "." +:+ ERROR ErrorCacheKeys in
        let errorDescKey :=
          cachePrefix Constants +:+ "." +:+ ERROR_DESC ErrorCacheKeys in
        clientInfoValue ← BrowserStorage.getItem (super this) clientInfoKey false;
        errorValue ← BrowserStorage.getItem (super this) errorKey false;
        errorDescValue ← BrowserStorage.getItem (super this) errorDescKey false;
        let values := [idTokenValue; clientInfoValue; errorValue; errorDescValue] in
        let keysToMigrate :=
          [IDTOKEN PersistentCacheKeys; CLIENT_INFO PersistentCacheKeys;
           ERROR ErrorCacheKeys; ERROR_DESC ErrorCacheKeys] in
        suspended ← forEach (zip keysToMigrate values) (fun '(cacheKey, value) =>
          duplicateCacheEntry this cacheKey value storeAuthStateInCookie);
        for_of (zip (zip keysToMigrate values) suspended)
          (fun '(cacheKey, value, call) =>
             match call with
             | Some first =>
                 _ ← setItem_resumed this cacheKey (default "" value)
                       storeAuthStateInCookie first;
                 mret tt
             | None => mret tt
             end))
  end.

(** The migration run from its call to its end, with nothing in between. *)
Definition migrateCacheEntries (this : Object) (storeAuthStateInCookie : bool)
  : M T (JS.Promise unit) :=
  first ← migrateCacheEntries_called this;
  migrateCacheEntries_resumed this storeAuthStateInCookie first.

Definition constructor (clientId : string) (cacheLocation : CacheLocation)
    (storeAuthStateInCookie : bool) : M T Constructed :=
  loc ← BrowserStorage.constructor cacheLocation;
  let this := {| cacheLocation := loc;
                 clientId := clientId;
                 rollbackEnabled := true |} in
  first ← migrateCacheEntries_called this;
  mret {| object := this; migration := first |}.

End Class.
End AuthCache.

(** ** Storage.ts, the earlier class *)

Module Storage.

Record ConstantsT := {
  msal : string;
  renewStatus : string;
  stateLogin : string;
  stateAcquireToken : string;
  nonceIdToken : string;
  loginRequest : string;
  tokenRenewStatusInProgress : string;
  resourceDelimiter : string
}.

Record CacheKeysT := {
  AUTHORITY : string;
  ACQUIRE_TOKEN_ACCOUNT : string
}.

Record Object := { cacheLocation : CacheLocation }.

Definition isString (x : CacheLocation) : bool :=
  match x with
  | LocalStorageName | SessionStorageName => true
  | CustomObject _ => false
  end.

Definition stringStorageSupported (x : CacheLocation) (win : JS.Window) : bool :=
  match x with
  | LocalStorageName => bool_decide (is_Some (JS.localStorage win))
  | SessionStorageName => bool_decide (is_Some (JS.sessionStorage win))
  | CustomObject _ => false
  end.

Section Class.
Context {T : Type} `{ICustomStorage T} (host : JS.Host).
Variable Constants : ConstantsT.
Variable CacheKeys : CacheKeysT.

Definition setInstance (this : Object) : M T unit := fun w =>
  Ok tt {| window := window w; custom := custom w; now := now w;
           Storage_instance := Some (cacheLocation this) |}.

(** The constructor of the singleton: an existing instance is returned
    whatever the argument. *)
Definition constructor (cacheLocation : CacheLocation) : M T Object :=
  w ← getWorld;
  match Storage_instance w with
  | Some loc => mret {| cacheLocation := loc |}
  | None =>
      let this := {| cacheLocation := cacheLocation |} in
      _ ← (if isString (Storage.cacheLocation this) then
             win ← theWindow;
             if negb (stringStorageSupported (Storage.cacheLocation this) win)
             then throw JS.NoStorageSupportedError
             else mret tt
           else mret tt);
      _ ← setInstance this;
      mret this
  end.

Definition getStorage (this : Object) : M T StorageRef :=
  match cacheLocation this with
  | LocalStorageName => _ ← theWindow; mret LocalRef
  | SessionStorageName => _ ← theWindow; mret SessionRef
  | CustomObject true => mret CustomRef
  | CustomObject false => throw JS.UnsupportedStorageType
  end.

Definition getCookieExpirationTime (cookieLifeDays : JS.Number) : M T string :=
  w ← getWorld;
  let today := now w in
  mret (JS.utcStringAfter host today cookieLifeDays).

Definition setItemCookie (cName cValue : string) (expires : option JS.Number)
  : M T unit :=
  let cookieStr := cName +:+ "=" +:+ cValue +:+ ";" in
  cookieStr ← (if BrowserStorage.truthy_number expires then
                 expireTime ← getCookieExpirationTime (default JS.NaN expires);
                 mret (cookieStr +:+ "expires=" +:+ expireTime +:+ ";")
               else mret cookieStr);
  document_cookie_set host cookieStr.

Definition getItemCookie (cName : string) : M T string :=
  let name := cName +:+ "=" in
  cookie ← document_cookie;
  mret (BrowserStorage.findCookie name (JS.split cookie ";")).

Definition setItem (this : Object) (key value : string)
    (enableCookieStorage : bool) : M T unit :=
  storageLocation ← getStorage this;
  _ ← storage_setItem storageLocation key value;
  if enableCookieStorage then setItemCookie key value None else mret tt.

Definition getItem (this : Object) (key : string) (enableCookieStorage : bool)
  : M T (option string) :=
  fromCookie ← (if enableCookieStorage
                then c ← getItemCookie key; mret (JS.truthy c)
                else mret false);
  if (fromCookie : bool) then c ← getItemCookie key; mret (Some c)
  else storageLocation ← getStorage this; storage_getItem storageLocation key.

Definition removeItem (this : Object) (key : string) : M T unit :=
  storageLocation ← getStorage this;
  storage_removeItem storageLocation key.

Definition clearCookie : M T unit :=
  _ ← setItemCookie (nonceIdToken Constants) "" (Some (JS.integer (-1)));
  _ ← setItemCookie (stateLogin Constants) "" (Some (JS.integer (-1)));
  _ ← setItemCookie (loginRequest Constants) "" (Some (JS.integer (-1)));
  setItemCookie (stateAcquireToken Constants) "" (Some (JS.integer (-1))).

Definition tokenRenewalInProgress (this : Object) (stateValue : string)
  : M T (JS.Promise bool) :=
  async (
    storage ← getStorage this;
    renewStatus ← storage_getItem storage (renewStatus Constants +:+ stateValue);
    mret (negb (negb (JS.truthy_nullable renewStatus)
                || negb (bool_decide
                     (renewStatus = Some (tokenRenewStatusInProgress Constants)))))).

(** One turn of the loop of [removeAcquireTokenEntries].  The inner [state]
    is the block-scoped variable that shadows the parameter; the calls of
    [removeItem] are not awaited, and neither is [tokenRenewalInProgress],
    whose promise is negated as it is. *)
Definition removeAcquireTokenEntries_step (this : Object) (state : option string)
    (key : string) : M T unit :=
  if ((negb (Z.eqb (JS.indexOf key (AUTHORITY CacheKeys)) (-1))
       || negb (Z.eqb (JS.indexOf key (ACQUIRE_TOKEN_ACCOUNT CacheKeys)) 1))
      && (negb (JS.truthy_nullable state)
          || negb (Z.eqb (JS.indexOf key (default "" state)) (-1))))%bool
  then
    let splitKey := JS.split key (resourceDelimiter Constants) in
    let state' : option string :=
      if Nat.ltb 1 (List.length splitKey) then splitKey !! 1%nat else None in
    go ← (if JS.truthy_nullable state'
          then p ← tokenRenewalInProgress this (default "" state');
               mret (negb (JS.truthy_object p))
          else mret false);
    if (go : bool) then
      _ ← async (removeItem this key);
      _ ← async (removeItem this (renewStatus Constants +:+ default "" state'));
      _ ← async (removeItem this (stateLogin Constants));
      _ ← async (removeItem this (stateAcquireToken Constants));
      setItemCookie key "" (Some (JS.integer (-1)))
    else mret tt
  else mret tt.

Definition removeAcquireTokenEntries (this : Object) (state : option string)
  : M T unit :=
  storage ← getStorage this;
  keys ← keysOf storage;
  _ ← for_of keys (removeAcquireTokenEntries_step this state);
  clearCookie.

(** One turn of the loop of [getAllAccessTokens] in this class: no [try]
    block surrounds the two calls of [JSON.parse]. *)
Definition getAllAccessTokens_step (this : Object)
    (clientId homeAccountIdentifier : string)
    (results : list AuthCache.AccessTokenCacheItem) (key : string)
  : M T (list AuthCache.AccessTokenCacheItem) :=
  m1 ← AuthCache.key_match host key clientId;
  m2 ← (if (m1 : bool) then AuthCache.key_match host key homeAccountIdentifier
        else mret false);
  if (m2 : bool) then
    value ← getItem this key false;
    if JS.truthy_nullable value then
      match JS.JSON_parse key with
      | Some parsedKey =>
          match JS.JSON_parse_nullable value with
          | Some parsedValue =>
              mret (results ++ [{| AuthCache.key := parsedKey;
                                   AuthCache.value := parsedValue |}])%list
          | None => throw JS.SyntaxError
          end
      | None => throw JS.SyntaxError
      end
    else mret results
  else mret results.

Fixpoint getAllAccessTokens_loop (this : Object)
    (clientId homeAccountIdentifier : string)
    (results : list AuthCache.AccessTokenCacheItem) (keys : list string)
  : M T (list AuthCache.AccessTokenCacheItem) :=
  match keys with
  | [] => mret results
  | key :: keys' =>
      results' ← getAllAccessTokens_step this clientId homeAccountIdentifier
                   results key;
      getAllAccessTokens_loop this clientId homeAccountIdentifier results' keys'
  end.

Definition getAllAccessTokens (this : Object)
    (clientId homeAccountIdentifier : string)
  : M T (list AuthCache.AccessTokenCacheItem) :=
  storage ← getStorage this;
  keys ← keysOf storage;
  getAllAccessTokens_loop this clientId homeAccountIdentifier [] keys.

Definition clear (this : Object) : M T unit :=
  storageLocation ← getStorage this;
  storage_clear storageLocation.

(** The last statement calls [removeAcquireTokenEntries] and does not await
    it.  On a storage area of the browser that call meets no [await] on its
    way and has run to its end when it returns.  On a host-supplied object
    it is suspended at [await storage.getAllKeys()] and its rest runs once
    the caller is done; the model runs it in place all the same, so for
    such an object it describes the state once nothing is suspended any
    more.  What the call throws stays in its promise. *)
Definition resetCacheItems (this : Object) : M T unit :=
  storage ← getStorage this;
  keys ← keysOf storage;
  _ ← for_of keys (fun key =>
        if negb (Z.eqb (JS.indexOf key (msal Constants)) (-1))
        then removeItem this key
        else mret tt);
  _ ← async (removeAcquireTokenEntries this None);
  mret tt.

Definition generateAcquireTokenAccountKey (accountId state : string) : string :=
  ACQUIRE_TOKEN_ACCOUNT CacheKeys +:+ resourceDelimiter Constants
    +:+ accountId +:+ resourceDelimiter Constants +:+ state.

Definition generateAuthorityKey (state : string) : string :=
  AUTHORITY CacheKeys +:+ resourceDelimiter Constants +:+ state.

End Class.
End Storage.

(** ** Sample values

    Modelled from the spec: the values of [utils/Constants], which is not
    among the sources.  The namespace prefix [msal], the delimiter [|], the
    in-progress sentinel and the names of the two global transient keys are
    the spec's; the other names follow the identifiers in the code.  They
    serve the examples only: every theorem below holds for all values. *)

Module Sample.

Definition Constants : ConstantsT := {|
  cachePrefix := "msal";
  adalIdToken := "adal.idtoken";
  inProgress := "in progress";
  resourceDelimiter := "|"
|}.

Definition TemporaryCacheKeys : TemporaryCacheKeysT := {|
  AUTHORITY := "authority";
  ACQUIRE_TOKEN_ACCOUNT := "acquireTokenAccount";
  STATE_LOGIN := "state.login";
  STATE_ACQ_TOKEN := "state.acquireToken";
  NONCE_IDTOKEN := "nonce.idtoken";
  LOGIN_REQUEST := "login.request";
  RENEW_STATUS := "token.renew.status";
  INTERACTION_STATUS := "interactionStatus";
  REDIRECT_REQUEST := "redirectRequest"
|}.

Definition PersistentCacheKeys : PersistentCacheKeysT := {|
  IDTOKEN := "idtoken";
  CLIENT_INFO := "client.info"
|}.

Definition ErrorCacheKeys : ErrorCacheKeysT := {|
  ERROR := "error";
  ERROR_DESC := "error.description"
|}.

Definition StorageConstants : Storage.ConstantsT := {|
  Storage.msal := "msal";
  Storage.renewStatus := "msal.token.renew.status";
  Storage.stateLogin := "msal.state.login";
  Storage.stateAcquireToken := "msal.state.acquireToken";
  Storage.nonceIdToken := "msal.nonce.idtoken";
  Storage.loginRequest := "msal.login.request";
  Storage.tokenRenewStatusInProgress := "in progress";
  Storage.resourceDelimiter := "|"
|}.

Definition CacheKeys : Storage.CacheKeysT := {|
  Storage.AUTHORITY := "msal.authority";
  Storage.ACQUIRE_TOKEN_ACCOUNT := "msal.acquireTokenAccount"
|}.

(** A host that renders every date the same way and takes it to be past
    exactly when the cache asked for a negative lifetime; it rejects the
    patterns outside the modelled fragment. *)
Definition host : JS.Host := {|
  JS.toUTCString z := if Z.ltb z 0 then "Wed, 31 Dec 1969 00:00:00 GMT"
                      else "Fri, 02 Jan 1970 00:00:00 GMT";
  JS.fractionalDate _ _ := "Fri, 02 Jan 1970 00:00:00 GMT";
  JS.dateInPast _ d := String.eqb d "Wed, 31 Dec 1969 00:00:00 GMT";
  JS.RegExp_other _ _ := inl JS.SyntaxError
|}.

(** A browser at time 0 whose local storage holds [m], with session storage
    disabled and no cookie; the host-supplied object is an empty table. *)
Definition browser (m : gmap string string) : World (gmap string string) := {|
  window := Some {| JS.localStorage := Some m;
                    JS.sessionStorage := None;
                    JS.cookies := [] |};
  custom := ∅;
  now := 0;
  Storage_instance := None
|}.

Definition cache : AuthCache.Object := {|
  AuthCache.cacheLocation := Some LocalStorageName;
  AuthCache.clientId := "app1";
  AuthCache.rollbackEnabled := true
|}.

(** The double quote, for keys and values that are JSON texts. *)
Definition q : string := String "034" "".

End Sample.

(** ** The vocabulary of the statements *)

(** A host-supplied object honours the capability contract when its state
    can be read as a table on which the methods act as on a storage area. *)
Definition Contract {T} `{ICustomStorage T} (contents : T -> gmap string string)
  : Prop :=
  (forall k v t, exists t', cs_setItem k v t = inr t'
                            /\ contents t' = <[k:=v]> (contents t))
  /\ (forall k t, cs_getItem k t = inr (contents t !! k))
  /\ (forall k t, exists t', cs_removeItem k t = inr t'
                             /\ contents t' = delete k (contents t))
  /\ (forall t, exists ks, cs_getAllKeys t = inr ks
                           /\ forall k, k ∈ ks <-> is_Some (contents t !! k)).

(** The storage areas of the browser are what they are; only a
    host-supplied object has a contract to honour. *)
Definition honours {T} `{ICustomStorage T} (r : StorageRef)
    (contents : T -> gmap string string) : Prop :=
  match r with
  | CustomRef => Contract contents
  | _ => True
  end.

(** The storage the cache works on. *)
Definition refOf (loc : option CacheLocation) : option StorageRef :=
  match loc with
  | Some LocalStorageName => Some LocalRef
  | Some SessionStorageName => Some SessionRef
  | Some (CustomObject true) => Some CustomRef
  | _ => None
  end.

(** What a call can observe of the world through the storage [r]: the
    entries of [r], the cookies and the clock. *)
Record Snapshot := {
  stored : gmap string string;
  jar : JS.CookieJar;
  clock : Z
}.

Definition withStored (m : gmap string string) (s : Snapshot) : Snapshot :=
  {| stored := m; jar := jar s; clock := clock s |}.

Definition withJar (j : JS.CookieJar) (s : Snapshot) : Snapshot :=
  {| stored := stored s; jar := j; clock := clock s |}.

(** The entry of the browser's local storage under a key. *)
Definition localEntry {T} (key : string) (w : World T) : option string :=
  win ← window w; m ← JS.localStorage win; m !! key.

(** The string [setItemCookie] assigns to [document.cookie]. *)
Definition cookieString (host : JS.Host) (now : Z) (cName cValue : string)
    (expires : option JS.Number) : string :=
  cName +:+ "=" +:+ cValue +:+ ";path=/;"
  +:+ match expires with
      | Some days =>
          if JS.truthy_number days
          then "expires=" +:+ JS.utcStringAfter host now days +:+ ";"
          else ""
      | None => ""
      end.

(** A scan over [ks] that deletes the keys selected by [c]. *)
Definition removeAll (c : string -> bool) (ks : list string)
    (m : gmap string string) : gmap string string :=
  foldl (fun m k => if c k then delete k m else m) m ks.

Section Vocabulary.
Context {T : Type} `{ICustomStorage T}.
Variable contents : T -> gmap string string.
Variable host : JS.Host.
Variable Constants : ConstantsT.
Variable TemporaryCacheKeys : TemporaryCacheKeysT.
Variable this : AuthCache.Object.

Local Abbreviation generateCacheKey := (AuthCache.generateCacheKey Constants this).

Definition view (r : StorageRef) (w : World T) : option (gmap string string) :=
  match r with
  | CustomRef => Some (contents (custom w))
  | _ => win ← window w; area r win
  end.

Definition snapshot (r : StorageRef) (w : World T) : option Snapshot :=
  win ← window w;
  m ← view r w;
  Some {| stored := m; jar := JS.cookies win; clock := now w |}.

(** [returns m w Q]: run in [w], [m] returns normally, and [Q] holds of the
    result and the world it leaves. *)
Definition returns {A} (m : M T A) (w : World T) (Q : A -> World T -> Prop) : Prop :=
  exists a w', m w = Ok a w' /\ Q a w'.

(** A computation is read-only when it leaves the world as it found it,
    whether it returns or throws. *)
Definition readonly {A} (m : M T A) : Prop :=
  forall w, match m w with Ok _ w' | Throw _ w' => w' = w end.

(** A key is left alone when it is a JSON text or carries one of the two
    prefixes already. *)
Definition namespaced (key : string) : bool :=
  bool_decide (is_Some (JS.JSON_parse key))
  || Z.eqb (JS.indexOf key (cachePrefix Constants)) 0
  || Z.eqb (JS.indexOf key (adalIdToken Constants)) 0.

(** [key.indexOf(Constants.cachePrefix) !== -1] *)
Definition containsPrefix (key : string) : bool :=
  negb (Z.eqb (JS.indexOf key (cachePrefix Constants)) (-1)).

(** The cookies after [AuthCache.setItemCookie]. *)
Definition mirrored (cName cValue : string) (expires : option JS.Number)
    (s : Snapshot)
  : JS.CookieJar :=
  let j1 := JS.cookie_assign host (clock s)
              (cookieString host (clock s) (generateCacheKey cName true)
                 cValue expires) (jar s) in
  if AuthCache.rollbackEnabled this
  then JS.cookie_assign host (clock s)
         (cookieString host (clock s) (generateCacheKey cName false)
            cValue expires) j1
  else j1.

(** The entries after [removeItem]. *)
Definition removed (key : string) (m : gmap string string) : gmap string string :=
  if AuthCache.rollbackEnabled this
  then delete (generateCacheKey key false) (delete (generateCacheKey key true) m)
  else delete (generateCacheKey key true) m.

(** The snapshot after [setItem]. *)
Definition written (key value : string) (enableCookieStorage : bool)
    (s : Snapshot) : Snapshot :=
  let mirror (k : string) (s0 : Snapshot) : Snapshot :=
    if enableCookieStorage then withJar (mirrored k value None s0) s0 else s0 in
  let s1 := mirror (generateCacheKey key true)
              (withStored (<[generateCacheKey key true := value]> (stored s)) s) in
  if AuthCache.rollbackEnabled this
  then mirror (generateCacheKey key false)
         (withStored (<[generateCacheKey key false := value]> (stored s1)) s1)
  else s1.

(** What the promise of [tokenRenewalInProgress] settles to: the entry
    under the renewal-status key of the state holds the sentinel. *)
Definition renewalInProgress (state : string) (m : gmap string string) : bool :=
  let renewStatus :=
    m !! generateCacheKey (RENEW_STATUS TemporaryCacheKeys +:+ "|" +:+ state) true in
  JS.truthy_nullable renewStatus
  && bool_decide (renewStatus = Some (inProgress Constants)).

(** The four physical keys of the two global transient entries. *)
Definition globalKeys : list string :=
  [ generateCacheKey (INTERACTION_STATUS TemporaryCacheKeys) true;
    generateCacheKey (INTERACTION_STATUS TemporaryCacheKeys) false;
    generateCacheKey (REDIRECT_REQUEST TemporaryCacheKeys) true;
    generateCacheKey (REDIRECT_REQUEST TemporaryCacheKeys) false ].

End Vocabulary.

(** [key.match(p)] finds something; an invalid pattern counts as no match. *)
Definition matches (host : JS.Host) (key p : string) : bool :=
  match JS.String_match host key p with
  | inr b => b
  | inl _ => false
  end.

(** The engine accepts the pattern. *)
Definition validPattern (host : JS.Host) (p : string) : Prop :=
  forall key, exists b, JS.String_match host key p = inr b.

(** [key.indexOf(p) !== -1] *)
Definition contains (key p : string) : bool :=
  negb (Z.eqb (JS.indexOf key p) (-1)).

(** The scan selects a key when both patterns match it. *)
Definition selected (host : JS.Host) (clientId homeAccountIdentifier : string)
    (key : string) : bool :=
  matches host key clientId && matches host key homeAccountIdentifier.

(** The item an entry decodes to, if its key and its value are JSON texts. *)
Definition decodeEntry (m : gmap string string) (key : string)
  : option AuthCache.AccessTokenCacheItem :=
  parseAtKey ← JS.JSON_parse key;
  parsedValue ← JS.JSON_parse_nullable (m !! key);
  Some {| AuthCache.key := parseAtKey; AuthCache.value := parsedValue |}.

(** The string does not contain the character. *)
Fixpoint lacks (c : ascii) (s : string) : bool :=
  match s with
  | EmptyString => true
  | String d s' => negb (Ascii.eqb d c) && lacks c s'
  end.

(** The string consists of spaces. *)
Fixpoint spaces (s : string) : bool :=
  match s with
  | EmptyString => true
  | String c s' => Ascii.eqb c " " && spaces s'
  end.

(** A cookie name the store keeps as it is: not empty, without [;] and
    [=], and without blanks at either end. *)
Definition cookieName (n : string) : bool :=
  JS.truthy n && lacks ";" n && lacks "=" n && String.eqb (JS.trim n) n.

(** A cookie value the store keeps as it is. *)
Definition cookieValue (v : string) : bool :=
  lacks ";" v && String.eqb (JS.trim v) v.

(** The cookies already in the store are well formed: no name contains
    [=] or [;] or starts with a space, and no value contains [;]. *)
Definition wfJar (j : JS.CookieJar) : bool :=
  forallb (fun '(n, v) =>
             lacks ";" n && lacks "=" n
             && String.eqb (BrowserStorage.stripSpaces n) n && lacks ";" v) j.

(** The value of the first cookie of that name, or the empty string. *)
Fixpoint jar_get (name : string) (j : JS.CookieJar) : string :=
  match j with
  | [] => ""
  | (n, v) :: j' => if String.eqb n name then v else jar_get name j'
  end.

(** The store holds a cookie of that name. *)
Fixpoint hasName (name : string) (j : JS.CookieJar) : bool :=
  match j with
  | [] => false
  | (n, _) :: j' => String.eqb n name || hasName name j'
  end.

(** No two cookies of the store share a name. *)
Fixpoint uniqueNames (j : JS.CookieJar) : bool :=
  match j with
  | [] => true
  | (n, _) :: j' => negb (hasName n j') && uniqueNames j'
  end.

(** The cookies are as assignments to [document.cookie] leave them: every
    name is a cookie name, no value contains [;], and no two cookies share
    a name. *)
Definition storeJar (j : JS.CookieJar) : bool :=
  forallb (fun '(n, v) => cookieName n && lacks ";" v) j && uniqueNames j.

(** What the loop of [getItemCookie] makes of the value [x] of a cookie
    when the name it looks for continues with [t] behind the first [=]. *)
Definition valueBehind (t x : string) : string :=
  if String.prefix t x then JS.substring_from (String.length t) x else "".

(** *** Worlds for the examples *)

(** The snapshot of [Sample.browser m] through its local storage. *)
Definition sample_snapshot (m : gmap string string) : Snapshot :=
  {| stored := m; jar := []; clock := 0 |}.

(** A cache on a host-supplied storage object. *)
Definition custom_cache : AuthCache.Object := {|
  AuthCache.cacheLocation := Some (CustomObject true);
  AuthCache.clientId := "app1";
  AuthCache.rollbackEnabled := true
|}.

(** The renewal flag of the state [interactionStatus] is set, and the
    entry [msal.app1.interactionStatus] holds a value. *)
Definition world_in_progress : World (gmap string string) :=
  Sample.browser
    (<["msal.app1.token.renew.status|interactionStatus" := "in progress"]>
       (<["msal.app1.interactionStatus" := "x"]> ∅)).

(** A renewal is in progress for [stateA], one entry is tagged with that
    state, and the entry [msal.app1.interactionStatus] holds a value. *)
Definition renewing_stateA : gmap string string :=
  <["msal.app1.token.renew.status|stateA" := "in progress"]>
    (<["msal.app1.nonce.idtoken|stateA" := "n"]>
       (<["msal.app1.interactionStatus" := "x"]> ∅)).

Definition world_renewing_stateA : World (gmap string string) :=
  Sample.browser renewing_stateA.

(** No renewal is in progress for [stateA], and one entry is tagged with
    that state. *)
Definition world_stateA : World (gmap string string) :=
  Sample.browser (<["msal.app1.nonce.idtoken|stateA" := "n"]> ∅).

(** An authority entry for the state [s1], with no renewal in progress. *)
Definition world_authority : World (gmap string string) :=
  Sample.browser (<["msal.authority|s1" := "https://login.example/"]> ∅).

(** One entry of the cache and one of another application. *)
Definition two_keys : gmap string string :=
  <["msal.foo" := "1"]> (<["unrelated.bar" := "2"]> ∅).

(** The key and the value of a token entry. *)
Definition tokenKey (homeAccountIdentifier : string) : string :=
  "{" +:+ Sample.q +:+ "clientId" +:+ Sample.q +:+ ":"
  +:+ Sample.q +:+ "app1" +:+ Sample.q +:+ ","
  +:+ Sample.q +:+ "homeAccountIdentifier" +:+ Sample.q +:+ ":"
  +:+ Sample.q +:+ homeAccountIdentifier +:+ Sample.q +:+ "}".

Definition tokenValue : string :=
  "{" +:+ Sample.q +:+ "accessToken" +:+ Sample.q +:+ ":"
  +:+ Sample.q +:+ "secret" +:+ Sample.q +:+ "}".

(** The token entries of one client for two accounts. *)
Definition two_tokens : gmap string string :=
  <[tokenKey "acct1" := tokenValue]> (<[tokenKey "acct2" := tokenValue]> ∅).

(** An entry of another account, whose identifier differs from
    [dWlk.dXRpZA] in the place of the dot. *)
Definition world_other_account : World (gmap string string) :=
  Sample.browser (<[tokenKey "dWlkXdXRpZA" := tokenValue]> ∅).

(** *** Vocabulary for the rest of the code *)

Definition migrationKeys (PersistentCacheKeys : PersistentCacheKeysT)
    (ErrorCacheKeys : ErrorCacheKeysT) : list string :=
  [IDTOKEN PersistentCacheKeys; CLIENT_INFO PersistentCacheKeys;
   ERROR ErrorCacheKeys; ERROR_DESC ErrorCacheKeys].

(** The key of an entry in the legacy schema and in the current one. *)
Definition legacyKey (Constants : ConstantsT) (key : string) : string :=
  cachePrefix Constants +:+ "." +:+ key.

Definition currentKey (Constants : ConstantsT) (this : AuthCache.Object)
    (key : string) : string :=
  cachePrefix Constants +:+ "." +:+ AuthCache.clientId this +:+ "." +:+ key.

(** A scan over keys paired with values that writes each truthy value under
    the physical key [f] makes of its key. *)
Definition copyAll (f : string -> string) (kvs : list (string * option string))
    (m : gmap string string) : gmap string string :=
  foldl (fun m '(k, v) => if JS.truthy_nullable v then <[f k := default "" v]> m else m)
    m kvs.

(** Between two snapshots the clock is the same, and so are the cookies
    unless mirroring is on. *)
Definition cookiesOnlyIf (flag : bool) (s s' : Snapshot) : Prop :=
  clock s' = clock s /\ (flag = false -> jar s' = jar s).


(** The storage holds a value under the current-schema key of [idtoken],
    and the cookie of that name holds another. *)
Definition world_stale_cookie : World (gmap string string) := {|
  window := Some {| JS.localStorage := Some {["msal.app1.idtoken" := "new"]};
                    JS.sessionStorage := None;
                    JS.cookies := [("msal.app1.idtoken", "old")] |};
  custom := ∅;
  now := 0;
  Storage_instance := None
|}.

(** The date [getCookieExpirationTime] renders for a number of days. *)
Definition expiryDate (host : JS.Host) (now : Z) (days : JS.Number) : string :=
  JS.utcStringAfter host now days.

(** The string [setItemCookie] of the earlier class assigns to
    [document.cookie]: it carries no path. *)
Definition Storage_cookieString (host : JS.Host) (now : Z) (cName cValue : string)
    (expires : option JS.Number) : string :=
  cName +:+ "=" +:+ cValue +:+ ";"
  +:+ match expires with
      | Some days =>
          if JS.truthy_number days
          then "expires=" +:+ JS.utcStringAfter host now days +:+ ";"
          else ""
      | None => ""
      end.

(** The cookies after [clearCookie] of the earlier class. *)
Definition clearedCookies (host : JS.Host) (Constants : Storage.ConstantsT)
    (now : Z) (j : JS.CookieJar) : JS.CookieJar :=
  foldl (fun j cName =>
           JS.cookie_assign host now
             (Storage_cookieString host now cName "" (Some (JS.integer (-1)))) j)
    j [Storage.nonceIdToken Constants; Storage.stateLogin Constants;
       Storage.loginRequest Constants; Storage.stateAcquireToken Constants].

(** A browser in which the singleton of the earlier class has been
    created for the local storage. *)
Definition world_with_instance : World (gmap string string) := {|
  window := window (Sample.browser ∅);
  custom := ∅;
  now := 0;
  Storage_instance := Some LocalStorageName
|}.

(** The scan of the earlier class decodes a key when both patterns match it
    and its entry holds a non-empty value. *)
Definition tokenCandidate (host : JS.Host) (clientId homeAccountIdentifier : string)
    (m : gmap string string) (key : string) : bool :=
  selected host clientId homeAccountIdentifier key && JS.truthy_nullable (m !! key).

(** The names [clearMsalCookie] clears for a state. *)
Definition msalCookieNames (TemporaryCacheKeys : TemporaryCacheKeysT)
    (state : string) : list string :=
  [NONCE_IDTOKEN TemporaryCacheKeys +:+ "|" +:+ state;
   STATE_LOGIN TemporaryCacheKeys +:+ "|" +:+ state;
   LOGIN_REQUEST TemporaryCacheKeys +:+ "|" +:+ state;
   STATE_ACQ_TOKEN TemporaryCacheKeys +:+ "|" +:+ state].

(** A browser with an empty local storage and the cookies [j]. *)
Definition world_with_cookies (j : JS.CookieJar) : World (gmap string string) := {|
  window := Some {| JS.localStorage := Some ∅;
                    JS.sessionStorage := None;
                    JS.cookies := j |};
  custom := ∅;
  now := 0;
  Storage_instance := None
|}.

(** A cache whose client identifier contains [=]. *)
Definition cache_odd_client : AuthCache.Object := {|
  AuthCache.cacheLocation := Some LocalStorageName;
  AuthCache.clientId := "k=z";
  AuthCache.rollbackEnabled := true
|}.

(** A cache handed an object that is not an instance of [CustomStorage]. *)
Definition foreign_cache : AuthCache.Object := {|
  AuthCache.cacheLocation := Some (CustomObject false);
  AuthCache.clientId := "app1";
  AuthCache.rollbackEnabled := true
|}.

(** ** Reasoning about computations *)

Lemma MemoryStorage_Contract : @Contract _ MemoryStorage (fun m => m).
Proof.
  split; [|split; [|split]]; simpl.
  - intros k v t. by exists (<[k:=v]> t).
  - done.
  - intros k t. by exists (delete k t).
  - intros t. exists (JS.Object_keys t). split; [done|]. intros k.
    unfold JS.Object_keys. rewrite list_elem_of_fmap. split.
    + intros [[k' v] [-> Hkv]]. apply elem_of_map_to_list in Hkv. eauto.
    + intros [v Hv]. exists (k, v). split; [done|]. by apply elem_of_map_to_list.
Qed.

Section Snapshots.
Context {T : Type} `{ICustomStorage T}.
Variable contents : T -> gmap string string.

Lemma returns_ret {A} (a : A) w (Q : A -> World T -> Prop) :
  Q a w -> returns (mret a) w Q.
Proof. intros HQ. exists a, w. done. Qed.

Lemma returns_bind {A B} (m : M T A) (f : A -> M T B) w (Q : B -> World T -> Prop) :
  returns m w (fun a w' => returns (f a) w' Q) -> returns (m ≫= f) w Q.
Proof.
  intros (a & w' & Hm & b & w'' & Hf & HQ). exists b, w''. split; [|done].
  unfold mbind, M_bind. by rewrite Hm.
Qed.

Lemma returns_weaken {A} (m : M T A) w (Q Q' : A -> World T -> Prop) :
  returns m w Q -> (forall a w', Q a w' -> Q' a w') -> returns m w Q'.
Proof. intros (a & w' & Hm & HQ) HQQ. exists a, w'. eauto. Qed.

Lemma returns_unit (m : M T unit) w (Q : unit -> World T -> Prop) :
  returns m w Q <-> exists w', m w = Ok tt w' /\ Q tt w'.
Proof.
  split.
  - intros ([] & w' & Hm & HQ). eauto.
  - intros (w' & Hm & HQ). exists tt, w'. done.
Qed.

Lemma returns_unit_elim (m : M T unit) w (P : World T -> Prop) :
  returns m w (fun _ w' => P w') -> exists w', m w = Ok tt w' /\ P w'.
Proof. intros ([] & w' & Hm & HP). eauto. Qed.

Lemma returns_for_of {A} (xs : list A) (body : A -> M T unit)
    (I : list A -> World T -> Prop) w :
  I xs w ->
  (forall x xs' w0, I (x :: xs') w0 -> returns (body x) w0 (fun _ w1 => I xs' w1)) ->
  returns (for_of xs body) w (fun _ w' => I [] w').
Proof.
  intros HI Hstep. revert w HI. induction xs as [|x xs IH]; intros w HI.
  - by apply returns_ret.
  - simpl. apply returns_bind.
    eapply returns_weaken; [by apply Hstep|]. intros u w1 HI1. by apply IH.
Qed.

End Snapshots.

(** *** The storage and cookie primitives, seen through a snapshot *)

Section Primitives.
Context {T : Type} `{ICustomStorage T}.
Variable contents : T -> gmap string string.
Variable host : JS.Host.
Variable r : StorageRef.
Hypothesis Hr : honours r contents.

Lemma snapshot_inv w s :
  snapshot contents r w = Some s ->
  exists win, window w = Some win /\ view contents r w = Some (stored s)
              /\ JS.cookies win = jar s /\ now w = clock s.
Proof.
  unfold snapshot. destruct (window w) as [win|]; [|done]. simpl.
  destruct (view contents r w) as [m|]; [|done]. simpl.
  intros [= <-]. by exists win.
Qed.

Lemma theWindow_spec w s (Q : JS.Window -> World T -> Prop) :
  snapshot contents r w = Some s ->
  (forall win, window w = Some win -> Q win w) ->
  returns (theWindow : M T _) w Q.
Proof.
  intros (win & Hwin & _)%snapshot_inv HQ. exists win, w.
  unfold theWindow. rewrite Hwin. eauto.
Qed.

Lemma storage_getItem_spec k w s (Q : option string -> World T -> Prop) :
  snapshot contents r w = Some s ->
  Q (stored s !! k) w ->
  returns (storage_getItem r k) w Q.
Proof.
  intros (win & Hwin & Hview & _)%snapshot_inv HQ.
  exists (stored s !! k), w. split; [|done].
  destruct r; simpl in *.
  - unfold withArea, theWindow, mbind, M_bind. rewrite Hwin in Hview |- *.
    simpl in Hview |- *. by rewrite Hview.
  - unfold withArea, theWindow, mbind, M_bind. rewrite Hwin in Hview |- *.
    simpl in Hview |- *. by rewrite Hview.
  - destruct Hr as (_ & Hget & _). injection Hview as <-.
    unfold askCustom, getWorld, mbind, M_bind. by rewrite Hget.
Qed.

Lemma storage_setItem_spec k v w s (Q : unit -> World T -> Prop) :
  snapshot contents r w = Some s ->
  (forall w', snapshot contents r w' = Some (withStored (<[k:=v]> (stored s)) s) ->
              Q tt w') ->
  returns (storage_setItem r k v) w Q.
Proof.
  intros Hs HQ. pose proof Hs as (win & Hwin & Hview & Hjar & Hnow)%snapshot_inv.
  apply returns_unit. destruct r; simpl in *.
  - unfold withArea, theWindow, mbind, M_bind. rewrite Hwin in Hview |- *.
    simpl in Hview |- *. rewrite Hview. eexists. split; [reflexivity|].
    apply HQ. unfold snapshot, withStored. simpl. by rewrite Hjar, Hnow.
  - unfold withArea, theWindow, mbind, M_bind. rewrite Hwin in Hview |- *.
    simpl in Hview |- *. rewrite Hview. eexists. split; [reflexivity|].
    apply HQ. unfold snapshot, withStored. simpl. by rewrite Hjar, Hnow.
  - destruct Hr as (Hset & _). injection Hview as Hview.
    destruct (Hset k v (custom w)) as (t' & Hcall & Ht').
    unfold callCustom, getWorld, putCustom, mbind, M_bind. rewrite Hcall.
    eexists. split; [reflexivity|].
    apply HQ. unfold snapshot, withStored. simpl.
    rewrite Hwin. simpl. by rewrite Ht', Hview, Hjar, Hnow.
Qed.

Lemma storage_removeItem_spec k w s (Q : unit -> World T -> Prop) :
  snapshot contents r w = Some s ->
  (forall w', snapshot contents r w' = Some (withStored (delete k (stored s)) s) ->
              Q tt w') ->
  returns (storage_removeItem r k) w Q.
Proof.
  intros Hs HQ. pose proof Hs as (win & Hwin & Hview & Hjar & Hnow)%snapshot_inv.
  apply returns_unit. destruct r; simpl in *.
  - unfold withArea, theWindow, mbind, M_bind. rewrite Hwin in Hview |- *.
    simpl in Hview |- *. rewrite Hview. eexists. split; [reflexivity|].
    apply HQ. unfold snapshot, withStored. simpl. by rewrite Hjar, Hnow.
  - unfold withArea, theWindow, mbind, M_bind. rewrite Hwin in Hview |- *.
    simpl in Hview |- *. rewrite Hview. eexists. split; [reflexivity|].
    apply HQ. unfold snapshot, withStored. simpl. by rewrite Hjar, Hnow.
  - destruct Hr as (_ & _ & Hrem & _). injection Hview as Hview.
    destruct (Hrem k (custom w)) as (t' & Hcall & Ht').
    unfold callCustom, getWorld, putCustom, mbind, M_bind. rewrite Hcall.
    eexists. split; [reflexivity|].
    apply HQ. unfold snapshot, withStored. simpl.
    rewrite Hwin. simpl. by rewrite Ht', Hview, Hjar, Hnow.
Qed.

(** The keys a scan enumerates are the stored keys; a storage area
    enumerates them as [Object.keys] does. *)
Lemma keysOf_spec w s (Q : list string -> World T -> Prop) :
  snapshot contents r w = Some s ->
  (forall ks, (forall k, k ∈ ks <-> is_Some (stored s !! k)) ->
              (r <> CustomRef -> ks = JS.Object_keys (stored s)) ->
              Q ks w) ->
  returns (keysOf r) w Q.
Proof.
  intros (win & Hwin & Hview & _)%snapshot_inv HQ.
  assert (Hkeys : forall (m : gmap string string) k,
             k ∈ JS.Object_keys m <-> is_Some (m !! k)).
  { intros m k. unfold JS.Object_keys. rewrite list_elem_of_fmap. split.
    - intros [[k' v] [-> Hkv]]. apply elem_of_map_to_list in Hkv. eauto.
    - intros [v Hv]. exists (k, v). split; [done|]. by apply elem_of_map_to_list. }
  destruct r; simpl in *.
  - exists (JS.Object_keys (stored s)), w. split; [|by apply HQ].
    unfold withArea, theWindow, mbind, M_bind. rewrite Hwin in Hview |- *.
    simpl in Hview |- *. by rewrite Hview.
  - exists (JS.Object_keys (stored s)), w. split; [|by apply HQ].
    unfold withArea, theWindow, mbind, M_bind. rewrite Hwin in Hview |- *.
    simpl in Hview |- *. by rewrite Hview.
  - destruct Hr as (_ & _ & _ & Hall). injection Hview as Hview.
    destruct (Hall (custom w)) as (ks & Hcall & Hks).
    exists ks, w. split.
    + unfold askCustom, getWorld, mbind, M_bind. by rewrite Hcall.
    + apply HQ; [|done]. intros k. by rewrite Hks, Hview.
Qed.

Lemma document_cookie_spec w s (Q : string -> World T -> Prop) :
  snapshot contents r w = Some s ->
  Q (JS.cookie_read (jar s)) w ->
  returns (document_cookie : M T _) w Q.
Proof.
  intros (win & Hwin & _ & Hjar & _)%snapshot_inv HQ.
  exists (JS.cookie_read (jar s)), w. split; [|done].
  unfold document_cookie, theWindow, mbind, M_bind. by rewrite Hwin, Hjar.
Qed.

Lemma document_cookie_set_spec str w s (Q : unit -> World T -> Prop) :
  snapshot contents r w = Some s ->
  (forall w', snapshot contents r w'
              = Some (withJar (JS.cookie_assign host (clock s) str (jar s)) s) ->
              Q tt w') ->
  returns (document_cookie_set host str) w Q.
Proof.
  intros Hs HQ. pose proof Hs as (win & Hwin & Hview & Hjar & Hnow)%snapshot_inv.
  apply returns_unit.
  unfold document_cookie_set, theWindow, getWorld, putWindow, mbind, M_bind.
  rewrite Hwin. eexists. split; [reflexivity|].
  apply HQ. unfold snapshot, withJar. simpl.
  rewrite Hjar, Hnow. destruct r; simpl in *.
  - rewrite Hwin in Hview. simpl in Hview. by rewrite Hview.
  - rewrite Hwin in Hview. simpl in Hview. by rewrite Hview.
  - by injection Hview as ->.
Qed.

End Primitives.

(** ** Strings *)

Lemma prefix_app p s : String.prefix p (p +:+ s) = true.
Proof.
  induction p as [|c p IH]; simpl.
  - by destruct s.
  - destruct (ascii_dec c c); [done|congruence].
Qed.

Lemma indexOf_from_range i s p :
  JS.indexOf_from i s p = -1 \/ i <= JS.indexOf_from i s p.
Proof.
  revert i. induction s as [|c s IH]; intros i; cbn [JS.indexOf_from].
  - destruct (String.prefix p ""); lia.
  - destruct (String.prefix p (String c s)); [lia|].
    destruct (IH (i + 1)); lia.
Qed.

Lemma indexOf_0 s p : JS.indexOf s p = 0 <-> String.prefix p s = true.
Proof.
  unfold JS.indexOf. destruct s as [|c s]; cbn [JS.indexOf_from].
  - destruct (String.prefix p ""); split; (done || lia).
  - destruct (String.prefix p (String c s)); [done|].
    split; [|done]. destruct (indexOf_from_range (0 + 1) s p); lia.
Qed.

Lemma indexOf_app_0 p s : JS.indexOf (p +:+ s) p = 0.
Proof. apply indexOf_0, prefix_app. Qed.

Lemma String_append_assoc (a b c : string) : (a +:+ b) +:+ c = a +:+ (b +:+ c).
Proof. induction a as [|x a IH]; simpl; [done|by f_equal]. Qed.

Lemma String_length_app (a b : string) :
  String.length (a +:+ b) = (String.length a + String.length b)%nat.
Proof. induction a as [|x a IH]; simpl; [done|by f_equal]. Qed.

(** ** The key namespacer *)

Section Namespacer.
Variable Constants : ConstantsT.
Variable this : AuthCache.Object.

Local Abbreviation generateCacheKey := (AuthCache.generateCacheKey Constants this).

Lemma generateCacheKey_namespaced key g :
  namespaced Constants key = true -> generateCacheKey key g = key.
Proof.
  unfold namespaced, AuthCache.generateCacheKey.
  destruct (JS.JSON_parse key); [done|]. simpl.
  intros ->. done.
Qed.

Lemma generateCacheKey_fresh key g :
  namespaced Constants key = false ->
  generateCacheKey key g
  = if g then cachePrefix Constants +:+ "." +:+ AuthCache.clientId this +:+ "." +:+ key
    else cachePrefix Constants +:+ "." +:+ key.
Proof.
  unfold namespaced, AuthCache.generateCacheKey.
  destruct (JS.JSON_parse key).
  - rewrite bool_decide_eq_true_2; [done|eauto].
  - simpl. intros ->. done.
Qed.

Lemma namespaced_generateCacheKey key g :
  namespaced Constants (generateCacheKey key g) = true.
Proof.
  destruct (namespaced Constants key) eqn:Hn.
  - by rewrite generateCacheKey_namespaced.
  - rewrite generateCacheKey_fresh by done. unfold namespaced.
    destruct g; rewrite indexOf_app_0; cbn [Z.eqb]; by rewrite orb_true_r.
Qed.

Lemma generateCacheKey_fixed key g g' :
  generateCacheKey (generateCacheKey key g) g' = generateCacheKey key g.
Proof. apply generateCacheKey_namespaced, namespaced_generateCacheKey. Qed.

(** C6: [generateCacheKey] is idempotent, for every key and both
    generations: applied to its own output it returns that output.  In
    particular a key that parses as JSON, or that starts with the namespace
    prefix or with the prefix of the legacy library, comes back unchanged. *)
Theorem generateCacheKey_idempotent :
  (forall key g g', generateCacheKey (generateCacheKey key g) g' = generateCacheKey key g)
  /\ (forall key g, is_Some (JS.JSON_parse key) -> generateCacheKey key g = key)
  /\ (forall key g, JS.indexOf key (cachePrefix Constants) = 0
                    \/ JS.indexOf key (adalIdToken Constants) = 0 ->
                    generateCacheKey key g = key).
Proof.
  split; [|split].
  - intros key g g'. apply generateCacheKey_fixed.
  - intros key g Hj. apply generateCacheKey_namespaced. unfold namespaced.
    by rewrite bool_decide_eq_true_2.
  - intros key g Hp. apply generateCacheKey_namespaced. unfold namespaced.
    destruct Hp as [-> | ->]; cbn [Z.eqb]; by rewrite !orb_true_r.
Qed.

(** The two physical keys of a fresh logical key differ. *)
Lemma generations_differ key :
  namespaced Constants key = false ->
  generateCacheKey key true <> generateCacheKey key false.
Proof.
  intros Hn. rewrite !generateCacheKey_fresh by done. intros Heq.
  apply (f_equal String.length) in Heq.
  rewrite !String_length_app in Heq. simpl in Heq. lia.
Qed.

End Namespacer.

Lemma generateCacheKey_idempotent_witness :
  AuthCache.generateCacheKey Sample.Constants Sample.cache
    (AuthCache.generateCacheKey Sample.Constants Sample.cache "idtoken" true) false
  = "msal.app1.idtoken"
  /\ AuthCache.generateCacheKey Sample.Constants Sample.cache "[1]" true = "[1]"
  /\ AuthCache.generateCacheKey Sample.Constants Sample.cache "msal.idtoken" true
     = "msal.idtoken".
Proof.
  pose proof (generateCacheKey_idempotent Sample.Constants Sample.cache)
    as (Hidem & Hjson & Hprefix).
  split; [|split].
  - rewrite Hidem. reflexivity.
  - apply Hjson. vm_compute. eauto.
  - apply Hprefix. left. reflexivity.
Defined.

(** ** The methods of the cache, seen through a snapshot *)

Lemma String_append_empty (a : string) : a +:+ "" = a.
Proof. induction a as [|x a IH]; simpl; [done|by f_equal]. Qed.

Section Methods.
Context {T : Type} `{ICustomStorage T}.
Variable contents : T -> gmap string string.
Variable host : JS.Host.
Variable Constants : ConstantsT.
Variable TemporaryCacheKeys : TemporaryCacheKeysT.
Variable this : AuthCache.Object.
Variable r : StorageRef.
Hypothesis Hr : honours r contents.
Hypothesis Hloc : refOf (AuthCache.cacheLocation this) = Some r.

Local Abbreviation generateCacheKey := (AuthCache.generateCacheKey Constants this).
Local Abbreviation super := (AuthCache.super host Constants this).

Lemma BrowserStorage_setItemCookie_eq cName cValue expires (w : World T) :
  BrowserStorage.setItemCookie host cName cValue expires w
  = document_cookie_set host (cookieString host (now w) cName cValue expires) w.
Proof.
  unfold BrowserStorage.setItemCookie, cookieString,
    BrowserStorage.getCookieExpirationTime, BrowserStorage.truthy_number,
    mbind, M_bind, mret, M_ret, getWorld.
  destruct expires as [days|]; [destruct (JS.truthy_number days)|]; cbn [default];
    f_equal; rewrite ?String_append_empty, ?String_append_assoc; reflexivity.
Qed.

Lemma getStorage_spec w s (Q : StorageRef -> World T -> Prop) :
  snapshot contents r w = Some s ->
  Q r w ->
  returns (BrowserStorage.getStorage super) w Q.
Proof.
  intros Hs HQ. pose proof Hs as (win & Hwin & _)%(snapshot_inv contents).
  exists r, w. split; [|done].
  unfold BrowserStorage.getStorage. simpl.
  destruct (AuthCache.cacheLocation this) as [[| |[]]|]; simplify_eq/=;
    try done; unfold theWindow, mbind, M_bind; by rewrite Hwin.
Qed.

(** Writing a cookie leaves the stored entries alone. *)
Lemma BrowserStorage_setItemCookie_spec cName cValue expires w s
    (Q : unit -> World T -> Prop) :
  snapshot contents r w = Some s ->
  (forall w', snapshot contents r w'
              = Some (withJar (JS.cookie_assign host (clock s)
                                 (cookieString host (clock s) cName cValue expires)
                                 (jar s)) s) -> Q tt w') ->
  returns (BrowserStorage.setItemCookie host cName cValue expires) w Q.
Proof.
  intros Hs HQ. pose proof Hs as (win & _ & _ & _ & Hnow)%(snapshot_inv contents).
  unfold returns. rewrite BrowserStorage_setItemCookie_eq. fold (returns
    (document_cookie_set host (cookieString host (now w) cName cValue expires)) w Q).
  rewrite Hnow. by eapply document_cookie_set_spec.
Qed.

Lemma setItemCookie_spec cName cValue expires w s (Q : unit -> World T -> Prop) :
  snapshot contents r w = Some s ->
  (forall w', snapshot contents r w'
              = Some (withJar (mirrored host Constants this cName cValue expires s) s) ->
              Q tt w') ->
  returns (AuthCache.setItemCookie host Constants this cName cValue expires) w Q.
Proof.
  intros Hs HQ. unfold AuthCache.setItemCookie, mirrored in *.
  apply returns_bind. eapply BrowserStorage_setItemCookie_spec; [done|].
  intros w1 Hs1. destruct (AuthCache.rollbackEnabled this).
  - eapply BrowserStorage_setItemCookie_spec; [done|]. intros w2 Hs2. by apply HQ.
  - apply returns_ret. by apply HQ.
Qed.

Lemma BrowserStorage_removeItem_spec key w s (Q : unit -> World T -> Prop) :
  snapshot contents r w = Some s ->
  (forall w', snapshot contents r w' = Some (withStored (delete key (stored s)) s) ->
              Q tt w') ->
  returns (BrowserStorage.removeItem super key) w Q.
Proof.
  intros Hs HQ. unfold BrowserStorage.removeItem. apply returns_bind.
  eapply getStorage_spec; [done|]. by eapply storage_removeItem_spec.
Qed.

Lemma removeItem_spec key w s (Q : unit -> World T -> Prop) :
  snapshot contents r w = Some s ->
  (forall w', snapshot contents r w'
              = Some (withStored (removed Constants this key (stored s)) s) ->
              Q tt w') ->
  returns (AuthCache.removeItem host Constants this key) w Q.
Proof.
  intros Hs HQ. unfold AuthCache.removeItem, removed in *. apply returns_bind.
  eapply BrowserStorage_removeItem_spec; [done|]. intros w1 Hs1.
  destruct (AuthCache.rollbackEnabled this).
  - eapply BrowserStorage_removeItem_spec; [done|]. intros w2 Hs2. by apply HQ.
  - apply returns_ret. by apply HQ.
Qed.

Lemma BrowserStorage_setItem_spec key value (enableCookieStorage : bool) w s
    (Q : unit -> World T -> Prop) :
  snapshot contents r w = Some s ->
  (forall w', snapshot contents r w'
              = Some (let s1 := withStored (<[key := value]> (stored s)) s in
                      if enableCookieStorage
                      then withJar (mirrored host Constants this key value None s1) s1
                      else s1) ->
              Q tt w') ->
  returns (BrowserStorage.setItem super key value enableCookieStorage) w Q.
Proof.
  intros Hs HQ. unfold BrowserStorage.setItem. apply returns_bind.
  eapply getStorage_spec; [done|]. apply returns_bind.
  eapply storage_setItem_spec; [done..|]. intros w1 Hs1.
  destruct enableCookieStorage.
  - simpl. eapply setItemCookie_spec; [done|]. intros w2 Hs2. by apply HQ.
  - apply returns_ret. by apply HQ.
Qed.

Lemma setItem_spec key value enableCookieStorage w s (Q : unit -> World T -> Prop) :
  snapshot contents r w = Some s ->
  (forall w', snapshot contents r w'
              = Some (written host Constants this key value enableCookieStorage s) ->
              Q tt w') ->
  returns (AuthCache.setItem host Constants this key value enableCookieStorage) w Q.
Proof.
  intros Hs HQ. unfold AuthCache.setItem, written in *. apply returns_bind.
  eapply BrowserStorage_setItem_spec; [done|]. intros w1 Hs1.
  destruct (AuthCache.rollbackEnabled this).
  - eapply BrowserStorage_setItem_spec; [done|]. intros w2 Hs2. by apply HQ.
  - apply returns_ret. by apply HQ.
Qed.

End Methods.

(** ** Scans that delete *)

Lemma removeAll_lookup c ks m k :
  removeAll c ks m !! k = if c k && bool_decide (k ∈ ks) then None else m !! k.
Proof.
  unfold removeAll. revert m. induction ks as [|x ks IH]; intros m; simpl.
  - by rewrite andb_false_r.
  - rewrite IH. destruct (c k) eqn:Hck; simpl.
    + destruct (decide (k ∈ ks)) as [Hin|Hin].
      * rewrite !bool_decide_eq_true_2; [done| |done]. by right.
      * rewrite (bool_decide_eq_false_2 (k ∈ ks)) by done.
        destruct (decide (k = x)) as [->|Hne].
        -- rewrite bool_decide_eq_true_2 by left. rewrite Hck.
           apply lookup_delete_eq.
        -- rewrite bool_decide_eq_false_2.
           ++ destruct (c x); [by rewrite lookup_delete_ne|done].
           ++ intros [?|?]%elem_of_cons; done.
    + destruct (c x) eqn:Hcx; [|done]. rewrite lookup_delete_ne; [done|].
      intros ->. congruence.
Qed.

(** When the scan enumerates every stored key, it removes exactly the
    selected ones. *)
Lemma removeAll_all c ks (m : gmap string string) k :
  (forall k, k ∈ ks <-> is_Some (m !! k)) ->
  removeAll c ks m !! k = if c k then None else m !! k.
Proof.
  intros Hks. rewrite removeAll_lookup. destruct (c k); [|done]. simpl.
  destruct (decide (k ∈ ks)) as [Hin|Hin].
  - by rewrite bool_decide_eq_true_2.
  - rewrite bool_decide_eq_false_2 by done. 
    apply eq_None_not_Some. by rewrite <- Hks.
Qed.

Lemma withStored_withStored m m' s : withStored m (withStored m' s) = withStored m s.
Proof. done. Qed.

Lemma withStored_stored s : withStored (stored s) s = s.
Proof. by destruct s. Qed.

Section ResetCacheItems.
Context {T : Type} `{ICustomStorage T}.
Variable contents : T -> gmap string string.
Variable host : JS.Host.
Variable Constants : ConstantsT.
Variable this : AuthCache.Object.
Variable r : StorageRef.

Lemma resetCacheItems_loop ks w s m :
  honours r contents ->
  refOf (AuthCache.cacheLocation this) = Some r ->
  snapshot contents r w = Some (withStored m s) ->
  returns
    (for_of ks (fun key =>
       if negb (Z.eqb (JS.indexOf key (cachePrefix Constants)) (-1))
       then BrowserStorage.removeItem (AuthCache.super host Constants this) key
       else mret tt)) w
    (fun _ w' => snapshot contents r w'
                 = Some (withStored (removeAll (containsPrefix Constants) ks m) s)).
Proof.
  intros Hr Hloc. revert w m. induction ks as [|x ks IH]; intros w m Hs.
  - by apply returns_ret.
  - cbn [for_of removeAll foldl]. apply returns_bind.
    fold (containsPrefix Constants x). destruct (containsPrefix Constants x).
    + eapply BrowserStorage_removeItem_spec; [done..|].
      intros w1 Hs1. by apply IH.
    + apply returns_ret. by apply IH.
Qed.

(** C7: [resetCacheItems] removes exactly the entries of the active storage
    whose key contains the namespace prefix as a substring; every other
    entry keeps its value, and the cookies are not touched. *)
Theorem resetCacheItems_removes_prefixed w s :
  honours r contents ->
  refOf (AuthCache.cacheLocation this) = Some r ->
  snapshot contents r w = Some s ->
  exists w' m',
    AuthCache.resetCacheItems host Constants this w = Ok tt w'
    /\ snapshot contents r w' = Some (withStored m' s)
    /\ forall k, m' !! k
                 = if Z.eqb (JS.indexOf k (cachePrefix Constants)) (-1)
                   then stored s !! k else None.
Proof.
  intros Hr Hloc Hs.
  cut (returns (AuthCache.resetCacheItems host Constants this) w
         (fun _ w' => exists m', snapshot contents r w' = Some (withStored m' s)
            /\ forall k, m' !! k
                 = if Z.eqb (JS.indexOf k (cachePrefix Constants)) (-1)
                   then stored s !! k else None)).
  { intros ([] & w' & Hrun & m' & Hs' & Hm'). by exists w', m'. }
  unfold AuthCache.resetCacheItems. apply returns_bind.
  eapply getStorage_spec; [done..|]. apply returns_bind.
  eapply keysOf_spec; [done..|]. intros ks Hks _.
  eapply returns_weaken.
  - apply resetCacheItems_loop; [done..|]. by rewrite withStored_stored.
  - intros u w' Hs'. exists (removeAll (containsPrefix Constants) ks (stored s)).
    split; [exact Hs'|]. intros k.
    rewrite removeAll_all by done. unfold containsPrefix.
    by destruct (Z.eqb (JS.indexOf k (cachePrefix Constants)) (-1)).
Qed.

End ResetCacheItems.

Lemma resetCacheItems_removes_prefixed_witness :
  exists w' m',
    AuthCache.resetCacheItems Sample.host Sample.Constants Sample.cache
      (Sample.browser two_keys) = Ok tt w'
    /\ snapshot (fun m => m) LocalRef w'
       = Some (withStored m' (sample_snapshot two_keys))
    /\ forall k, m' !! k
                 = if Z.eqb (JS.indexOf k "msal") (-1)
                   then stored (sample_snapshot two_keys) !! k else None.
Proof.
  apply (resetCacheItems_removes_prefixed (fun m => m) Sample.host
           Sample.Constants Sample.cache LocalRef (Sample.browser two_keys)
           (sample_snapshot two_keys) I eq_refl eq_refl).
Defined.

(** The scenario of the two keys, run. *)
Example resetCacheItems_two_keys :
  exists w',
    AuthCache.resetCacheItems Sample.host Sample.Constants Sample.cache
      (Sample.browser two_keys) = Ok tt w'
    /\ localEntry "msal.foo" w' = None
    /\ localEntry "unrelated.bar" w' = Some "2".
Proof. eexists. split; [vm_compute; reflexivity|]. by vm_compute. Qed.

(** ** Computations that only read *)

Section ReadOnly.
Context {T : Type} `{ICustomStorage T}.

Lemma readonly_ret {A} (a : A) : readonly (mret a : M T A).
Proof. by intros w. Qed.

Lemma readonly_throw {A} e : readonly (throw e : M T A).
Proof. by intros w. Qed.

Lemma readonly_bind {A B} (m : M T A) (f : A -> M T B) :
  readonly m -> (forall a, readonly (f a)) -> readonly (m ≫= f).
Proof.
  intros Hm Hf w. unfold mbind, M_bind. specialize (Hm w).
  destruct (m w) as [a w1|e w1]; subst; [apply Hf|done].
Qed.

Lemma readonly_getWorld : readonly (getWorld : M T _).
Proof. by intros w. Qed.

Lemma readonly_theWindow : readonly (theWindow : M T _).
Proof. intros w. unfold theWindow. by destruct (window w). Qed.

Lemma readonly_storage_getItem r key : readonly (storage_getItem r key).
Proof.
  assert (Harea : forall r', readonly (withArea r' (fun m _ => mret (m !! key)) : M T _)).
  { intros r'. apply readonly_bind; [apply readonly_theWindow|]. intros win.
    destruct (area r' win); [apply readonly_ret|apply readonly_throw]. }
  destruct r; simpl; try apply Harea.
  apply readonly_bind; [apply readonly_getWorld|]. intros w.
  destruct (cs_getItem key (custom w)); [apply readonly_throw|apply readonly_ret].
Qed.

Lemma readonly_document_cookie : readonly (document_cookie : M T _).
Proof.
  apply readonly_bind; [apply readonly_theWindow|intros; apply readonly_ret].
Qed.

Lemma readonly_getStorage (this : BrowserStorage.Object T) :
  readonly (BrowserStorage.getStorage this).
Proof.
  unfold BrowserStorage.getStorage.
  destruct (BrowserStorage.cacheLocation this) as [[| |[]]|];
    try apply readonly_throw; try apply readonly_ret;
    (apply readonly_bind; [apply readonly_theWindow|intros; apply readonly_ret]).
Qed.

Lemma readonly_getItem host Constants this key :
  readonly (AuthCache.getItem host Constants this key false).
Proof.
  unfold AuthCache.getItem, BrowserStorage.getItem.
  apply readonly_bind; [apply readonly_ret|]. intros [|].
  - apply readonly_bind; [|intros; apply readonly_ret].
    simpl. unfold AuthCache.getItemCookie, BrowserStorage.getItemCookie.
    apply readonly_bind; [|intros; apply readonly_ret].
    unfold document_cookie.
    apply readonly_bind; [apply readonly_theWindow|intros; apply readonly_ret].
  - apply readonly_bind; [apply readonly_getStorage|].
    intros r. apply readonly_storage_getItem.
Qed.

(** An [async] call of a read-only body hands back a promise and nothing
    else happens. *)
Lemma async_readonly {A} (m : M T A) w :
  readonly m -> exists p, async m w = Ok p w.
Proof.
  intros Hm. specialize (Hm w). unfold async.
  destruct (m w) as [a w1|e w1]; subst; eauto.
Qed.

End ReadOnly.

(** ** resetTempCacheItems *)

Section ResetTempCacheItems.
Context {T : Type} `{ICustomStorage T}.
Variable contents : T -> gmap string string.
Variable host : JS.Host.
Variable Constants : ConstantsT.
Variable TemporaryCacheKeys : TemporaryCacheKeysT.
Variable this : AuthCache.Object.
Variable r : StorageRef.

Local Abbreviation generateCacheKey := (AuthCache.generateCacheKey Constants this).
Local Abbreviation tokenRenewalInProgress :=
  (AuthCache.tokenRenewalInProgress host Constants TemporaryCacheKeys this).
Local Abbreviation resetTempCacheItems :=
  (AuthCache.resetTempCacheItems host Constants TemporaryCacheKeys this).

Lemma tokenRenewalInProgress_promise state (w : World T) :
  exists p, tokenRenewalInProgress state w = Ok p w.
Proof.
  apply async_readonly. apply readonly_bind; [apply readonly_getItem|].
  intros; apply readonly_ret.
Qed.

Lemma tokenRenewalInProgress_settles state w s :
  honours r contents ->
  refOf (AuthCache.cacheLocation this) = Some r ->
  snapshot contents r w = Some s ->
  tokenRenewalInProgress state w
  = Ok (JS.Fulfilled (renewalInProgress Constants TemporaryCacheKeys this state
                        (stored s))) w.
Proof.
  intros Hr Hloc Hs.
  assert (Hget : returns
            (AuthCache.getItem host Constants this
               (RENEW_STATUS TemporaryCacheKeys +:+ "|" +:+ state) false) w
            (fun a w' => a = stored s
                 !! generateCacheKey (RENEW_STATUS TemporaryCacheKeys +:+ "|" +:+ state)
                      true /\ w' = w)).
  { unfold AuthCache.getItem, BrowserStorage.getItem. apply returns_bind.
    apply returns_ret. apply returns_bind. eapply getStorage_spec; [done..|].
    by eapply storage_getItem_spec. }
  destruct Hget as (a & w' & Hrun & -> & ->).
  unfold AuthCache.tokenRenewalInProgress, async, mbind, M_bind.
  by rewrite Hrun.
Qed.

(** The loop of [resetTempCacheItems] removes nothing: the condition
    negates a promise, which is truthy, so the body is never entered. *)
Lemma resetTempCacheItems_loop state ks (w : World T) :
  for_of ks (fun key =>
      go ← (if (negb (JS.truthy state)
                || negb (Z.eqb (JS.indexOf key state) (-1)))%bool
            then p ← tokenRenewalInProgress state;
                 mret (negb (JS.truthy_object p))
            else mret false);
      if (go : bool) then
        _ ← AuthCache.removeItem host Constants this key;
        _ ← AuthCache.setItemCookie host Constants this key "" (Some (JS.integer (-1)));
        AuthCache.clearMsalCookie host Constants TemporaryCacheKeys this state
      else mret tt) w
  = Ok tt w.
Proof.
  induction ks as [|key ks IH]; [done|].
  cbn [for_of]. unfold mbind at 1, M_bind at 1.
  match goal with |- match ?body with _ => _ end = _ =>
    assert (Hbody : body = Ok tt w) end.
  { unfold mbind, M_bind.
    destruct (negb (JS.truthy state) || negb (Z.eqb (JS.indexOf key state) (-1)))%bool;
      [|done].
    destruct (tokenRenewalInProgress_promise state w) as [p ->]. done. }
  by rewrite Hbody.
Qed.

(** The whole effect of the call, whatever the state argument and whatever
    the renewal flag: the two global transient entries are removed. *)
Lemma resetTempCacheItems_effect state w s :
  honours r contents ->
  refOf (AuthCache.cacheLocation this) = Some r ->
  snapshot contents r w = Some s ->
  exists w',
    resetTempCacheItems state w = Ok tt w'
    /\ snapshot contents r w'
       = Some (withStored
                 (removed Constants this (REDIRECT_REQUEST TemporaryCacheKeys)
                    (removed Constants this (INTERACTION_STATUS TemporaryCacheKeys)
                       (stored s))) s).
Proof.
  intros Hr Hloc Hs. apply returns_unit_elim.
  unfold AuthCache.resetTempCacheItems. apply returns_bind.
  eapply getStorage_spec; [done..|]. apply returns_bind.
  eapply keysOf_spec; [done..|]. intros ks _ _. apply returns_bind.
  exists tt, w. split; [apply resetTempCacheItems_loop|].
  apply returns_bind. eapply removeItem_spec; [done..|]. intros w1 Hs1.
  eapply removeItem_spec; [done..|]. intros w2 Hs2. exact Hs2.
Qed.

End ResetTempCacheItems.

(** ** What resetTempCacheItems keeps *)

Section ResetTempCacheItemsFrame.
Context {T : Type} `{ICustomStorage T}.
Variable contents : T -> gmap string string.
Variable host : JS.Host.
Variable Constants : ConstantsT.
Variable TemporaryCacheKeys : TemporaryCacheKeysT.
Variable this : AuthCache.Object.
Variable r : StorageRef.

Lemma removed_lookup_ne key (m : gmap string string) k :
  k <> AuthCache.generateCacheKey Constants this key true ->
  k <> AuthCache.generateCacheKey Constants this key false ->
  removed Constants this key m !! k = m !! k.
Proof.
  intros H1 H2. unfold removed. destruct (AuthCache.rollbackEnabled this).
  - by rewrite !lookup_delete_ne.
  - by rewrite lookup_delete_ne.
Qed.

(** C1: while the renewal-status entry of a state [S] holds the
    in-progress sentinel, no call of [resetTempCacheItems], whatever state
    it is given, deletes an entry associated with [S]: the call returns,
    and every entry whose key contains [S], the interactionStatus and
    redirectRequest entries that every call removes apart, is there
    afterwards with its value; when [S] occurs in none of the keys of those
    two, every entry whose key contains [S] is. *)
Theorem resetTempCacheItems_protects_in_progress S state w s :
  honours r contents ->
  refOf (AuthCache.cacheLocation this) = Some r ->
  snapshot contents r w = Some s ->
  AuthCache.tokenRenewalInProgress host Constants TemporaryCacheKeys this S w
  = Ok (JS.Fulfilled true) w ->
  exists w' m',
    AuthCache.resetTempCacheItems host Constants TemporaryCacheKeys this state w
    = Ok tt w'
    /\ snapshot contents r w' = Some (withStored m' s)
    /\ (forall k, contains k S = true ->
                  k ∉ globalKeys Constants TemporaryCacheKeys this ->
                  m' !! k = stored s !! k)
    /\ ((forall g, g ∈ globalKeys Constants TemporaryCacheKeys this ->
                   contains g S = false) ->
        forall k, contains k S = true -> m' !! k = stored s !! k).
Proof.
  intros Hr Hloc Hs _.
  destruct (resetTempCacheItems_effect contents host Constants TemporaryCacheKeys
              this r state w s Hr Hloc Hs) as (w' & Hrun & Hs').
  eexists w', _. split; [done|]. split; [done|].
  assert (Hkeep : forall k, k ∉ globalKeys Constants TemporaryCacheKeys this ->
            removed Constants this (REDIRECT_REQUEST TemporaryCacheKeys)
              (removed Constants this (INTERACTION_STATUS TemporaryCacheKeys)
                 (stored s)) !! k = stored s !! k).
  { intros k Hk. unfold globalKeys in Hk.
    rewrite !removed_lookup_ne; [done|..]; intros ->; apply Hk; set_solver. }
  split.
  - intros k _ Hk. by apply Hkeep.
  - intros Hglobal k Hcontains. apply Hkeep. intros Hk.
    apply Hglobal in Hk. congruence.
Qed.

End ResetTempCacheItemsFrame.

Lemma resetTempCacheItems_protects_in_progress_witness :
  exists w' m',
    AuthCache.resetTempCacheItems Sample.host Sample.Constants
      Sample.TemporaryCacheKeys Sample.cache "stateA" world_renewing_stateA
    = Ok tt w'
    /\ snapshot (fun m => m) LocalRef w'
       = Some (withStored m' (sample_snapshot renewing_stateA))
    /\ m' !! "msal.app1.nonce.idtoken|stateA" = Some "n"
    /\ m' !! "msal.app1.token.renew.status|stateA" = Some "in progress".
Proof.
  assert (Hflag : AuthCache.tokenRenewalInProgress Sample.host Sample.Constants
                    Sample.TemporaryCacheKeys Sample.cache "stateA"
                    world_renewing_stateA
                  = Ok (JS.Fulfilled true) world_renewing_stateA).
  { vm_compute. reflexivity. }
  destruct (resetTempCacheItems_protects_in_progress (fun m => m) Sample.host
              Sample.Constants Sample.TemporaryCacheKeys Sample.cache LocalRef
              "stateA" "stateA" world_renewing_stateA
              (sample_snapshot renewing_stateA) I eq_refl eq_refl Hflag)
    as (w' & m' & Hrun & Hs' & _ & Hkeep).
  exists w', m'. split; [exact Hrun|]. split; [exact Hs'|].
  assert (Hglobal : forall g,
            g ∈ globalKeys Sample.Constants Sample.TemporaryCacheKeys Sample.cache ->
            contains g "stateA" = false).
  { intros g Hg. unfold globalKeys in Hg.
    rewrite !elem_of_cons, elem_of_nil in Hg.
    destruct Hg as [->|[->|[->|[->|[]]]]]; vm_compute; reflexivity. }
  assert (H1 : contains "msal.app1.nonce.idtoken|stateA" "stateA" = true)
    by (vm_compute; reflexivity).
  assert (H2 : contains "msal.app1.token.renew.status|stateA" "stateA" = true)
    by (vm_compute; reflexivity).
  split.
  - etrans; [exact (Hkeep Hglobal _ H1)|]. reflexivity.
  - etrans; [exact (Hkeep Hglobal _ H2)|]. reflexivity.
Defined.

(** C2, the code at the failing input: no renewal is in progress for the
    state, the key of the entry contains the state, and the entry is still
    there after the call. *)
Lemma resetTempCacheItems_keeps_tagged_entry :
  JS.indexOf "msal.app1.nonce.idtoken|stateA" "stateA" <> -1
  /\ AuthCache.tokenRenewalInProgress Sample.host Sample.Constants
       Sample.TemporaryCacheKeys Sample.cache "stateA" world_stateA
     = Ok (JS.Fulfilled false) world_stateA
  /\ exists w',
       AuthCache.resetTempCacheItems Sample.host Sample.Constants
         Sample.TemporaryCacheKeys Sample.cache "stateA" world_stateA
       = Ok tt w'
       /\ localEntry "msal.app1.nonce.idtoken|stateA" w' = Some "n".
Proof.
  split; [by vm_compute|]. split; [by vm_compute|].
  eexists. split; [vm_compute; reflexivity|]. by vm_compute.
Qed.

(** ** Writes and removals in migration mode *)

Section Migration.
Context {T : Type} `{ICustomStorage T}.
Variable contents : T -> gmap string string.
Variable host : JS.Host.
Variable Constants : ConstantsT.
Variable this : AuthCache.Object.
Variable r : StorageRef.

Local Abbreviation generateCacheKey := (AuthCache.generateCacheKey Constants this).

Lemma stored_written key value enableCookieStorage s :
  AuthCache.rollbackEnabled this = true ->
  stored (written host Constants this key value enableCookieStorage s)
  = <[generateCacheKey key false := value]>
      (<[generateCacheKey key true := value]> (stored s)).
Proof. intros Hrb. unfold written. rewrite Hrb. by destruct enableCookieStorage. Qed.

(** C4, as amended: in migration mode, [setItem] of a logical key that is
    neither a JSON text nor already prefixed writes exactly two entries, the
    current-schema key and the legacy-schema key, both holding the value;
    for a key that is a JSON text or already starts with the namespace
    prefix or the legacy-library prefix the two coincide with the key
    itself and one entry is written; [removeItem] deletes the same keys. *)
Theorem setItem_migration_entries key value enableCookieStorage w s :
  honours r contents ->
  refOf (AuthCache.cacheLocation this) = Some r ->
  AuthCache.rollbackEnabled this = true ->
  snapshot contents r w = Some s ->
  (namespaced Constants key = false ->
     generateCacheKey key true
     = cachePrefix Constants +:+ "." +:+ AuthCache.clientId this +:+ "." +:+ key
     /\ generateCacheKey key false = cachePrefix Constants +:+ "." +:+ key
     /\ generateCacheKey key true <> generateCacheKey key false)
  /\ (namespaced Constants key = true ->
        generateCacheKey key true = key /\ generateCacheKey key false = key)
  /\ exists w' s',
       AuthCache.setItem host Constants this key value enableCookieStorage w
       = Ok tt w'
       /\ snapshot contents r w' = Some s'
       /\ stored s' = <[generateCacheKey key false := value]>
                        (<[generateCacheKey key true := value]> (stored s))
       /\ exists w'' s'',
            AuthCache.removeItem host Constants this key w' = Ok tt w''
            /\ snapshot contents r w'' = Some s''
            /\ stored s'' = delete (generateCacheKey key false)
                              (delete (generateCacheKey key true) (stored s')).
Proof.
  intros Hr Hloc Hrb Hs. split; [|split].
  - intros Hn. split; [by rewrite generateCacheKey_fresh|].
    split; [by rewrite generateCacheKey_fresh|]. by apply generations_differ.
  - intros Hn. by rewrite !generateCacheKey_namespaced.
  - cut (returns (AuthCache.setItem host Constants this key value enableCookieStorage) w
           (fun _ w' => exists s', snapshot contents r w' = Some s'
              /\ stored s' = <[generateCacheKey key false := value]>
                               (<[generateCacheKey key true := value]> (stored s))
              /\ exists w'' s'',
                   AuthCache.removeItem host Constants this key w' = Ok tt w''
                   /\ snapshot contents r w'' = Some s''
                   /\ stored s'' = delete (generateCacheKey key false)
                                     (delete (generateCacheKey key true) (stored s')))).
    { intros ([] & w' & Hrun & s' & Hs' & Hrest). by exists w', s'. }
    eapply setItem_spec; [done..|]. intros w' Hs'.
    eexists. split; [done|]. split; [by apply stored_written|].
    cut (returns (AuthCache.removeItem host Constants this key) w'
           (fun _ w'' => snapshot contents r w''
              = Some (withStored
                        (removed Constants this key
                           (stored (written host Constants this key value
                                      enableCookieStorage s)))
                        (written host Constants this key value
                           enableCookieStorage s)))).
    { intros ([] & w'' & Hrun & Hs''). eexists w'', _. split; [done|].
      split; [done|]. unfold removed. by rewrite Hrb. }
    by eapply removeItem_spec.
Qed.

End Migration.

(** C4, counterexample to the unamended statement: the logical key
    [msal.idtoken] is not a JSON text, and in migration mode [setItem]
    writes one entry for it, under the key itself; there is neither a
    current-schema nor a legacy-schema entry. *)
Lemma setItem_prefixed_key_single_entry :
  JS.JSON_parse "msal.idtoken" = None
  /\ AuthCache.rollbackEnabled Sample.cache = true
  /\ exists w',
       AuthCache.setItem Sample.host Sample.Constants Sample.cache
         "msal.idtoken" "v" false (Sample.browser ∅)
       = Ok tt w'
       /\ (win ← window w'; JS.localStorage win) = Some {["msal.idtoken" := "v"]}
       /\ localEntry "msal.app1.msal.idtoken" w' = None
       /\ localEntry "msal.msal.idtoken" w' = None.
Proof.
  split; [by vm_compute|]. split; [done|].
  eexists. split; [vm_compute; reflexivity|]. by vm_compute.
Qed.

Lemma setItem_migration_entries_witness :
  namespaced Sample.Constants "idtoken" = false
  /\ exists w' s',
       AuthCache.setItem Sample.host Sample.Constants Sample.cache
         "idtoken" "v" false (Sample.browser ∅)
       = Ok tt w'
       /\ snapshot (fun m => m) LocalRef w' = Some s'
       /\ stored s' = <["msal.idtoken" := "v"]> (<["msal.app1.idtoken" := "v"]> ∅)
       /\ exists w'' s'',
            AuthCache.removeItem Sample.host Sample.Constants Sample.cache
              "idtoken" w' = Ok tt w''
            /\ snapshot (fun m => m) LocalRef w'' = Some s''
            /\ stored s'' = delete "msal.idtoken"
                              (delete "msal.app1.idtoken" (stored s')).
Proof.
  split; [by vm_compute|].
  apply (setItem_migration_entries (fun m => m) Sample.host Sample.Constants
           Sample.cache LocalRef "idtoken" "v" false (Sample.browser ∅)
           {| stored := ∅; jar := []; clock := 0 |} I eq_refl eq_refl eq_refl).
Defined.

(** ** Construction *)

Section Construction.
Context {T : Type} `{ICustomStorage T}.

(** The constructor of [BrowserStorage] tests the field [cacheLocation]
    before it is assigned, so the test for a supported storage is skipped:
    in a browser it returns for every argument. *)
Lemma BrowserStorage_constructor_eq (loc : CacheLocation) (w : World T) :
  BrowserStorage.constructor loc w
  = match window w with
    | Some _ => Ok (Some loc) w
    | None => Throw JS.ReferenceError w
    end.
Proof.
  unfold BrowserStorage.constructor, theWindow, mbind, M_bind. simpl.
  by destruct (window w).
Qed.

(** The constructor of the earlier [Storage] assigns the field first: with
    no instance yet, a storage name whose area is missing is refused. *)
Lemma Storage_constructor_refuses (loc : CacheLocation) (w : World T) win :
  Storage_instance w = None ->
  window w = Some win ->
  Storage.isString loc = true ->
  Storage.stringStorageSupported loc win = false ->
  Storage.constructor loc w = Throw JS.NoStorageSupportedError w.
Proof.
  intros Hi Hw Hstr Hsup.
  unfold Storage.constructor, getWorld, theWindow, mbind, M_bind. simpl.
  by rewrite Hi, Hstr, Hw, Hsup.
Qed.

End Construction.

(** C3, the code at the failing input: the browser has no session storage,
    and constructing the storage object for [sessionStorage] succeeds; the
    earlier [Storage] class refuses the same argument in the same browser. *)
Lemma BrowserStorage_constructor_accepts_missing_area :
  (win ← window (Sample.browser ∅); Some (JS.sessionStorage win)) = Some None
  /\ BrowserStorage.constructor SessionStorageName (Sample.browser ∅)
     = Ok (Some SessionStorageName) (Sample.browser ∅)
  /\ Storage.constructor SessionStorageName (Sample.browser ∅)
     = Throw JS.NoStorageSupportedError (Sample.browser ∅).
Proof. split; [done|]. split; by vm_compute. Qed.

(** ** The expires attribute *)

Lemma truthy_number_false (days : JS.Number) :
  JS.truthy_number days = false
  <-> days = JS.NaN \/ exists q, days = JS.Finite q /\ Qnum q = 0.
Proof.
  destruct days as [q| |negative]; simpl.
  - rewrite negb_false_iff. unfold Qeq_bool, inject_Z. cbn [Qnum Qden].
    rewrite Z.mul_1_r, Z.mul_0_l, Z.eqb_eq. split.
    + intros Hq. right. by exists q.
    + intros [?|(q' & [= <-] & Hq)]; done.
  - split; [by left|done].
  - split; [done|]. intros [?|(q & ? & _)]; done.
Qed.

Lemma truthy_number_integer z : JS.truthy_number (JS.integer z) = negb (Z.eqb z 0).
Proof.
  unfold JS.truthy_number, JS.integer, Qeq_bool, inject_Z. cbn [Qnum Qden].
  by rewrite Z.mul_1_r.
Qed.

Lemma utcStringAfter_integer host now z :
  JS.utcStringAfter host now (JS.integer z)
  = JS.toUTCString host (now + z * 24 * 60 * 60 * 1000).
Proof.
  unfold JS.utcStringAfter, JS.integer, JS.integral, inject_Z. cbn [Qnum Qden].
  by rewrite Z.mod_1_r, Z.div_1_r.
Qed.

Section Expires.
Context {T : Type} `{ICustomStorage T}.
Variable host : JS.Host.

(** C10, as amended: [setItemCookie] assigns to [document.cookie] the text
    [name=value;path=/;], followed by an expires attribute exactly when the
    argument is truthy; in a browser the call returns, and the cookies are
    then what that assignment makes of them.  The attribute is left out
    when the argument is absent, is the zero or is [NaN], and in no other
    case: every other number, negative, fractional or infinite, carries the
    attribute, with the date that many days from now; for an integral
    number of days that is the date at [now + days * 24 * 60 * 60 * 1000],
    and [clearItemCookie] passes [-1]. *)
Theorem setItemCookie_expires_attribute cName cValue :
  (forall expires (w : World T),
     BrowserStorage.setItemCookie host cName cValue expires w
     = document_cookie_set host
         (cookieString host (now w) cName cValue expires) w)
  /\ (forall expires (w : World T) win,
        window w = Some win ->
        BrowserStorage.setItemCookie host cName cValue expires w
        = Ok tt {| window :=
                     Some {| JS.localStorage := JS.localStorage win;
                             JS.sessionStorage := JS.sessionStorage win;
                             JS.cookies :=
                               JS.cookie_assign host (now w)
                                 (cookieString host (now w) cName cValue expires)
                                 (JS.cookies win) |};
                   custom := custom w;
                   now := now w;
                   Storage_instance := Storage_instance w |})
  /\ (forall now expires,
        cookieString host now cName cValue expires
        = cName +:+ "=" +:+ cValue +:+ ";path=/;"
        <-> expires = None \/ expires = Some JS.NaN
            \/ exists q, expires = Some (JS.Finite q) /\ Qnum q = 0)
  /\ (forall now days,
        JS.truthy_number days = true ->
        cookieString host now cName cValue (Some days)
        = cName +:+ "=" +:+ cValue +:+ ";path=/;" +:+ "expires="
          +:+ JS.utcStringAfter host now days +:+ ";")
  /\ (forall now z,
        z <> 0 ->
        cookieString host now cName cValue (Some (JS.integer z))
        = cName +:+ "=" +:+ cValue +:+ ";path=/;" +:+ "expires="
          +:+ JS.toUTCString host (now + z * 24 * 60 * 60 * 1000) +:+ ";")
  /\ (forall this : BrowserStorage.Object T,
        BrowserStorage.clearItemCookie this cName
        = BrowserStorage.this_setItemCookie this cName "" (Some (JS.integer (-1)))).
Proof.
  split; [|split; [|split; [|split; [|split]]]].
  - intros expires w. apply (BrowserStorage_setItemCookie_eq host).
  - intros expires w win Hwin. rewrite (BrowserStorage_setItemCookie_eq host).
    unfold document_cookie_set, theWindow, getWorld, putWindow, mbind, M_bind.
    by rewrite Hwin.
  - intros now expires. unfold cookieString. split.
    + destruct expires as [days|]; [|by left].
      destruct (JS.truthy_number days) eqn:Hdays.
      * intros Heq. exfalso.
        do 3 apply (inj (String.append _)) in Heq. discriminate Heq.
      * intros _. apply truthy_number_false in Hdays as [->|(q & -> & Hq)].
        -- right. by left.
        -- right. right. by exists q.
    + intros [->|[->|(q & -> & Hq)]]; [by rewrite String_append_empty..|].
      assert (Hfalse : JS.truthy_number (JS.Finite q) = false).
      { apply truthy_number_false. right. by exists q. }
      by rewrite Hfalse, ?String_append_empty.
  - intros now days Hdays. unfold cookieString. by rewrite Hdays.
  - intros now z Hz. unfold cookieString.
    rewrite truthy_number_integer, utcStringAfter_integer.
    by destruct (Z.eqb_spec z 0).
  - done.
Qed.

End Expires.

(** C10, counterexample to the unamended statement: the argument [NaN] is
    present and is not the zero, and the text written to [document.cookie]
    carries no expires attribute; the cookie stored is a session cookie. *)
Lemma setItemCookie_NaN_omits_expires :
  cookieString Sample.host 0 "x" "y" (Some JS.NaN) = "x=y;path=/;"
  /\ BrowserStorage.setItemCookie Sample.host "x" "y" (Some JS.NaN)
       (Sample.browser ∅)
     = document_cookie_set Sample.host "x=y;path=/;" (Sample.browser ∅)
  /\ BrowserStorage.setItemCookie Sample.host "x" "y" (Some JS.NaN)
       (Sample.browser ∅)
     = BrowserStorage.setItemCookie Sample.host "x" "y" None (Sample.browser ∅).
Proof. split; [done|]. split; by vm_compute. Qed.

Lemma setItemCookie_expires_attribute_witness :
  cookieString Sample.host 0 "x" "" (Some (JS.integer (-1)))
  = "x=;path=/;expires=Wed, 31 Dec 1969 00:00:00 GMT;".
Proof.
  pose proof (setItemCookie_expires_attribute (T := gmap string string)
                Sample.host "x" "") as (_ & _ & _ & _ & Hdays & _).
  rewrite (Hdays 0 (-1)); [reflexivity|lia].
Defined.

(** ** removeAcquireTokenEntries of the earlier class *)

Section RemoveAcquireTokenEntries.
Context {T : Type} `{ICustomStorage T}.
Variable host : JS.Host.
Variable Constants : Storage.ConstantsT.
Variable CacheKeys : Storage.CacheKeysT.
Variable this : Storage.Object.

Lemma readonly_Storage_getStorage : readonly (Storage.getStorage this : M T _).
Proof.
  unfold Storage.getStorage.
  destruct (Storage.cacheLocation this) as [| |[]];
    try apply readonly_throw; try apply readonly_ret;
    (apply readonly_bind; [apply readonly_theWindow|intros; apply readonly_ret]).
Qed.

Lemma Storage_tokenRenewalInProgress_promise stateValue (w : World T) :
  exists p, Storage.tokenRenewalInProgress Constants this stateValue w = Ok p w.
Proof.
  apply async_readonly. apply readonly_bind; [apply readonly_Storage_getStorage|].
  intros r. apply readonly_bind; [apply readonly_storage_getItem|].
  intros; apply readonly_ret.
Qed.

(** No turn of the loop does anything: where the condition reaches the
    renewal check it negates a promise. *)
Lemma removeAcquireTokenEntries_step_noop state key (w : World T) :
  Storage.removeAcquireTokenEntries_step host Constants CacheKeys this state key w
  = Ok tt w.
Proof.
  unfold Storage.removeAcquireTokenEntries_step.
  match goal with |- (if ?c then _ else _) w = _ => destruct c end; [|done].
  cbv zeta. unfold mbind at 1, M_bind at 1.
  match goal with |- match ?body with _ => _ end = _ =>
    assert (Hbody : body = Ok false w) end.
  { match goal with |- (if ?c then _ else _) w = _ => destruct c end; [|done].
    unfold mbind, M_bind.
    match goal with |- match Storage.tokenRenewalInProgress _ _ ?st w with _ => _ end = _ =>
      destruct (Storage_tokenRenewalInProgress_promise st w) as [p ->] end.
    done. }
  by rewrite Hbody.
Qed.

Lemma removeAcquireTokenEntries_loop_noop state ks (w : World T) :
  for_of ks (Storage.removeAcquireTokenEntries_step host Constants CacheKeys this state) w
  = Ok tt w.
Proof.
  induction ks as [|key ks IH]; [done|].
  cbn [for_of]. unfold mbind, M_bind.
  by rewrite removeAcquireTokenEntries_step_noop.
Qed.

(** The call amounts to enumerating the keys and clearing the four
    cookies: no entry of the storage is removed. *)
Lemma removeAcquireTokenEntries_eq state (w : World T) :
  Storage.removeAcquireTokenEntries host Constants CacheKeys this state w
  = (storage ← Storage.getStorage this;
     _ ← keysOf storage;
     Storage.clearCookie host Constants) w.
Proof.
  unfold Storage.removeAcquireTokenEntries, mbind, M_bind.
  destruct (Storage.getStorage this w) as [storage w1|]; [|done].
  destruct (keysOf storage w1) as [ks w2|]; [|done].
  by rewrite removeAcquireTokenEntries_loop_noop.
Qed.

End RemoveAcquireTokenEntries.

(** C9, the code at the failing input: the key is tagged as an authority
    entry and contains the state, the state taken from the key is [s1], no
    renewal is in progress for it, and the entry is still there after the
    call. *)
Lemma removeAcquireTokenEntries_keeps_authority_entry :
  JS.indexOf "msal.authority|s1" "msal.authority" <> -1
  /\ JS.indexOf "msal.authority|s1" "s1" <> -1
  /\ JS.split "msal.authority|s1" "|" !! 1%nat = Some "s1"
  /\ Storage.tokenRenewalInProgress Sample.StorageConstants
       {| Storage.cacheLocation := LocalStorageName |} "s1" world_authority
     = Ok (JS.Fulfilled false) world_authority
  /\ exists w',
       Storage.removeAcquireTokenEntries Sample.host Sample.StorageConstants
         Sample.CacheKeys {| Storage.cacheLocation := LocalStorageName |}
         (Some "s1") world_authority
       = Ok tt w'
       /\ localEntry "msal.authority|s1" w' = Some "https://login.example/".
Proof.
  split; [by vm_compute|]. split; [by vm_compute|]. split; [by vm_compute|].
  split; [by vm_compute|].
  eexists. split; [vm_compute; reflexivity|]. by vm_compute.
Qed.

(** ** getAllAccessTokens *)

Lemma literal_matchesAt p s :
  JS.literalPattern p = true -> JS.matchesAt p s = String.prefix p s.
Proof.
  revert s. induction p as [|c p IH]; intros s Hlit.
  - by destruct s.
  - unfold JS.literalPattern in Hlit. simpl in Hlit.
    apply andb_prop in Hlit as [Hc Hp]. destruct s as [|d s]; [done|].
    simpl. rewrite (IH s Hp).
    assert (Hdot : Ascii.eqb c "." = false).
    { destruct (Ascii.eqb_spec c "."%char) as [->|]; [|done]. by vm_compute in Hc. }
    rewrite Hdot. destruct (Ascii.eqb_spec c d) as [->|Hne].
    + by destruct (ascii_dec d d).
    + by destruct (ascii_dec c d).
Qed.

Lemma literal_search p s i :
  JS.literalPattern p = true ->
  0 <= i ->
  JS.search p s = negb (Z.eqb (JS.indexOf_from i s p) (-1)).
Proof.
  intros Hlit. revert i. induction s as [|c s IH]; intros i Hi.
  - cbn [JS.search JS.indexOf_from]. rewrite literal_matchesAt by done.
    destruct (String.prefix p "").
    + simpl. destruct (Z.eqb_spec i (-1)); [lia|done].
    + done.
  - cbn [JS.search JS.indexOf_from]. rewrite literal_matchesAt by done.
    destruct (String.prefix p (String c s)).
    + simpl. destruct (Z.eqb_spec i (-1)); [lia|done].
    + simpl. apply IH. lia.
Qed.

Lemma literal_dotPattern p : JS.literalPattern p = true -> JS.dotPattern p = true.
Proof.
  unfold JS.literalPattern, JS.dotPattern.
  induction (list_ascii_of_string p) as [|c l IH]; [done|]. simpl.
  intros [Hc Hl]%andb_prop. by rewrite Hc, IH.
Qed.

(** A pattern without syntax characters matches exactly the keys that
    contain it. *)
Lemma literal_String_match host key p :
  JS.literalPattern p = true ->
  JS.String_match host key p = inr (contains key p).
Proof.
  intros Hlit. unfold JS.String_match, contains, JS.indexOf.
  rewrite literal_dotPattern by done. f_equal. by apply literal_search.
Qed.

Section GetAllAccessTokens.
Context {T : Type} `{ICustomStorage T}.
Variable contents : T -> gmap string string.
Variable host : JS.Host.
Variable Constants : ConstantsT.
Variable this : AuthCache.Object.
Variable r : StorageRef.
Hypothesis Hr : honours r contents.
Hypothesis Hloc : refOf (AuthCache.cacheLocation this) = Some r.

Lemma getItem_spec key w s :
  snapshot contents r w = Some s ->
  AuthCache.getItem host Constants this key false w
  = Ok (stored s !! AuthCache.generateCacheKey Constants this key true) w.
Proof.
  intros Hs.
  assert (Hget : returns (AuthCache.getItem host Constants this key false) w
            (fun a w' => a = stored s !! AuthCache.generateCacheKey Constants this key true
                         /\ w' = w)).
  { unfold AuthCache.getItem, BrowserStorage.getItem. apply returns_bind.
    apply returns_ret. apply returns_bind. eapply getStorage_spec; [done..|].
    by eapply storage_getItem_spec. }
  by destruct Hget as (a & w' & Hrun & -> & ->).
Qed.

Lemma key_match_valid key p (w : World T) :
  validPattern host p ->
  AuthCache.key_match host key p w = Ok (matches host key p) w.
Proof.
  intros Hp. unfold AuthCache.key_match, matches.
  by destruct (Hp key) as [b ->].
Qed.

Lemma getAllAccessTokens_step_spec clientId homeAccountIdentifier results key w s :
  validPattern host clientId ->
  validPattern host homeAccountIdentifier ->
  snapshot contents r w = Some s ->
  AuthCache.getAllAccessTokens_step host Constants this clientId
    homeAccountIdentifier results key w
  = Ok (results ++ (if selected host clientId homeAccountIdentifier key
                    then option_list (decodeEntry (stored s) key) else []))%list w.
Proof.
  intros Hc Hh Hs. unfold AuthCache.getAllAccessTokens_step, selected.
  unfold mbind at 1, M_bind at 1. rewrite key_match_valid by done.
  destruct (matches host key clientId); simpl.
  - unfold mbind at 1, M_bind at 1. rewrite key_match_valid by done.
    destruct (matches host key homeAccountIdentifier); simpl.
    + unfold mbind, M_bind. rewrite (getItem_spec _ _ s) by done.
      unfold decodeEntry. destruct (JS.JSON_parse key) as [parseAtKey|] eqn:Hk; simpl.
      * rewrite generateCacheKey_namespaced.
        -- destruct (JS.JSON_parse_nullable (stored s !! key)); simpl;
             [done|by rewrite app_nil_r].
        -- unfold namespaced. rewrite Hk. rewrite bool_decide_eq_true_2; eauto.
      * by rewrite app_nil_r.
    + by rewrite app_nil_r.
  - unfold mbind, M_bind, mret, M_ret. by rewrite app_nil_r.
Qed.

Lemma getAllAccessTokens_loop_spec clientId homeAccountIdentifier ks results w s :
  validPattern host clientId ->
  validPattern host homeAccountIdentifier ->
  snapshot contents r w = Some s ->
  AuthCache.getAllAccessTokens_loop host Constants this clientId
    homeAccountIdentifier results ks w
  = Ok (results
        ++ omap (decodeEntry (stored s))
             (filter (fun key => selected host clientId homeAccountIdentifier key = true)
                ks))%list w.
Proof.
  intros Hc Hh Hs. revert results. induction ks as [|key ks IH]; intros results.
  - simpl. by rewrite app_nil_r.
  - cbn [AuthCache.getAllAccessTokens_loop]. unfold mbind, M_bind.
    rewrite (getAllAccessTokens_step_spec _ _ _ _ _ s) by done. rewrite IH.
    rewrite filter_cons.
    destruct (selected host clientId homeAccountIdentifier key) eqn:Hsel.
    + rewrite decide_True by done. simpl.
      destruct (decodeEntry (stored s) key); simpl.
      * by rewrite <- app_assoc.
      * by rewrite app_nil_r.
    + rewrite decide_False by done. by rewrite app_nil_r.
Qed.

(** The scan of [AuthCache]: the items decoded from the selected entries, in
    enumeration order; an entry that does not decode is left out. *)
Lemma AuthCache_getAllAccessTokens_spec clientId homeAccountIdentifier ks w s :
  validPattern host clientId ->
  validPattern host homeAccountIdentifier ->
  snapshot contents r w = Some s ->
  keysOf r w = Ok ks w ->
  AuthCache.getAllAccessTokens host Constants this clientId homeAccountIdentifier w
  = Ok (omap (decodeEntry (stored s))
          (filter (fun key => selected host clientId homeAccountIdentifier key = true)
             ks)) w.
Proof.
  intros Hc Hh Hs Hrun.
  assert (Hst : returns (BrowserStorage.getStorage (AuthCache.super host Constants this))
            w (fun a w' => a = r /\ w' = w)).
  { by eapply getStorage_spec. }
  destruct Hst as (a & w' & Hst & -> & ->).
  unfold AuthCache.getAllAccessTokens, mbind, M_bind. rewrite Hst, Hrun.
  by rewrite (getAllAccessTokens_loop_spec _ _ _ _ _ s).
Qed.

End GetAllAccessTokens.

(** For arguments without regular-expression syntax characters the engine
    accepts both, and a key is selected exactly when it contains both. *)
Lemma literal_selected host clientId homeAccountIdentifier :
  JS.literalPattern clientId = true ->
  JS.literalPattern homeAccountIdentifier = true ->
  validPattern host clientId
  /\ validPattern host homeAccountIdentifier
  /\ forall key, selected host clientId homeAccountIdentifier key
                 = contains key clientId && contains key homeAccountIdentifier.
Proof.
  intros Hc Hh. split; [|split].
  - intros key. eexists. by apply literal_String_match.
  - intros key. eexists. by apply literal_String_match.
  - intros key. unfold selected, matches.
    by rewrite !literal_String_match.
Qed.

(** The scenario of the two accounts, run: one item comes back, the one
    decoded from the entry of [acct1]. *)
Example getAllAccessTokens_two_accounts :
  AuthCache.getAllAccessTokens Sample.host Sample.Constants Sample.cache
    "app1" "acct1" (Sample.browser two_tokens)
  = Ok (option_list (decodeEntry two_tokens (tokenKey "acct1")))
       (Sample.browser two_tokens)
  /\ is_Some (decodeEntry two_tokens (tokenKey "acct1")).
Proof. split; [by vm_compute|]. vm_compute. eauto. Qed.

(** The earlier class on a malformed entry: the key of the second entry of
    [two_keys] is matched and is no JSON text, and the call throws. *)
Example Storage_getAllAccessTokens_throws :
  Storage.getAllAccessTokens Sample.host
    {| Storage.cacheLocation := LocalStorageName |} "unrelated" "bar"
    (Sample.browser two_keys)
  = Throw JS.SyntaxError (Sample.browser two_keys).
Proof. by vm_compute. Qed.

(** C8, counterexample to the unamended statement: the key of the entry
    does not contain the account identifier asked for, and the entry is
    returned all the same, because the identifier is read as a pattern in
    which the dot stands for any character. *)
Lemma getAllAccessTokens_pattern_not_substring :
  contains (tokenKey "dWlkXdXRpZA") "dWlk.dXRpZA" = false
  /\ exists item,
       AuthCache.getAllAccessTokens Sample.host Sample.Constants Sample.cache
         "app1" "dWlk.dXRpZA" world_other_account
       = Ok [item] world_other_account.
Proof. split; [by vm_compute|]. eexists. vm_compute. reflexivity. Qed.

(** ** The cookie mirror *)

Lemma rev_string_acc acc s : JS.rev_string acc s = JS.rev_string "" s +:+ acc.
Proof.
  revert acc. induction s as [|c s IH]; intros acc; simpl; [done|].
  rewrite (IH (String c acc)), (IH (String c "")).
  by rewrite String_append_assoc.
Qed.

Lemma rev_string_rev_string cur a :
  JS.rev_string "" (JS.rev_string cur a) = JS.rev_string "" cur +:+ a.
Proof.
  revert cur. induction a as [|c a IH]; intros cur; simpl.
  - by rewrite String_append_empty.
  - rewrite IH. simpl. rewrite (rev_string_acc (String c "")).
    by rewrite String_append_assoc.
Qed.

Lemma split_go_lacks cur a rest :
  lacks ";" a = true ->
  JS.split_go ";" 0 cur (a +:+ rest) = JS.split_go ";" 0 (JS.rev_string cur a) rest.
Proof.
  revert cur. induction a as [|c a IH]; intros cur Ha; [done|].
  simpl in Ha. apply andb_prop in Ha as [Hc Ha].
  cbn [String.append JS.split_go JS.rev_string]. rewrite <- IH by done.
  cbn [String.prefix]. destruct (ascii_dec ";" c) as [<-|_]; [done|].
  reflexivity.
Qed.

(** Splitting at [;]: a piece without [;] in front of one comes off. *)
Lemma split_semicolon_cons a rest :
  lacks ";" a = true ->
  JS.split (a +:+ ";" +:+ rest) ";" = a :: JS.split rest ";".
Proof.
  intros Ha. unfold JS.split. rewrite split_go_lacks by done.
  cbn [String.append JS.split_go String.prefix].
  destruct (ascii_dec ";" ";") as [_|Hne]; [|done].
  assert (Hrest : String.prefix "" rest = true) by by destruct rest.
  rewrite Hrest. by rewrite rev_string_rev_string.
Qed.

Lemma split_semicolon_last a :
  lacks ";" a = true -> JS.split a ";" = [a].
Proof.
  intros Ha. unfold JS.split.
  rewrite <- (String_append_empty a) at 1. rewrite split_go_lacks by done.
  cbn [JS.split_go]. by rewrite rev_string_rev_string.
Qed.

Lemma lacks_app c a b : lacks c (a +:+ b) = lacks c a && lacks c b.
Proof.
  induction a as [|d a IH]; simpl; [done|]. by rewrite IH, andb_assoc.
Qed.

Lemma indexOf_from_eq_sign i n v :
  lacks "=" n = true ->
  JS.indexOf_from i (n +:+ "=" +:+ v) "=" = i + Z.of_nat (String.length n).
Proof.
  revert i. induction n as [|c n IH]; intros i Hn.
  - cbn. assert (Hv : String.prefix "" v = true) by by destruct v.
    rewrite Hv. lia.
  - simpl in Hn. apply andb_prop in Hn as [Hc Hn].
    cbn [String.append JS.indexOf_from String.prefix String.length].
    destruct (ascii_dec "=" c) as [<-|_]; [done|].
    rewrite IH by done. lia.
Qed.

Lemma take_string_app n rest : JS.take_string (String.length n) (n +:+ rest) = n.
Proof. induction n as [|c n IH]; simpl; [by destruct rest|by f_equal]. Qed.

Lemma substring_from_app n rest :
  JS.substring_from (String.length n) (n +:+ rest) = rest.
Proof. induction n as [|c n IH]; simpl; [done|apply IH]. Qed.

Lemma String_eqb_true a b : String.eqb a b = true -> a = b.
Proof. apply String.eqb_eq. Qed.

(** Assigning the string of a mirrored write stores the value under the
    name, when both are kept as they are. *)
Lemma cookie_assign_put host now n v j :
  cookieName n = true ->
  cookieValue v = true ->
  JS.cookie_assign host now (cookieString host now n v None) j = JS.jar_put n v j.
Proof.
  intros Hn Hv. unfold cookieName in Hn. unfold cookieValue in Hv.
  apply andb_prop in Hn as [Hn Htrim]. apply andb_prop in Hn as [Hn Heq].
  apply andb_prop in Hn as [Hne Hsemi]. apply andb_prop in Hv as [Hvsemi Hvtrim].
  apply String_eqb_true in Htrim. apply String_eqb_true in Hvtrim.
  unfold JS.cookie_assign, cookieString.
  replace (n +:+ "=" +:+ v +:+ ";path=/;" +:+ "")
    with ((n +:+ "=" +:+ v) +:+ ";" +:+ "path=/;")
    by (rewrite !String_append_assoc; reflexivity).
  rewrite split_semicolon_cons
    by (rewrite !lacks_app, Hsemi, Hvsemi; reflexivity).
  unfold JS.indexOf. rewrite indexOf_from_eq_sign by done.
  destruct (Z.eqb_spec (0 + Z.of_nat (String.length n)) (-1)) as [Hbad|_]; [lia|].
  replace (Z.to_nat (0 + Z.of_nat (String.length n))) with (String.length n) by lia.
  rewrite take_string_app.
  replace (S (String.length n)) with (String.length (n +:+ "=")).
  2: { rewrite String_length_app. simpl. lia. }
  replace (n +:+ "=" +:+ v) with ((n +:+ "=") +:+ v)
    by (by rewrite String_append_assoc).
  rewrite substring_from_app, Htrim, Hvtrim, Hne. reflexivity.
Qed.

Lemma jar_get_put_eq n v j : jar_get n (JS.jar_put n v j) = v.
Proof.
  induction j as [|[n' v'] j IH]; simpl.
  - by rewrite String.eqb_refl.
  - destruct (String.eqb n' n) eqn:Heq; simpl; by rewrite Heq.
Qed.

Lemma jar_get_put_ne n n' v j :
  n' <> n -> jar_get n (JS.jar_put n' v j) = jar_get n j.
Proof.
  intros Hne. induction j as [|[n0 v0] j IH]; simpl.
  - by rewrite (proj2 (String.eqb_neq n' n)).
  - destruct (String.eqb n0 n') eqn:Heq; simpl.
    + apply String_eqb_true in Heq as ->.
      by rewrite (proj2 (String.eqb_neq n' n)).
    + by rewrite IH.
Qed.

Lemma wfJar_put n v j :
  cookieName n = true -> cookieValue v = true -> wfJar j = true ->
  wfJar (JS.jar_put n v j) = true.
Proof.
  intros Hn Hv. unfold cookieName in Hn. unfold cookieValue in Hv.
  apply andb_prop in Hn as [Hn Htrim]. apply andb_prop in Hn as [Hn Heq].
  apply andb_prop in Hn as [Hne Hsemi]. apply andb_prop in Hv as [Hvsemi _].
  assert (Hstrip : String.eqb (BrowserStorage.stripSpaces n) n = true).
  { apply String_eqb_true in Htrim. apply String.eqb_eq.
    destruct n as [|c n]; [done|].
    destruct (Ascii.eqb_spec c " "%char) as [->|Hc].
    - exfalso. unfold JS.trim in Htrim. cbn [JS.trimStart Ascii.eqb] in Htrim.
      simpl in Htrim.
      assert (Hlen : forall s, (String.length (JS.trimStart s) <= String.length s)%nat).
      { induction s as [|d s IHs]; simpl; [lia|].
        destruct (Ascii.eqb d " " || Ascii.eqb d "009")%bool; simpl; lia. }
      assert (Hrev : forall acc s, String.length (JS.rev_string acc s)
                                   = (String.length s + String.length acc)%nat).
      { intros acc s. revert acc. induction s as [|d s IHs]; intros acc; simpl; [done|].
        rewrite IHs. simpl. lia. }
      apply (f_equal String.length) in Htrim.
      rewrite Hrev in Htrim. simpl in Htrim.
      pose proof (Hlen (JS.rev_string "" (JS.trimStart n))) as H1.
      rewrite Hrev in H1. pose proof (Hlen n) as H2. simpl in H1. lia.
    - simpl. destruct c as [[] [] [] [] [] [] [] []]; try done. }
  induction j as [|[n' v'] j IH]; intros Hj; simpl in *.
  - by rewrite Hsemi, Heq, Hstrip, Hvsemi.
  - apply andb_prop in Hj as [Hhd Hj].
    destruct (String.eqb n' n) eqn:Hnn; simpl.
    + apply String_eqb_true in Hnn as ->.
      by rewrite Hsemi, Heq, Hstrip, Hvsemi, Hj.
    + by rewrite Hhd, IH.
Qed.

Lemma stripSpaces_cons c s :
  BrowserStorage.stripSpaces (String c s)
  = if Ascii.eqb c " " then BrowserStorage.stripSpaces s else String c s.
Proof. by destruct c as [[] [] [] [] [] [] [] []]. Qed.

Lemma stripSpaces_length s :
  (String.length (BrowserStorage.stripSpaces s) <= String.length s)%nat.
Proof.
  induction s as [|c s IH]; [done|]. rewrite stripSpaces_cons.
  destruct (Ascii.eqb c " "); simpl; lia.
Qed.

Lemma stripSpaces_spaces pre x :
  spaces pre = true ->
  BrowserStorage.stripSpaces (pre +:+ x) = BrowserStorage.stripSpaces x.
Proof.
  induction pre as [|c pre IH]; [done|]. cbn [spaces String.append].
  intros [Hc Hpre]%andb_prop. rewrite stripSpaces_cons, Hc. by apply IH.
Qed.

Lemma spaces_lacks pre : spaces pre = true -> lacks ";" pre = true.
Proof.
  induction pre as [|c pre IH]; [done|]. simpl. intros [Hc Hpre]%andb_prop.
  rewrite IH by done. apply Ascii.eqb_eq in Hc as ->. done.
Qed.

(** A rendered cookie whose name does not start with a space is left
    alone by the loop that strips spaces. *)
Lemma stripSpaces_render n v :
  String.eqb (BrowserStorage.stripSpaces n) n = true ->
  BrowserStorage.stripSpaces (n +:+ "=" +:+ v) = n +:+ "=" +:+ v.
Proof.
  intros Hn%String_eqb_true. destruct n as [|c n]; [done|].
  cbn [String.append]. rewrite stripSpaces_cons in Hn |- *.
  destruct (Ascii.eqb c " "); [|done]. exfalso.
  pose proof (stripSpaces_length n) as Hlen. rewrite Hn in Hlen. simpl in Hlen. lia.
Qed.

Lemma prefix_cons c p d s :
  String.prefix (String c p) (String d s) = Ascii.eqb c d && String.prefix p s.
Proof.
  cbn [String.prefix]. destruct (ascii_dec c d) as [->|Hne].
  - by rewrite Ascii.eqb_refl.
  - by rewrite (proj2 (Ascii.eqb_neq c d)).
Qed.

Lemma prefix_empty s : String.prefix "" s = true.
Proof. by destruct s. Qed.

Lemma prefix_names n n1 v1 :
  lacks "=" n = true -> lacks "=" n1 = true ->
  String.prefix (n +:+ "=") (n1 +:+ "=" +:+ v1) = String.eqb n1 n.
Proof.
  revert n1. induction n as [|c n IH]; intros n1 Hn Hn1.
  - destruct n1 as [|d n1]; cbn [String.append String.eqb].
    + by rewrite prefix_cons, prefix_empty.
    + cbn [lacks] in Hn1. apply andb_prop in Hn1 as [Hd _].
      rewrite prefix_cons, Ascii.eqb_sym. by destruct (Ascii.eqb d "=").
  - cbn [lacks] in Hn. apply andb_prop in Hn as [Hc Hn].
    destruct n1 as [|d n1]; cbn [String.append String.eqb].
    + rewrite prefix_cons. by destruct (Ascii.eqb c "=").
    + cbn [lacks] in Hn1. apply andb_prop in Hn1 as [Hd Hn1].
      rewrite prefix_cons, (Ascii.eqb_sym c d).
      destruct (Ascii.eqb d c); [by apply IH|done].
Qed.

(** What the loop of [getItemCookie] makes of one rendered cookie. *)
Lemma findCookie_cons n n1 v1 pre rest :
  lacks "=" n = true -> lacks "=" n1 = true ->
  String.eqb (BrowserStorage.stripSpaces n1) n1 = true ->
  spaces pre = true ->
  BrowserStorage.findCookie (n +:+ "=") ((pre +:+ n1 +:+ "=" +:+ v1) :: rest)
  = if String.eqb n1 n then v1
    else BrowserStorage.findCookie (n +:+ "=") rest.
Proof.
  intros Hn Hn1 Hstrip Hpre. cbn [BrowserStorage.findCookie].
  rewrite stripSpaces_spaces, stripSpaces_render by done.
  pose proof (prefix_names n n1 v1 Hn Hn1) as Hprefix.
  destruct (String.eqb n1 n) eqn:Heq.
  - apply indexOf_0 in Hprefix. rewrite Hprefix. cbn [Z.eqb].
    apply String_eqb_true in Heq as ->.
    replace (n +:+ "=" +:+ v1) with ((n +:+ "=") +:+ v1)
      by (by rewrite String_append_assoc).
    apply substring_from_app.
  - destruct (Z.eqb_spec (JS.indexOf (n1 +:+ "=" +:+ v1) (n +:+ "=")) 0) as [H0|_];
      [|done].
    apply indexOf_0 in H0. congruence.
Qed.

Lemma findCookie_spaces n pre :
  spaces pre = true -> BrowserStorage.findCookie (n +:+ "=") [pre] = "".
Proof.
  intros Hpre. cbn [BrowserStorage.findCookie].
  rewrite <- (String_append_empty pre), stripSpaces_spaces by done.
  destruct (Z.eqb_spec (JS.indexOf (BrowserStorage.stripSpaces "") (n +:+ "=")) 0)
    as [H0|_]; [|done].
  apply indexOf_0 in H0. by destruct n.
Qed.

Lemma cookie_read_cons n1 v1 e j :
  JS.cookie_read ((n1, v1) :: e :: j)
  = (n1 +:+ "=" +:+ v1) +:+ "; " +:+ JS.cookie_read (e :: j).
Proof. reflexivity. Qed.

(** Reading a cookie back through [document.cookie]: the loop finds the
    value the store holds under the name. *)
Lemma findCookie_cookie_read n j pre :
  lacks "=" n = true -> wfJar j = true -> spaces pre = true ->
  BrowserStorage.findCookie (n +:+ "=") (JS.split (pre +:+ JS.cookie_read j) ";")
  = jar_get n j.
Proof.
  intros Hn. revert pre. induction j as [|[n1 v1] j IH]; intros pre Hj Hpre.
  - unfold JS.cookie_read. cbn [map JS.join]. rewrite String_append_empty.
    rewrite split_semicolon_last by by apply spaces_lacks.
    by apply findCookie_spaces.
  - simpl in Hj. apply andb_prop in Hj as [Hhd Hj].
    apply andb_prop in Hhd as [Hhd Hv1]. apply andb_prop in Hhd as [Hhd Hstrip].
    apply andb_prop in Hhd as [Hsemi Heq].
    assert (Hpiece : lacks ";" (pre +:+ n1 +:+ "=" +:+ v1) = true).
    { by rewrite !lacks_app, spaces_lacks, Hsemi, Hv1. }
    destruct j as [|e j].
    + change (JS.cookie_read [(n1, v1)]) with (n1 +:+ "=" +:+ v1).
      cbn [jar_get]. rewrite split_semicolon_last by done.
      by rewrite findCookie_cons.
    + rewrite cookie_read_cons.
      replace (pre +:+ (n1 +:+ "=" +:+ v1) +:+ "; " +:+ JS.cookie_read (e :: j))
        with ((pre +:+ n1 +:+ "=" +:+ v1) +:+ ";"
              +:+ (" " +:+ JS.cookie_read (e :: j)))
        by (rewrite !String_append_assoc; reflexivity).
      rewrite split_semicolon_cons by done.
      rewrite findCookie_cons by done. cbn [jar_get].
      destruct (String.eqb n1 n); [done|]. by apply IH.
Qed.

(** ** The cookie store and the keys of the cache *)

Section CookieStore.

Local Abbreviation rev := (JS.rev_string "").
Local Abbreviation blank c := (Ascii.eqb c " " || Ascii.eqb c "009")%bool.

(** *** Strings *)

Lemma string_cut c s :
  lacks c s = true \/ exists a b, s = a +:+ String c b /\ lacks c a = true.
Proof.
  induction s as [|d s IH]; [by left|]. simpl.
  destruct (Ascii.eqb_spec d c) as [->|Hne]; simpl.
  - right. by exists "", s.
  - destruct IH as [->|(a & b & -> & Ha)]; [by left|].
    right. exists (String d a), b. simpl. split; [done|].
    rewrite Ha. by destruct (Ascii.eqb_spec d c).
Qed.

Lemma lacks_rev_string c acc s :
  lacks c (JS.rev_string acc s) = lacks c acc && lacks c s.
Proof.
  revert acc. induction s as [|d s IH]; intros acc; simpl.
  - by rewrite andb_true_r.
  - rewrite IH. simpl. by destruct (Ascii.eqb d c), (lacks c acc), (lacks c s).
Qed.

Lemma lacks_trimStart c s : lacks c s = true -> lacks c (JS.trimStart s) = true.
Proof.
  induction s as [|d s IH]; [done|]. simpl. intros [Hd Hs]%andb_prop.
  destruct (blank d); [by apply IH|]. simpl. by rewrite Hd, Hs.
Qed.

Lemma lacks_trim c s : lacks c s = true -> lacks c (JS.trim s) = true.
Proof.
  intros Hs. unfold JS.trim. rewrite lacks_rev_string. simpl.
  apply lacks_trimStart. rewrite lacks_rev_string. simpl.
  by apply lacks_trimStart.
Qed.

Lemma lacks_stripSpaces c s :
  lacks c s = true -> lacks c (BrowserStorage.stripSpaces s) = true.
Proof.
  induction s as [|d s IH]; [done|]. rewrite stripSpaces_cons. simpl.
  intros [Hd Hs]%andb_prop. destruct (Ascii.eqb d " "); [by apply IH|].
  simpl. by rewrite Hd, Hs.
Qed.

Lemma prefix_lacks c p s :
  String.prefix p s = true -> lacks c s = true -> lacks c p = true.
Proof.
  revert s. induction p as [|d p IH]; intros s; [done|].
  destruct s as [|e s]; [done|]. rewrite prefix_cons. simpl.
  intros [Hde Hp]%andb_prop [He Hs]%andb_prop.
  apply Ascii.eqb_eq in Hde as ->. rewrite He. simpl. by eapply IH.
Qed.

Lemma indexOf_from_lacks i s :
  lacks "=" s = true -> JS.indexOf_from i s "=" = -1.
Proof.
  revert i. induction s as [|c s IH]; intros i; [done|].
  cbn [lacks]. intros [Hc Hs]%andb_prop.
  cbn [JS.indexOf_from String.prefix].
  destruct (ascii_dec "=" c) as [<-|_]; [done|]. by apply IH.
Qed.

Lemma split_go_pieces cur s :
  lacks ";" cur = true ->
  Forall (fun p => lacks ";" p = true) (JS.split_go ";" 0 cur s).
Proof.
  revert cur. induction s as [|c s IH]; intros cur Hcur.
  - constructor; [|done]. rewrite lacks_rev_string. by rewrite Hcur.
  - cbn [JS.split_go String.prefix].
    destruct (ascii_dec ";" c) as [<-|Hne].
    + rewrite prefix_empty. constructor.
      * rewrite lacks_rev_string. by rewrite Hcur.
      * by apply IH.
    + apply IH. simpl. rewrite Hcur.
      destruct (Ascii.eqb_spec c ";") as [->|_]; done.
Qed.

(** No piece of a text split at [;] contains [;]. *)
Lemma split_pieces s : Forall (fun p => lacks ";" p = true) (JS.split s ";").
Proof. by apply split_go_pieces. Qed.

(** A name that contains [;] is found in no cookie. *)
Lemma findCookie_semicolon name ca :
  lacks ";" name = false ->
  Forall (fun p => lacks ";" p = true) ca ->
  BrowserStorage.findCookie name ca = "".
Proof.
  intros Hname. induction 1 as [|c ca Hc _ IH]; [done|].
  cbn [BrowserStorage.findCookie].
  destruct (Z.eqb_spec (JS.indexOf (BrowserStorage.stripSpaces c) name) 0)
    as [H0|_]; [|done].
  apply indexOf_0 in H0.
  apply (prefix_lacks ";") in H0; [congruence|]. by apply lacks_stripSpaces.
Qed.

(** *** Trimming *)

Lemma rev_string_app acc x y :
  JS.rev_string acc (x +:+ y) = JS.rev_string (JS.rev_string acc x) y.
Proof. revert acc. induction x as [|c x IH]; intros acc; simpl; [done|apply IH]. Qed.

Lemma rev_app x y : rev (x +:+ y) = rev y +:+ rev x.
Proof. by rewrite rev_string_app, rev_string_acc. Qed.

Lemma rev_rev x : rev (rev x) = x.
Proof. apply (rev_string_rev_string "" x). Qed.

Lemma rev_empty x : rev x = "" -> x = "".
Proof. intros Hx. by rewrite <- (rev_rev x), Hx. Qed.

Lemma trimStart_length s : (String.length (JS.trimStart s) <= String.length s)%nat.
Proof.
  induction s as [|d s IH]; simpl; [lia|].
  destruct (blank d); simpl; lia.
Qed.

Lemma trimStart_cons c s :
  JS.trimStart (String c s) = String c s <-> blank c = false.
Proof.
  simpl. destruct (blank c); [|done]. split; [|done].
  intros Heq. pose proof (trimStart_length s) as Hlen.
  rewrite Heq in Hlen. simpl in Hlen. lia.
Qed.

Lemma trimStart_idem s : JS.trimStart (JS.trimStart s) = JS.trimStart s.
Proof.
  induction s as [|c s IH]; [done|]. simpl.
  destruct (blank c) eqn:Hc; [done|]. simpl. by rewrite Hc.
Qed.

(** A string that does not start with a blank keeps its blanks further
    on, whatever is put behind it. *)
Lemma trimStart_app_fixed x y :
  JS.trimStart x = x -> x <> "" -> JS.trimStart (x +:+ y) = x +:+ y.
Proof.
  destruct x as [|c x]; [done|]. intros Hx%trimStart_cons _.
  cbn [String.append]. by apply trimStart_cons.
Qed.

Lemma trimStart_app_head x y :
  JS.trimStart (x +:+ y) = x +:+ y -> JS.trimStart x = x.
Proof.
  destruct x as [|c x]; [done|]. cbn [String.append].
  intros Hx%trimStart_cons. by apply trimStart_cons.
Qed.

Lemma trimStart_app x v :
  JS.trimStart v = v -> JS.trimStart (x +:+ v) = JS.trimStart x +:+ v.
Proof.
  intros Hv. induction x as [|c x IH]; [done|]. cbn [String.append JS.trimStart].
  by destruct (blank c).
Qed.

Lemma trimStart_suffix s : exists bl, s = bl +:+ JS.trimStart s.
Proof.
  induction s as [|c s [bl IH]]; [by exists ""|]. simpl.
  destruct (blank c); [|by exists ""].
  exists (String c bl). simpl. by rewrite <- IH.
Qed.

(** A string without blanks at either end is its own trim. *)
Lemma trim_fixed s :
  JS.trimStart s = s -> JS.trimStart (rev s) = rev s -> JS.trim s = s.
Proof. intros H1 H2. unfold JS.trim. by rewrite H1, H2, rev_rev. Qed.

Lemma trim_tight s :
  JS.trimStart (JS.trim s) = JS.trim s
  /\ JS.trimStart (rev (JS.trim s)) = rev (JS.trim s).
Proof.
  unfold JS.trim.
  set (a := JS.trimStart s). set (b := JS.trimStart (rev a)).
  split; [|by rewrite rev_rev; apply trimStart_idem].
  destruct (trimStart_suffix (rev a)) as [bl Hbl]. fold b in Hbl.
  assert (Ha : a = rev b +:+ rev bl).
  { by rewrite <- rev_app, <- Hbl, rev_rev. }
  apply (trimStart_app_head _ (rev bl)). rewrite <- Ha. apply trimStart_idem.
Qed.

Lemma trim_idem s : JS.trim (JS.trim s) = JS.trim s.
Proof. destruct (trim_tight s). by apply trim_fixed. Qed.

Lemma trim_fixed_inv s :
  JS.trim s = s -> JS.trimStart s = s /\ JS.trimStart (rev s) = rev s.
Proof. intros Hs. pose proof (trim_tight s) as Ht. by rewrite Hs in Ht. Qed.

(** In front of a text that has no blank at either end and is not empty,
    trimming removes the leading blanks and nothing else. *)
Lemma trim_app x v :
  JS.trim v = v -> v <> "" -> JS.trim (x +:+ v) = JS.trimStart x +:+ v.
Proof.
  intros [Hv1 Hv2]%trim_fixed_inv Hne. unfold JS.trim.
  rewrite trimStart_app by done. rewrite rev_app.
  rewrite trimStart_app_fixed; [|done|].
  - by rewrite <- rev_app, rev_rev.
  - intros Hrev%rev_empty. done.
Qed.

Lemma trim_eq_sign v : JS.trim v = v -> JS.trim ("=" +:+ v) = "=" +:+ v.
Proof.
  intros [Hv1 Hv2]%trim_fixed_inv. apply trim_fixed; [done|].
  change ("=" +:+ v) with (String "=" "" +:+ v). rewrite rev_app.
  destruct v as [|c v]; [done|].
  apply trimStart_app_fixed; [done|]. intros Hrev%rev_empty. done.
Qed.

(** The value the cookie store keeps for [t] followed by [v], where [t]
    is empty or ends with [=]. *)
Lemma trim_behind t v :
  t = "" \/ (exists u, t = u +:+ "=") ->
  JS.trim v = v ->
  JS.trim (t +:+ v) = JS.trimStart t +:+ v.
Proof.
  intros [->|[u ->]] Hv; [done|].
  rewrite String_append_assoc. rewrite trim_app.
  - rewrite (trimStart_app u "=") by done. by rewrite String_append_assoc.
  - by apply trim_eq_sign.
  - done.
Qed.

(** Read back against [t], that value gives [v] or nothing. *)
Lemma valueBehind_own t v :
  t = "" \/ (exists u, t = u +:+ "=") ->
  valueBehind t (JS.trimStart t +:+ v) = v
  \/ valueBehind t (JS.trimStart t +:+ v) = "".
Proof.
  intros Ht. unfold valueBehind.
  destruct (String.prefix t (JS.trimStart t +:+ v)) eqn:Hp; [|by right]. left.
  assert (Hfix : JS.trimStart t = t).
  { destruct t as [|c t]; [done|]. apply trimStart_cons.
    destruct (blank c) eqn:Hc; [|done]. exfalso.
    destruct Ht as [?|[u Hu]]; [done|].
    assert (Hne : exists d rest, JS.trimStart (String c t) = String d rest
                                 /\ blank d = false).
    { rewrite Hu. clear. induction u as [|e u IH].
      - by exists "="%char, "".
      - cbn [String.append JS.trimStart]. destruct (blank e) eqn:He; [done|].
        by exists e, (u +:+ "="). }
    destruct Hne as (d & rest & Hd & Hblank). rewrite Hd in Hp.
    cbn [String.append] in Hp. rewrite prefix_cons in Hp.
    apply andb_prop in Hp as [Hcd _]. apply Ascii.eqb_eq in Hcd as ->.
    congruence. }
  rewrite Hfix. apply substring_from_app.
Qed.

(** *** The cookies of the store *)

Lemma trim_stripSpaces n :
  JS.trim n = n -> BrowserStorage.stripSpaces n = n.
Proof.
  intros [Hn _]%trim_fixed_inv. destruct n as [|c n]; [done|].
  apply trimStart_cons in Hn. rewrite stripSpaces_cons.
  by destruct (Ascii.eqb c " ").
Qed.

Lemma cookieName_inv n :
  cookieName n = true ->
  n <> "" /\ lacks ";" n = true /\ lacks "=" n = true /\ JS.trim n = n.
Proof.
  unfold cookieName. intros Hn.
  apply andb_prop in Hn as [Hn Htrim]. apply andb_prop in Hn as [Hn Heq].
  apply andb_prop in Hn as [Hne Hsemi]. apply String_eqb_true in Htrim.
  repeat split; try done. by intros ->.
Qed.

Lemma cookieName_intro n :
  JS.truthy n = true -> lacks ";" n = true -> lacks "=" n = true ->
  JS.trim n = n -> cookieName n = true.
Proof.
  intros H1 H2 H3 H4. unfold cookieName. rewrite H1, H2, H3, H4.
  by rewrite String.eqb_refl.
Qed.

Lemma storeJar_cons n v j :
  storeJar ((n, v) :: j)
  = cookieName n && lacks ";" v && negb (hasName n j) && storeJar j.
Proof.
  unfold storeJar. cbn [forallb uniqueNames].
  destruct (cookieName n), (lacks ";" v), (hasName n j), (forallb _ j); done.
Qed.

Lemma storeJar_wfJar j : storeJar j = true -> wfJar j = true.
Proof.
  induction j as [|[n v] j IH]; [done|]. rewrite storeJar_cons.
  intros Hj. apply andb_prop in Hj as [Hj Hrest]. apply andb_prop in Hj as [Hj _].
  apply andb_prop in Hj as [Hn Hv].
  destruct (cookieName_inv n Hn) as (_ & Hsemi & Heq & Htrim).
  cbn [wfJar forallb]. fold (wfJar j).
  rewrite Hsemi, Heq, Hv, (trim_stripSpaces n Htrim), String.eqb_refl.
  by rewrite IH.
Qed.

Lemma jar_get_absent n j : hasName n j = false -> jar_get n j = "".
Proof.
  induction j as [|[n' v'] j IH]; [done|]. simpl.
  intros [H1 H2]%orb_false_elim. rewrite H1. by apply IH.
Qed.

Lemma hasName_cookieName n j :
  storeJar j = true -> hasName n j = true -> cookieName n = true.
Proof.
  induction j as [|[n' v'] j IH]; [done|]. rewrite storeJar_cons. simpl.
  intros Hj. apply andb_prop in Hj as [Hj Hrest]. apply andb_prop in Hj as [Hj _].
  apply andb_prop in Hj as [Hn _].
  destruct (String.eqb n' n) eqn:Heq; simpl.
  - apply String_eqb_true in Heq as <-. done.
  - by apply IH.
Qed.

(** A name that is not a cookie name is the name of no cookie. *)
Lemma jar_get_no_cookieName n j :
  storeJar j = true -> cookieName n = false -> jar_get n j = "".
Proof.
  intros Hj Hn. apply jar_get_absent. destruct (hasName n j) eqn:Hhas; [|done].
  rewrite (hasName_cookieName n j Hj Hhas) in Hn. done.
Qed.

Lemma hasName_put n n' v j :
  hasName n (JS.jar_put n' v j) = hasName n j || String.eqb n' n.
Proof.
  induction j as [|[n0 v0] j IH]; simpl.
  - by rewrite orb_false_r.
  - destruct (String.eqb n0 n') eqn:H0; simpl.
    + apply String_eqb_true in H0 as ->.
      destruct (String.eqb n' n), (hasName n j); done.
    + rewrite IH. by rewrite orb_assoc.
Qed.

Lemma hasName_remove n n' j :
  hasName n (JS.jar_remove n' j) = hasName n j && negb (String.eqb n' n).
Proof.
  induction j as [|[n0 v0] j IH]; simpl; [done|].
  destruct (String.eqb n0 n') eqn:H0; simpl.
  - apply String_eqb_true in H0 as ->. rewrite IH.
    destruct (String.eqb n' n), (hasName n j); done.
  - rewrite IH. destruct (String.eqb n0 n) eqn:H1; simpl; [|done].
    apply String_eqb_true in H1 as ->. by rewrite String.eqb_sym, H0.
Qed.

Lemma storeJar_put n v j :
  cookieName n = true -> lacks ";" v = true -> storeJar j = true ->
  storeJar (JS.jar_put n v j) = true.
Proof.
  intros Hn Hv. induction j as [|[n0 v0] j IH].
  - intros _. cbn [JS.jar_put]. rewrite storeJar_cons. by rewrite Hn, Hv.
  - rewrite storeJar_cons. intros Hj.
    apply andb_prop in Hj as [Hj Hrest]. apply andb_prop in Hj as [Hj Hnew].
    apply andb_prop in Hj as [Hn0 Hv0]. cbn [JS.jar_put].
    destruct (String.eqb n0 n) eqn:H0; rewrite storeJar_cons.
    + by rewrite Hn0, Hv, Hnew, Hrest.
    + rewrite Hn0, Hv0, IH by done. rewrite hasName_put.
      rewrite String.eqb_sym, H0.
      apply negb_true_iff in Hnew. by rewrite Hnew.
Qed.

Lemma storeJar_remove n j :
  storeJar j = true -> storeJar (JS.jar_remove n j) = true.
Proof.
  induction j as [|[n0 v0] j IH]; [done|]. rewrite storeJar_cons. intros Hj.
  apply andb_prop in Hj as [Hj Hrest]. apply andb_prop in Hj as [Hj Hnew].
  apply andb_prop in Hj as [Hn0 Hv0]. cbn [JS.jar_remove].
  destruct (String.eqb n0 n) eqn:H0; [by apply IH|].
  rewrite storeJar_cons, Hn0, Hv0, IH by done. rewrite hasName_remove.
  apply negb_true_iff in Hnew. by rewrite Hnew.
Qed.

(** *** Assignment to document.cookie *)

(** An assignment leaves the cookies alone, or it is about one name and
    one value: the text in front of the first [;], cut at its first [=],
    both trimmed. *)
Lemma cookie_assign_cases host now str j :
  JS.cookie_assign host now str j = j
  \/ exists x y,
       lacks ";" x = true /\ lacks "=" x = true /\ lacks ";" y = true
       /\ JS.truthy (JS.trim x) = true
       /\ (JS.cookie_assign host now str j = JS.jar_put (JS.trim x) (JS.trim y) j
           \/ JS.cookie_assign host now str j = JS.jar_remove (JS.trim x) j).
Proof.
  unfold JS.cookie_assign.
  assert (Hsplit : exists nv attrs,
            JS.split str ";" = nv :: attrs /\ lacks ";" nv = true).
  { destruct (string_cut ";" str) as [Hl|(a & b & -> & Ha)].
    - exists str, []. by rewrite split_semicolon_last.
    - exists a, (JS.split b ";"). split; [|done].
      by apply (split_semicolon_cons a b). }
  destruct Hsplit as (nv & attrs & -> & Hnv).
  destruct (string_cut "=" nv) as [Hl|(x & y & -> & Hx)].
  - left. unfold JS.indexOf. by rewrite indexOf_from_lacks.
  - unfold JS.indexOf. change (x +:+ String "=" y) with (x +:+ "=" +:+ y).
    rewrite indexOf_from_eq_sign by done.
    destruct (Z.eqb_spec (0 + Z.of_nat (String.length x)) (-1)) as [Hbad|_]; [lia|].
    replace (Z.to_nat (0 + Z.of_nat (String.length x))) with (String.length x) by lia.
    rewrite take_string_app.
    replace (S (String.length x)) with (String.length (x +:+ "=")).
    2: { rewrite String_length_app. simpl. lia. }
    replace (x +:+ "=" +:+ y) with ((x +:+ "=") +:+ y)
      by (by rewrite String_append_assoc).
    rewrite substring_from_app.
    destruct (JS.truthy (JS.trim x)) eqn:Hname; [|by left]. cbn [negb].
    right. exists x, y.
    rewrite lacks_app in Hnv. apply andb_prop in Hnv as [Hxs Hys].
    cbn [lacks] in Hys. apply andb_prop in Hys as [_ Hys].
    repeat split; try done.
    destruct (JS.expiresAttribute attrs); [|by left].
    destruct (JS.dateInPast host now s); [by right|by left].
Qed.

(** Every assignment to [document.cookie] leaves the cookies as the store
    keeps them. *)
Lemma storeJar_cookie_assign host now str j :
  storeJar j = true -> storeJar (JS.cookie_assign host now str j) = true.
Proof.
  intros Hj.
  destruct (cookie_assign_cases host now str j)
    as [->|(x & y & Hxs & Hxe & Hys & Hname & [->| ->])]; [done| |].
  - apply storeJar_put; [|by apply lacks_trim|done].
    apply cookieName_intro; [done|by apply lacks_trim..|apply trim_idem].
  - by apply storeJar_remove.
Qed.

(** The assignment of a mirrored write whose name, up to its first [=], is
    [n]: the text [t] between that [=] and the end of the name goes into
    the value. *)
Lemma cookie_assign_mirror host now p v n t j :
  lacks ";" p = true ->
  cookieValue v = true ->
  p +:+ "=" = n +:+ "=" +:+ t ->
  lacks "=" n = true ->
  JS.cookie_assign host now (cookieString host now p v None) j
  = if JS.truthy (JS.trim n) then JS.jar_put (JS.trim n) (JS.trim (t +:+ v)) j else j.
Proof.
  intros Hp Hv Hcut Hn. unfold cookieValue in Hv.
  apply andb_prop in Hv as [Hvsemi Hvtrim].
  unfold JS.cookie_assign, cookieString.
  replace (p +:+ "=" +:+ v +:+ ";path=/;" +:+ "")
    with ((p +:+ "=" +:+ v) +:+ ";" +:+ "path=/;")
    by (rewrite !String_append_assoc; reflexivity).
  rewrite split_semicolon_cons
    by (rewrite !lacks_app, Hp, Hvsemi; reflexivity).
  replace (p +:+ "=" +:+ v) with (n +:+ "=" +:+ (t +:+ v)).
  2: { rewrite <- !String_append_assoc. rewrite (String_append_assoc n "=" t).
       by rewrite <- Hcut. }
  unfold JS.indexOf. rewrite indexOf_from_eq_sign by done.
  destruct (Z.eqb_spec (0 + Z.of_nat (String.length n)) (-1)) as [Hbad|_]; [lia|].
  replace (Z.to_nat (0 + Z.of_nat (String.length n))) with (String.length n) by lia.
  rewrite take_string_app.
  replace (S (String.length n)) with (String.length (n +:+ "=")).
  2: { rewrite String_length_app. simpl. lia. }
  replace (n +:+ "=" +:+ (t +:+ v)) with ((n +:+ "=") +:+ (t +:+ v))
    by (by rewrite String_append_assoc).
  rewrite substring_from_app.
  by destruct (JS.truthy (JS.trim n)).
Qed.

(** *** Reading a cookie back *)

Lemma prefix_cut n t n1 v1 :
  lacks "=" n = true -> lacks "=" n1 = true ->
  String.prefix (n +:+ "=" +:+ t) (n1 +:+ "=" +:+ v1)
  = String.eqb n1 n && String.prefix t v1.
Proof.
  revert n1. induction n as [|c n IH]; intros n1 Hn Hn1.
  - destruct n1 as [|d n1]; cbn [String.append String.eqb].
    + by rewrite prefix_cons.
    + cbn [lacks] in Hn1. apply andb_prop in Hn1 as [Hd _].
      rewrite prefix_cons, Ascii.eqb_sym. by destruct (Ascii.eqb d "=").
  - cbn [lacks] in Hn. apply andb_prop in Hn as [Hc Hn].
    destruct n1 as [|d n1]; cbn [String.append String.eqb].
    + rewrite prefix_cons. by destruct (Ascii.eqb c "=").
    + cbn [lacks] in Hn1. apply andb_prop in Hn1 as [Hd Hn1].
      rewrite prefix_cons, (Ascii.eqb_sym c d).
      destruct (Ascii.eqb d c); [by apply IH|done].
Qed.

Lemma substring_from_app_length a b s :
  JS.substring_from (String.length (a +:+ b)) (a +:+ s)
  = JS.substring_from (String.length b) s.
Proof. induction a as [|c a IH]; simpl; [done|apply IH]. Qed.

Lemma valueBehind_empty t : valueBehind t "" = "".
Proof. unfold valueBehind. destruct (String.prefix t ""); [|done]. by destruct t. Qed.

Lemma findCookie_cons_cut n t n1 v1 pre rest :
  lacks "=" n = true -> lacks "=" n1 = true ->
  String.eqb (BrowserStorage.stripSpaces n1) n1 = true ->
  spaces pre = true ->
  BrowserStorage.findCookie (n +:+ "=" +:+ t) ((pre +:+ n1 +:+ "=" +:+ v1) :: rest)
  = if String.eqb n1 n && String.prefix t v1
    then JS.substring_from (String.length t) v1
    else BrowserStorage.findCookie (n +:+ "=" +:+ t) rest.
Proof.
  intros Hn Hn1 Hstrip Hpre. cbn [BrowserStorage.findCookie].
  rewrite stripSpaces_spaces, stripSpaces_render by done.
  pose proof (prefix_cut n t n1 v1 Hn Hn1) as Hprefix.
  destruct (String.eqb n1 n && String.prefix t v1) eqn:Heq.
  - apply indexOf_0 in Hprefix. rewrite Hprefix. cbn [Z.eqb].
    apply andb_prop in Heq as [Hname _]. apply String_eqb_true in Hname as ->.
    replace (n +:+ "=" +:+ t) with ((n +:+ "=") +:+ t)
      by (by rewrite String_append_assoc).
    replace (n +:+ "=" +:+ v1) with ((n +:+ "=") +:+ v1)
      by (by rewrite String_append_assoc).
    apply substring_from_app_length.
  - destruct (Z.eqb_spec (JS.indexOf (n1 +:+ "=" +:+ v1) (n +:+ "=" +:+ t)) 0)
      as [H0|_]; [|done].
    apply indexOf_0 in H0. congruence.
Qed.

Lemma findCookie_blank name pre :
  name <> "" -> spaces pre = true -> BrowserStorage.findCookie name [pre] = "".
Proof.
  intros Hname Hpre. cbn [BrowserStorage.findCookie].
  rewrite <- (String_append_empty pre), stripSpaces_spaces by done.
  destruct (Z.eqb_spec (JS.indexOf (BrowserStorage.stripSpaces "") name) 0)
    as [H0|_]; [|done].
  apply indexOf_0 in H0. by destruct name.
Qed.

(** Reading through [document.cookie] a name that continues with [t]
    behind its first [=]: the loop finds the cookie of the name in front of
    that [=], and its value has to start with [t]. *)
Lemma findCookie_read_cut n t j pre :
  lacks "=" n = true -> storeJar j = true -> spaces pre = true ->
  BrowserStorage.findCookie (n +:+ "=" +:+ t)
    (JS.split (pre +:+ JS.cookie_read j) ";")
  = valueBehind t (jar_get n j).
Proof.
  intros Hn. revert pre. induction j as [|[n1 v1] j IH]; intros pre Hj Hpre.
  - unfold JS.cookie_read. cbn [map JS.join]. rewrite String_append_empty.
    rewrite split_semicolon_last by by apply spaces_lacks.
    rewrite valueBehind_empty. apply findCookie_blank; [|done]. by destruct n.
  - rewrite storeJar_cons in Hj.
    apply andb_prop in Hj as [Hj Hrest]. apply andb_prop in Hj as [Hj Hnew].
    apply andb_prop in Hj as [Hn1 Hv1]. apply negb_true_iff in Hnew.
    destruct (cookieName_inv n1 Hn1) as (_ & Hsemi & Heq & Htrim).
    assert (Hstrip : String.eqb (BrowserStorage.stripSpaces n1) n1 = true).
    { rewrite (trim_stripSpaces n1 Htrim). apply String.eqb_refl. }
    assert (Hpiece : lacks ";" (pre +:+ n1 +:+ "=" +:+ v1) = true).
    { by rewrite !lacks_app, spaces_lacks, Hsemi, Hv1. }
    assert (Hnext : forall rest,
              (forall pre', spaces pre' = true ->
                 BrowserStorage.findCookie (n +:+ "=" +:+ t)
                   (JS.split (pre' +:+ JS.cookie_read j) ";")
                 = valueBehind t (jar_get n j)) ->
              BrowserStorage.findCookie (n +:+ "=" +:+ t) rest
              = valueBehind t (jar_get n j) ->
              (if String.eqb n1 n && String.prefix t v1
               then JS.substring_from (String.length t) v1
               else BrowserStorage.findCookie (n +:+ "=" +:+ t) rest)
              = valueBehind t (jar_get n ((n1, v1) :: j))).
    { intros rest _ Hrest'. cbn [jar_get]. destruct (String.eqb n1 n) eqn:Hname.
      - apply String_eqb_true in Hname as ->. cbn [andb]. unfold valueBehind.
        destruct (String.prefix t v1); [done|].
        rewrite Hrest', jar_get_absent by done. apply valueBehind_empty.
      - done. }
    destruct j as [|e j].
    + change (JS.cookie_read [(n1, v1)]) with (n1 +:+ "=" +:+ v1).
      rewrite split_semicolon_last by done.
      rewrite findCookie_cons_cut by done.
      apply Hnext; [intros; by apply IH|].
      cbn [BrowserStorage.findCookie]. by rewrite valueBehind_empty.
    + rewrite cookie_read_cons.
      replace (pre +:+ (n1 +:+ "=" +:+ v1) +:+ "; " +:+ JS.cookie_read (e :: j))
        with ((pre +:+ n1 +:+ "=" +:+ v1) +:+ ";"
              +:+ (" " +:+ JS.cookie_read (e :: j)))
        by (rewrite !String_append_assoc; reflexivity).
      rewrite split_semicolon_cons by done.
      rewrite findCookie_cons_cut by done.
      apply Hnext; [intros; by apply IH|]. by apply IH.
Qed.

(** *** A key against itself, shifted *)

Lemma prefix_head h x k y :
  lacks "=" h = true ->
  String.prefix (h +:+ x) (k +:+ "=" +:+ y) = true ->
  String.prefix h k = true.
Proof.
  revert k. induction h as [|c h IH]; intros k Hh; [by rewrite prefix_empty|].
  cbn [lacks] in Hh. apply andb_prop in Hh as [Hc Hh].
  destruct k as [|d k]; cbn [String.append]; rewrite !prefix_cons.
  - intros [Hcd _]%andb_prop. apply Ascii.eqb_eq in Hcd as ->. done.
  - intros [Hcd Hp]%andb_prop. rewrite Hcd. by apply IH.
Qed.

Lemma prefix_inv p s : String.prefix p s = true -> exists s', s = p +:+ s'.
Proof.
  revert s. induction p as [|c p IH]; intros s; [by exists s|].
  destruct s as [|d s]; [done|]. rewrite prefix_cons.
  intros [Hcd Hp]%andb_prop. apply Ascii.eqb_eq in Hcd as ->.
  destruct (IH s Hp) as [s' ->]. by exists s'.
Qed.

Lemma prefix_app_cancel h a b :
  String.prefix (h +:+ a) (h +:+ b) = String.prefix a b.
Proof.
  induction h as [|c h IH]; [done|]. cbn [String.append].
  by rewrite prefix_cons, Ascii.eqb_refl.
Qed.

(** A key followed by [=] does not start with itself moved behind a text
    that is not empty and has no [=]. *)
Lemma prefix_shifted h k v :
  h <> "" -> lacks "=" h = true ->
  String.prefix (h +:+ k +:+ "=") (k +:+ "=" +:+ v) = false.
Proof.
  intros Hne Hh.
  assert (Hall : forall n k, (String.length k <= n)%nat ->
            String.prefix (h +:+ k +:+ "=") (k +:+ "=" +:+ v) = false).
  { clear k. induction n as [|n IH]; intros k Hlen;
      destruct (String.prefix (h +:+ k +:+ "=") (k +:+ "=" +:+ v)) eqn:Hp;
      try done; exfalso;
      pose proof (prefix_head _ _ _ _ Hh Hp) as [k' ->]%prefix_inv;
      rewrite String_length_app in Hlen.
    - destruct h; [done|]. simpl in Hlen. lia.
    - rewrite !String_append_assoc, prefix_app_cancel in Hp.
      rewrite IH in Hp; [done|]. destruct h; [done|]. simpl in Hlen. lia. }
  by apply (Hall (String.length k)).
Qed.

Lemma lacks_snoc_blank c h :
  blank c = true -> lacks "=" h = true -> lacks "=" (h +:+ String c "") = true.
Proof.
  intros Hc Hh. rewrite lacks_app, Hh. cbn [lacks andb].
  destruct (Ascii.eqb_spec c "=") as [->|_]; done.
Qed.

Lemma prefix_shifted_trimmed h k v :
  h <> "" -> lacks "=" h = true ->
  String.prefix (h +:+ k +:+ "=") (JS.trimStart (k +:+ "=") +:+ v) = false.
Proof.
  revert h. induction k as [|c k IH]; intros h Hne Hh.
  - by apply (prefix_shifted h "" v).
  - destruct (blank c) eqn:Hc.
    + cbn [String.append JS.trimStart]. rewrite Hc.
      replace (h +:+ String c (k +:+ "=")) with ((h +:+ String c "") +:+ k +:+ "=")
        by (by rewrite String_append_assoc).
      apply IH; [by destruct h|by apply lacks_snoc_blank].
    + assert (Hfix : JS.trimStart (String c k +:+ "=") = String c k +:+ "=").
      { cbn [String.append]. by apply trimStart_cons. }
      rewrite Hfix, String_append_assoc. by apply prefix_shifted.
Qed.

(** The text behind the first [=] of the current-schema key is not at the
    front of what the store keeps for the legacy-schema key. *)
Lemma prefix_shifted_behind b cid key v :
  lacks "=" cid = true ->
  String.prefix (b +:+ cid +:+ "." +:+ key +:+ "=")
    (JS.trimStart (b +:+ key +:+ "=") +:+ v) = false.
Proof.
  intros Hcid.
  assert (Hh : lacks "=" (cid +:+ ".") = true) by by rewrite lacks_app, Hcid.
  assert (Hne : cid +:+ "." <> "") by by destruct cid.
  destruct b as [|c b].
  - assert (Hassoc : "" +:+ cid +:+ "." +:+ key +:+ "="
                     = (cid +:+ ".") +:+ key +:+ "=")
      by (by rewrite !String_append_assoc).
    rewrite Hassoc. change ("" +:+ key +:+ "=") with (key +:+ "=").
    by apply prefix_shifted_trimmed.
  - destruct (blank c) eqn:Hc.
    + assert (Hhead : exists d rest,
                JS.trimStart (String c b +:+ key +:+ "=") = String d rest
                /\ blank d = false).
      { generalize (String c b). clear. intros u. induction u as [|e u IH].
        - induction key as [|e key IH].
          + by exists "="%char, "".
          + cbn [String.append JS.trimStart]. destruct (blank e) eqn:He; [done|].
            by exists e, (key +:+ "=").
        - cbn [String.append JS.trimStart]. destruct (blank e) eqn:He; [done|].
          by exists e, (u +:+ key +:+ "="). }
      destruct Hhead as (d & rest & -> & Hd). cbn [String.append].
      rewrite prefix_cons.
      destruct (Ascii.eqb_spec c d) as [->|_]; [congruence|done].
    + assert (Hfix : JS.trimStart (String c b +:+ key +:+ "=")
                     = String c b +:+ key +:+ "=").
      { cbn [String.append]. by apply trimStart_cons. }
      rewrite Hfix, !String_append_assoc, prefix_app_cancel.
      rewrite <- (String_append_assoc cid "." (key +:+ "=")).
      by apply prefix_shifted.
Qed.

(** *** The first [=] of a name *)

Lemma first_cut p :
  exists n t, p +:+ "=" = n +:+ "=" +:+ t /\ lacks "=" n = true
              /\ (t = "" \/ exists u, t = u +:+ "=").
Proof.
  destruct (string_cut "=" p) as [Hp|(a & b & -> & Ha)].
  - exists p, "". split; [done|]. split; [done|by left].
  - exists a, (b +:+ "="). split; [by rewrite String_append_assoc|].
    split; [done|right; by exists b].
Qed.

Lemma cut_unique n t n' t' :
  n +:+ "=" +:+ t = n' +:+ "=" +:+ t' ->
  lacks "=" n = true -> lacks "=" n' = true ->
  n = n' /\ t = t'.
Proof.
  revert n'. induction n as [|c n IH]; intros n' Heq Hn Hn'.
  - destruct n' as [|d n']; cbn [String.append] in Heq.
    + by injection Heq as ->.
    + injection Heq as <- _. done.
  - cbn [lacks] in Hn. apply andb_prop in Hn as [Hc Hn].
    destruct n' as [|d n']; cbn [String.append] in Heq.
    + injection Heq as -> _. done.
    + injection Heq as -> Heq. cbn [lacks] in Hn'.
      apply andb_prop in Hn' as [_ Hn'].
      destruct (IH n' Heq Hn Hn') as [-> ->]. done.
Qed.

Lemma rev_string_length acc s :
  String.length (JS.rev_string acc s) = (String.length s + String.length acc)%nat.
Proof.
  revert acc. induction s as [|d s IH]; intros acc; simpl; [done|].
  rewrite IH. simpl. lia.
Qed.

Lemma trim_length s : (String.length (JS.trim s) <= String.length s)%nat.
Proof.
  unfold JS.trim. rewrite rev_string_length. simpl.
  pose proof (trimStart_length (rev (JS.trimStart s))) as H1.
  rewrite rev_string_length in H1. simpl in H1.
  pose proof (trimStart_length s). lia.
Qed.

(** The write under the legacy-schema key does not disturb what is read
    back under the current-schema key: either it goes to another cookie, or
    the value it leaves does not start with what the current-schema key
    has behind its first [=]. *)
Lemma legacy_write_apart cp cid key v n t n2 t2 :
  lacks "=" cid = true ->
  (cp +:+ "." +:+ cid +:+ "." +:+ key) +:+ "=" = n +:+ "=" +:+ t ->
  lacks "=" n = true ->
  (cp +:+ "." +:+ key) +:+ "=" = n2 +:+ "=" +:+ t2 ->
  lacks "=" n2 = true ->
  JS.trim n2 = n ->
  String.prefix t (JS.trimStart t2 +:+ v) = false.
Proof.
  intros Hcid H1 Hn H2 Hn2 Htrim.
  destruct (string_cut "=" (cp +:+ ".")) as [Hcp|(a & b & Hab & Ha)].
  - exfalso. destruct (first_cut key) as (ks & kt & Hk & Hks & _).
    assert (E1 : n = (cp +:+ ".") +:+ cid +:+ "." +:+ ks).
    { apply (cut_unique n t _ kt); [|done|].
      - rewrite <- H1, !String_append_assoc. do 4 f_equal. exact Hk.
      - rewrite lacks_app, Hcp. by rewrite !lacks_app, Hcid, Hks. }
    assert (E2 : n2 = (cp +:+ ".") +:+ ks).
    { apply (cut_unique n2 t2 _ kt); [|done|].
      - rewrite <- H2, !String_append_assoc. do 2 f_equal. exact Hk.
      - by rewrite lacks_app, Hcp, Hks. }
    pose proof (trim_length n2) as Hlen. rewrite Htrim, E1, E2 in Hlen.
    rewrite !String_length_app in Hlen. simpl in Hlen. lia.
  - assert (E1 : n = a /\ t = b +:+ cid +:+ "." +:+ key +:+ "=").
    { apply cut_unique; [|done..]. rewrite <- H1.
      rewrite <- (String_append_assoc cp "." _), Hab.
      by rewrite !String_append_assoc. }
    assert (E2 : n2 = a /\ t2 = b +:+ key +:+ "=").
    { apply cut_unique; [|done..]. rewrite <- H2.
      rewrite <- (String_append_assoc cp "." _), Hab.
      by rewrite !String_append_assoc. }
    destruct E1 as [_ ->], E2 as [_ ->]. by apply prefix_shifted_behind.
Qed.

Section MirrorRead.
Variable host : JS.Host.
Variable now : Z.
Variable v : string.
Hypothesis Hv : cookieValue v = true.

Local Abbreviation assign p j :=
  (JS.cookie_assign host now (cookieString host now p v None) j).

Lemma cookieValue_trim : JS.trim v = v.
Proof.
  unfold cookieValue in Hv. apply andb_prop in Hv as [_ Ht].
  by apply String_eqb_true.
Qed.

(** After the write under a name, reading under that name gives the value
    or nothing. *)
Lemma own_write_read p n t j :
  lacks ";" p = true ->
  p +:+ "=" = n +:+ "=" +:+ t -> lacks "=" n = true ->
  t = "" \/ (exists u, t = u +:+ "=") ->
  cookieName n = true ->
  valueBehind t (jar_get n (assign p j)) = v
  \/ valueBehind t (jar_get n (assign p j)) = "".
Proof.
  intros Hp Hcut Hn Ht Hname.
  destruct (cookieName_inv n Hname) as (Hne & _ & _ & Htrim).
  rewrite (cookie_assign_mirror host now p v n t j) by done.
  rewrite Htrim. destruct n as [|c n]; [done|]. cbn [JS.truthy].
  rewrite jar_get_put_eq, trim_behind by (done || apply cookieValue_trim).
  by apply valueBehind_own.
Qed.

(** A further write keeps that, unless it goes to the same cookie with a
    value that starts with [t]. *)
Lemma other_write_read p2 n2 t2 n t j :
  lacks ";" p2 = true ->
  p2 +:+ "=" = n2 +:+ "=" +:+ t2 -> lacks "=" n2 = true ->
  t2 = "" \/ (exists u, t2 = u +:+ "=") ->
  (JS.trim n2 = n -> String.prefix t (JS.trimStart t2 +:+ v) = false) ->
  valueBehind t (jar_get n j) = v \/ valueBehind t (jar_get n j) = "" ->
  valueBehind t (jar_get n (assign p2 j)) = v
  \/ valueBehind t (jar_get n (assign p2 j)) = "".
Proof.
  intros Hp Hcut Hn2 Ht2 Hapart Hj.
  rewrite (cookie_assign_mirror host now p2 v n2 t2 j) by done.
  destruct (JS.truthy (JS.trim n2)); [|done].
  destruct (decide (JS.trim n2 = n)) as [Heq|Hne].
  - right. rewrite Heq, jar_get_put_eq.
    rewrite trim_behind by (done || apply cookieValue_trim).
    unfold valueBehind. by rewrite (Hapart Heq).
  - by rewrite jar_get_put_ne.
Qed.

End MirrorRead.

Lemma generateCacheKey_shapes Constants this key :
  AuthCache.generateCacheKey Constants this key false
  = AuthCache.generateCacheKey Constants this key true
  \/ (AuthCache.generateCacheKey Constants this key true
      = cachePrefix Constants +:+ "." +:+ AuthCache.clientId this +:+ "." +:+ key
      /\ AuthCache.generateCacheKey Constants this key false
         = cachePrefix Constants +:+ "." +:+ key).
Proof.
  unfold AuthCache.generateCacheKey. destruct (JS.JSON_parse key); [by left|].
  destruct (_ || _)%bool; [by left|by right].
Qed.

Lemma findCookie_read n t j :
  lacks "=" n = true -> storeJar j = true ->
  BrowserStorage.findCookie (n +:+ "=" +:+ t) (JS.split (JS.cookie_read j) ";")
  = valueBehind t (jar_get n j).
Proof. intros Hn Hj. by apply (findCookie_read_cut n t j ""). Qed.

Section MirroredRoundTrip.
Variable host : JS.Host.
Variable Constants : ConstantsT.
Variable this : AuthCache.Object.

Local Abbreviation generateCacheKey := (AuthCache.generateCacheKey Constants this).

(** The cookies after a mirrored [setItem], read under the current-schema
    key: the value written, or nothing. *)
Lemma written_cookie key v s :
  cookieValue v = true ->
  storeJar (jar s) = true ->
  (AuthCache.rollbackEnabled this = true ->
   lacks "=" (AuthCache.clientId this) = true) ->
  storeJar (jar (written host Constants this key v true s)) = true
  /\ (BrowserStorage.findCookie (generateCacheKey key true +:+ "=")
        (JS.split (JS.cookie_read (jar (written host Constants this key v true s)))
           ";") = v
      \/ BrowserStorage.findCookie (generateCacheKey key true +:+ "=")
           (JS.split (JS.cookie_read (jar (written host Constants this key v true s)))
              ";") = "").
Proof.
  intros Hv Hj Hcid.
  assert (Hstore : storeJar (jar (written host Constants this key v true s)) = true).
  { unfold written, mirrored.
    destruct (AuthCache.rollbackEnabled this); simpl;
      by repeat apply storeJar_cookie_assign. }
  split; [done|].
  destruct (lacks ";" (generateCacheKey key true)) eqn:Hsemi.
  2: { right. apply findCookie_semicolon; [|apply split_pieces].
       by rewrite lacks_app, Hsemi. }
  destruct (first_cut (generateCacheKey key true)) as (n & t & Hcut & Hn & Ht).
  rewrite Hcut.
  rewrite findCookie_read by done.
  destruct (cookieName n) eqn:Hname.
  2: { right. rewrite jar_get_no_cookieName by done. apply valueBehind_empty. }
  pose proof (generateCacheKey_fixed Constants this) as Hidem.
  unfold written, mirrored.
  destruct (AuthCache.rollbackEnabled this) eqn:Hroll; simpl; rewrite !Hidem.
  - destruct (generateCacheKey_shapes Constants this key) as [->|[E1 E2]].
    + by apply own_write_read.
    + destruct (first_cut (generateCacheKey key false)) as (n2 & t2 & Hcut2 & Hn2 & Ht2).
      assert (Hsemi2 : lacks ";" (generateCacheKey key false) = true).
      { rewrite E1 in Hsemi. rewrite E2. rewrite !lacks_app in Hsemi.
        rewrite !lacks_app.
        repeat (apply andb_prop in Hsemi as [? Hsemi]).
        repeat (apply andb_true_intro; split); done. }
      assert (Hapart : JS.trim n2 = n ->
                       String.prefix t (JS.trimStart t2 +:+ v) = false).
      { rewrite E1 in Hcut. rewrite E2 in Hcut2.
        by apply (legacy_write_apart (cachePrefix Constants)
                    (AuthCache.clientId this) key v n t n2 t2); auto. }
      apply (other_write_read host (clock s) v Hv _ n2 t2); try done.
      apply (other_write_read host (clock s) v Hv _ n2 t2); try done.
      by apply own_write_read.
  - by apply own_write_read.
Qed.

End MirroredRoundTrip.

End CookieStore.

(** ** Round trip *)

Section RoundTrip.
Context {T : Type} `{ICustomStorage T}.
Variable contents : T -> gmap string string.
Variable host : JS.Host.
Variable Constants : ConstantsT.
Variable this : AuthCache.Object.
Variable r : StorageRef.
Hypothesis Hr : honours r contents.
Hypothesis Hloc : refOf (AuthCache.cacheLocation this) = Some r.

Local Abbreviation generateCacheKey := (AuthCache.generateCacheKey Constants this).

Lemma getItemCookie_spec cName w s :
  snapshot contents r w = Some s ->
  AuthCache.getItemCookie Constants this cName w
  = Ok (BrowserStorage.findCookie (generateCacheKey cName true +:+ "=")
          (JS.split (JS.cookie_read (jar s)) ";")) w.
Proof.
  intros Hs.
  assert (Hread : returns (document_cookie : M T _) w
            (fun a w' => a = JS.cookie_read (jar s) /\ w' = w)).
  { by eapply document_cookie_spec. }
  destruct Hread as (a & w' & Hrun & -> & ->).
  unfold AuthCache.getItemCookie, BrowserStorage.getItemCookie, mbind, M_bind.
  by rewrite Hrun.
Qed.

Lemma stored_written_lookup key value enableCookieStorage s :
  stored (written host Constants this key value enableCookieStorage s)
  !! generateCacheKey key true = Some value.
Proof.
  unfold written.
  destruct (AuthCache.rollbackEnabled this), enableCookieStorage; simpl;
    rewrite ?lookup_insert; repeat case_decide; try done;
    by rewrite lookup_insert_eq.
Qed.

Lemma jar_written key value s :
  cookieName (generateCacheKey key true) = true ->
  cookieName (generateCacheKey key false) = true ->
  cookieValue value = true ->
  wfJar (jar s) = true ->
  wfJar (jar (written host Constants this key value true s)) = true
  /\ jar_get (generateCacheKey key true)
       (jar (written host Constants this key value true s)) = value.
Proof.
  intros H1 H2 Hv Hj. unfold written, mirrored.
  pose proof (generateCacheKey_fixed Constants this) as Hidem.
  destruct (AuthCache.rollbackEnabled this); simpl;
    rewrite !Hidem, !cookie_assign_put by done.
  - split; [by repeat apply wfJar_put|].
    destruct (decide (generateCacheKey key false = generateCacheKey key true))
      as [->|Hne].
    + apply jar_get_put_eq.
    + rewrite !jar_get_put_ne by done. apply jar_get_put_eq.
  - split; [by apply wfJar_put|]. apply jar_get_put_eq.
Qed.

Lemma storeJar_written key value enableCookieStorage s :
  storeJar (jar s) = true ->
  storeJar (jar (written host Constants this key value enableCookieStorage s)) = true.
Proof.
  intros Hj. unfold written, mirrored.
  destruct (AuthCache.rollbackEnabled this), enableCookieStorage; simpl;
    by repeat apply storeJar_cookie_assign.
Qed.

(** C5, as amended: on a storage area of the browser, or on a
    host-supplied object that honours the capability contract, [setItem]
    followed by [getItem] of the same key returns the value, for every key,
    when cookie mirroring is off.  With mirroring on for both calls it does
    so for every key when the value has no [;] and no blank at either end,
    the cookies present are as the cookie store keeps them, and, in
    migration mode, the client identifier has no [=]; the cookies are then
    again as the store keeps them. *)
Theorem setItem_getItem_roundtrip key value (enableCookieStorage : bool) w s :
  snapshot contents r w = Some s ->
  (enableCookieStorage = true ->
     cookieValue value = true
     /\ storeJar (jar s) = true
     /\ (AuthCache.rollbackEnabled this = true ->
         lacks "=" (AuthCache.clientId this) = true)) ->
  exists w' s',
    AuthCache.setItem host Constants this key value enableCookieStorage w = Ok tt w'
    /\ AuthCache.getItem host Constants this key enableCookieStorage w'
       = Ok (Some value) w'
    /\ snapshot contents r w' = Some s'
    /\ (storeJar (jar s) = true -> storeJar (jar s') = true).
Proof.
  intros Hs Hsafe.
  cut (returns (AuthCache.setItem host Constants this key value enableCookieStorage) w
         (fun _ w' => exists s',
            AuthCache.getItem host Constants this key enableCookieStorage w'
            = Ok (Some value) w'
            /\ snapshot contents r w' = Some s'
            /\ (storeJar (jar s) = true -> storeJar (jar s') = true))).
  { intros ([] & w' & Hrun & s' & Hrest). by exists w', s'. }
  eapply setItem_spec; [done..|]. intros w' Hs'.
  eexists. split; [|split; [exact Hs'|by apply storeJar_written]].
  pose proof (stored_written_lookup key value enableCookieStorage s) as Hlook.
  assert (Hstore : (storage ← BrowserStorage.getStorage (AuthCache.super host Constants this);
                    storage_getItem storage (generateCacheKey key true)) w'
                   = Ok (Some value) w').
  { assert (Hget : returns
              (storage ← BrowserStorage.getStorage (AuthCache.super host Constants this);
               storage_getItem storage (generateCacheKey key true)) w'
              (fun a w'' => a = Some value /\ w'' = w')).
    { apply returns_bind. eapply getStorage_spec; [done..|].
      eapply storage_getItem_spec; [done..|]. by rewrite Hlook. }
    by destruct Hget as (a & w'' & Hrun & -> & ->). }
  unfold AuthCache.getItem, BrowserStorage.getItem.
  destruct enableCookieStorage; [|exact Hstore].
  destruct Hsafe as (Hv & Hj & Hcid); [done|].
  destruct (written_cookie host Constants this key value s Hv Hj Hcid)
    as (_ & Hread).
  pose proof (generateCacheKey_fixed Constants this) as Hidem.
  assert (Hcookie : exists c,
            AuthCache.getItemCookie Constants this (generateCacheKey key true) w'
            = Ok c w' /\ (c = value \/ c = "")).
  { eexists. split; [|exact Hread].
    by rewrite (getItemCookie_spec _ _ _ Hs'), Hidem. }
  destruct Hcookie as (c & Hcookie & Hc).
  cbn [BrowserStorage.this_getItemCookie AuthCache.super].
  unfold mbind at 1, M_bind at 1. unfold mbind at 1, M_bind at 1.
  rewrite Hcookie. cbn [mret M_ret].
  destruct (JS.truthy c) eqn:Htruthy; [|exact Hstore].
  unfold mbind, M_bind. rewrite Hcookie.
  destruct Hc as [->| ->]; done.
Qed.

End RoundTrip.

(** C5, counterexample to the unamended statement: with cookie mirroring
    on, a value that contains [;] is cut at that character by the cookie
    store, and [getItem] returns the cut value from the cookie. *)
Lemma setItem_getItem_mirrored_semicolon :
  exists w',
    AuthCache.setItem Sample.host Sample.Constants Sample.cache
      "idtoken" "a;b" true (Sample.browser ∅) = Ok tt w'
    /\ AuthCache.getItem Sample.host Sample.Constants Sample.cache
         "idtoken" true w' = Ok (Some "a") w'
    /\ localEntry "msal.app1.idtoken" w' = Some "a;b".
Proof.
  eexists. split; [vm_compute; reflexivity|]. split; by vm_compute.
Qed.

(** The value has to be without blanks at its ends: the cookie store trims
    it, and [getItem] returns the trimmed value from the cookie. *)
Example setItem_getItem_mirrored_blank :
  exists w',
    AuthCache.setItem Sample.host Sample.Constants Sample.cache
      "idtoken" " a" true (Sample.browser ∅) = Ok tt w'
    /\ AuthCache.getItem Sample.host Sample.Constants Sample.cache
         "idtoken" true w' = Ok (Some "a") w'.
Proof. eexists. split; [vm_compute; reflexivity|]. by vm_compute. Qed.

(** The client identifier has to be without [=]: here both physical keys
    name the cookie [msal.k], the write under the legacy-schema key leaves
    it the value, and that value starts with what the current-schema key
    has behind its [=]. *)
Example setItem_getItem_mirrored_client :
  lacks "=" (AuthCache.clientId cache_odd_client) = false
  /\ cookieValue "z.k=q" = true
  /\ exists w',
       AuthCache.setItem Sample.host Sample.Constants cache_odd_client
         "k" "z.k=q" true (Sample.browser ∅) = Ok tt w'
       /\ AuthCache.getItem Sample.host Sample.Constants cache_odd_client
            "k" true w' = Ok (Some "q") w'.
Proof.
  split; [by vm_compute|]. split; [by vm_compute|].
  eexists. split; [vm_compute; reflexivity|]. by vm_compute.
Qed.

(** The cookies present have to be as the store keeps them.  A cookie whose
    name ends with a blank, which no assignment creates, is found under the
    key that ends with that blank, while the write went to the trimmed
    name; and of two cookies of one name, which no assignment creates
    either, the second is found when the value written to the first does
    not start with what the key has behind its [=]. *)
Example setItem_getItem_mirrored_foreign_cookies :
  (storeJar [("msal.app1.k ", "old")] = false
   /\ exists w',
        AuthCache.setItem Sample.host Sample.Constants Sample.cache
          "k " "v" true (world_with_cookies [("msal.app1.k ", "old")]) = Ok tt w'
        /\ AuthCache.getItem Sample.host Sample.Constants Sample.cache
             "k " true w' = Ok (Some "old") w')
  /\ (storeJar [("msal.app1.a", "x"); ("msal.app1.a", " b=zzz")] = false
      /\ exists w',
           AuthCache.setItem Sample.host Sample.Constants Sample.cache
             "a= b" "v" true
             (world_with_cookies [("msal.app1.a", "x"); ("msal.app1.a", " b=zzz")])
           = Ok tt w'
           /\ AuthCache.getItem Sample.host Sample.Constants Sample.cache
                "a= b" true w' = Ok (Some "zzz") w').
Proof.
  split; (split; [by vm_compute|]);
    (eexists; split; [vm_compute; reflexivity|]; by vm_compute).
Qed.

Lemma setItem_getItem_roundtrip_witness :
  (exists w' s',
     AuthCache.setItem Sample.host Sample.Constants Sample.cache
       "a=b; c" "a b" true (Sample.browser ∅) = Ok tt w'
     /\ AuthCache.getItem Sample.host Sample.Constants Sample.cache
          "a=b; c" true w' = Ok (Some "a b") w'
     /\ snapshot (fun m => m) LocalRef w' = Some s'
     /\ (storeJar [] = true -> storeJar (jar s') = true))
  /\ (exists w' s',
        AuthCache.setItem Sample.host Sample.Constants custom_cache
          "idtoken" "a;b" false (Sample.browser ∅) = Ok tt w'
        /\ AuthCache.getItem Sample.host Sample.Constants custom_cache
             "idtoken" false w' = Ok (Some "a;b") w'
        /\ snapshot (fun m => m) CustomRef w' = Some s'
        /\ (storeJar [] = true -> storeJar (jar s') = true)).
Proof.
  split.
  - apply (setItem_getItem_roundtrip (fun m => m) Sample.host Sample.Constants
             Sample.cache LocalRef I eq_refl "a=b; c" "a b" true
             (Sample.browser ∅) (sample_snapshot ∅) eq_refl).
    intros _. split; [vm_compute; reflexivity|].
    split; [reflexivity|]. intros _. vm_compute. reflexivity.
  - apply (setItem_getItem_roundtrip (fun m => m) Sample.host Sample.Constants
             custom_cache CustomRef MemoryStorage_Contract eq_refl
             "idtoken" "a;b" false
             (Sample.browser ∅) (sample_snapshot ∅) eq_refl).
    intros Hfalse. discriminate Hfalse.
Defined.

(** ** Operations on a storage that cannot be used *)

Section Unimplemented.
Variable host : JS.Host.
Variable Constants : ConstantsT.
Variable TemporaryCacheKeys : TemporaryCacheKeysT.
Variable this : AuthCache.Object.

(** X1: on the class [CustomStorage] itself, which overrides nothing, every
    operation of the cache that reaches the storage throws the
    not-implemented error naming the method of the storage it reached
    first, and changes nothing; for the scans that method is [getAllKeys],
    named [getAllKeysgetAllKeys] in the error.  A [getItem] with cookie
    mirroring reads the cookie first: a cookie that is not empty is
    returned and the storage is not reached; with an empty one the call
    throws the error of [getItem], and when reading the cookie fails, that
    failure is the outcome. *)
Theorem CustomStorage_methods_not_implemented (w : World unit) :
  AuthCache.cacheLocation this = Some (CustomObject true) ->
  (forall key value enable,
     AuthCache.setItem host Constants this key value enable w
     = Throw (JS.CustomStorageNotImplementedError "setItem") w)
  /\ (forall key,
        AuthCache.getItem host Constants this key false w
        = Throw (JS.CustomStorageNotImplementedError "getItem") w)
  /\ (forall key,
        AuthCache.getItem host Constants this key true w
        = match AuthCache.getItemCookie Constants this
                  (AuthCache.generateCacheKey Constants this key true) w with
          | Ok c _ =>
              if JS.truthy c then Ok (Some c) w
              else Throw (JS.CustomStorageNotImplementedError "getItem") w
          | Throw e _ => Throw e w
          end)
  /\ (forall key,
        AuthCache.removeItem host Constants this key w
        = Throw (JS.CustomStorageNotImplementedError "removeItem") w)
  /\ BrowserStorage.clear (AuthCache.super host Constants this) w
     = Throw (JS.CustomStorageNotImplementedError "clear") w
  /\ AuthCache.resetCacheItems host Constants this w
     = Throw (JS.CustomStorageNotImplementedError "getAllKeysgetAllKeys") w
  /\ (forall state,
        AuthCache.resetTempCacheItems host Constants TemporaryCacheKeys this state w
        = Throw (JS.CustomStorageNotImplementedError "getAllKeysgetAllKeys") w)
  /\ (forall clientId homeAccountIdentifier,
        AuthCache.getAllAccessTokens host Constants this clientId
          homeAccountIdentifier w
        = Throw (JS.CustomStorageNotImplementedError "getAllKeysgetAllKeys") w).
Proof.
  intros Hloc.
  split; [|split; [|split]].
  4: repeat split.
  all: intros;
    unfold AuthCache.setItem, AuthCache.getItem, AuthCache.removeItem,
      AuthCache.resetCacheItems, AuthCache.resetTempCacheItems,
      AuthCache.getAllAccessTokens, BrowserStorage.setItem, BrowserStorage.getItem,
      BrowserStorage.removeItem, BrowserStorage.clear, BrowserStorage.getStorage,
      mbind, M_bind;
    cbn [mret M_ret AuthCache.super BrowserStorage.cacheLocation
         BrowserStorage.this_getItemCookie]; rewrite ?Hloc; try done.
  pose proof (readonly_document_cookie (T := unit) w) as Hread.
  unfold AuthCache.getItemCookie, BrowserStorage.getItemCookie, mbind, M_bind.
  destruct (document_cookie w) as [cookie w'|e w'] eqn:Hcookie; subst w'; [|done].
  cbn [mret M_ret].
  destruct (JS.truthy _); [|done]. by rewrite Hcookie.
Qed.

End Unimplemented.

Lemma CustomStorage_methods_not_implemented_witness :
  AuthCache.setItem Sample.host Sample.Constants custom_cache "idtoken" "v" false
    {| window := None; custom := tt; now := 0; Storage_instance := None |}
  = Throw (JS.CustomStorageNotImplementedError "setItem")
      {| window := None; custom := tt; now := 0; Storage_instance := None |}.
Proof.
  apply (CustomStorage_methods_not_implemented Sample.host Sample.Constants
           Sample.TemporaryCacheKeys custom_cache _ eq_refl).
Defined.

Section MissingArea.
Context {T : Type} `{ICustomStorage T}.
Variable host : JS.Host.
Variable Constants : ConstantsT.
Variable TemporaryCacheKeys : TemporaryCacheKeysT.
Variable this : AuthCache.Object.


End MissingArea.


Section Failures.
Context {T : Type} `{ICustomStorage T}.
Variable host : JS.Host.
Variable Constants : ConstantsT.
Variable TemporaryCacheKeys : TemporaryCacheKeysT.
Variable this : AuthCache.Object.

Lemma getStorage_unsupported (w : World T) :
  refOf (AuthCache.cacheLocation this) = None ->
  BrowserStorage.getStorage (AuthCache.super host Constants this) w
  = Throw JS.UnsupportedStorageType w.
Proof.
  unfold BrowserStorage.getStorage. simpl.
  by destruct (AuthCache.cacheLocation this) as [[| |[]]|].
Qed.

(** X3: when the cache location is neither of the two storage names nor an
    instance of [CustomStorage] (or was never set), every operation that
    reaches the storage throws the unsupported-storage error before
    anything is written: storage, cookies and the rest are as before. *)
Theorem unsupported_storage_type_throws (w : World T) :
  refOf (AuthCache.cacheLocation this) = None ->
  (forall key value enable,
     AuthCache.setItem host Constants this key value enable w
     = Throw JS.UnsupportedStorageType w)
  /\ (forall key,
        AuthCache.getItem host Constants this key false w
        = Throw JS.UnsupportedStorageType w)
  /\ (forall key,
        AuthCache.removeItem host Constants this key w
        = Throw JS.UnsupportedStorageType w)
  /\ BrowserStorage.clear (AuthCache.super host Constants this) w
     = Throw JS.UnsupportedStorageType w
  /\ AuthCache.resetCacheItems host Constants this w
     = Throw JS.UnsupportedStorageType w
  /\ (forall state,
        AuthCache.resetTempCacheItems host Constants TemporaryCacheKeys this state w
        = Throw JS.UnsupportedStorageType w)
  /\ (forall clientId homeAccountIdentifier,
        AuthCache.getAllAccessTokens host Constants this clientId
          homeAccountIdentifier w
        = Throw JS.UnsupportedStorageType w).
Proof.
  intros Hloc. pose proof (getStorage_unsupported w Hloc) as Hst.
  repeat split; intros;
    unfold AuthCache.setItem, AuthCache.getItem, AuthCache.removeItem,
      AuthCache.resetCacheItems, AuthCache.resetTempCacheItems,
      AuthCache.getAllAccessTokens, BrowserStorage.setItem, BrowserStorage.getItem,
      BrowserStorage.removeItem, BrowserStorage.clear, mbind, M_bind;
    cbn [mret M_ret]; by rewrite Hst.
Qed.

End Failures.

Lemma unsupported_storage_type_throws_witness :
  AuthCache.setItem Sample.host Sample.Constants foreign_cache "idtoken" "v" true
    (Sample.browser ∅)
  = Throw JS.UnsupportedStorageType (Sample.browser ∅).
Proof.
  destruct (unsupported_storage_type_throws Sample.host Sample.Constants
              Sample.TemporaryCacheKeys foreign_cache (Sample.browser ∅) eq_refl)
    as [Hset _].
  apply Hset.
Defined.

(** ** The constructor of AuthCache and the migration it starts *)

Section Constructor.
Context {T : Type} `{ICustomStorage T}.
Variable host : JS.Host.
Variable Constants : ConstantsT.
Variable PersistentCacheKeys : PersistentCacheKeysT.

Lemma readonly_BrowserStorage_getItem this key :
  readonly (BrowserStorage.getItem (AuthCache.super host Constants this) key false).
Proof.
  unfold BrowserStorage.getItem.
  apply readonly_bind; [apply readonly_ret|]. intros [|].
  - apply readonly_bind; [|intros; apply readonly_ret].
    simpl. unfold AuthCache.getItemCookie, BrowserStorage.getItemCookie.
    apply readonly_bind; [apply readonly_document_cookie|intros; apply readonly_ret].
  - apply readonly_bind; [apply readonly_getStorage|].
    intros r. apply readonly_storage_getItem.
Qed.

(** X4: in a browser the constructor of [AuthCache] returns for every
    cache location, with the client identifier it was given and migration
    mode on, and leaves storage and cookies as they were: a failure of the
    first read of the migration stays in the promise of the call that was
    not awaited.  Where nothing is bound to [window], reading the name
    throws a reference error before the guard of the base class is
    evaluated. *)
Theorem AuthCache_constructor_returns clientId cacheLocation storeAuthStateInCookie
    (w : World T) :
  match window w with
  | None =>
      AuthCache.constructor host Constants PersistentCacheKeys clientId cacheLocation
        storeAuthStateInCookie w
      = Throw JS.ReferenceError w
  | Some _ =>
      exists first,
        AuthCache.constructor host Constants PersistentCacheKeys clientId
          cacheLocation storeAuthStateInCookie w
        = Ok {| AuthCache.object :=
                  {| AuthCache.cacheLocation := Some cacheLocation;
                     AuthCache.clientId := clientId;
                     AuthCache.rollbackEnabled := true |};
                AuthCache.migration := first |} w
  end.
Proof.
  unfold AuthCache.constructor, mbind, M_bind.
  rewrite BrowserStorage_constructor_eq. destruct (window w) as [win|]; [|done].
  unfold AuthCache.migrateCacheEntries_called.
  match goal with |- context [async ?m w] =>
    destruct (async_readonly m w) as [first ->] end.
  - apply readonly_BrowserStorage_getItem.
  - by exists first.
Qed.

End Constructor.

Section Suspended.
Context {T : Type} `{ICustomStorage T}.
Variable host : JS.Host.
Variable Constants : ConstantsT.
Variable this : AuthCache.Object.

(** An awaited [setItem] is its two parts run one after the other. *)
Lemma setItem_called_resumed key value enableCookieStorage (w : World T) :
  AuthCache.setItem host Constants this key value enableCookieStorage w
  = (first ← AuthCache.setItem_called host Constants this key value
               enableCookieStorage;
     whole ← AuthCache.setItem_resumed host Constants this key value
               enableCookieStorage first;
     await whole) w.
Proof.
  unfold AuthCache.setItem, AuthCache.setItem_called, AuthCache.setItem_resumed,
    async, mbind, M_bind.
  destruct (BrowserStorage.setItem _ _ _ _ w) as [[] w1|e w1]; [|done].
  destruct (AuthCache.rollbackEnabled this); [|done].
  by destruct (BrowserStorage.setItem _ _ _ _ w1) as [[] w2|e w2].
Qed.

End Suspended.

Section MigrateRun.
Context {T : Type} `{ICustomStorage T}.
Variable contents : T -> gmap string string.
Variable host : JS.Host.
Variable Constants : ConstantsT.
Variable this : AuthCache.Object.
Variable r : StorageRef.
Hypothesis Hr : honours r contents.
Hypothesis Hloc : refOf (AuthCache.cacheLocation this) = Some r.

Local Abbreviation generateCacheKey := (AuthCache.generateCacheKey Constants this).
Local Abbreviation super := (AuthCache.super host Constants this).

Lemma BrowserStorage_getItem_spec key w s :
  snapshot contents r w = Some s ->
  BrowserStorage.getItem super key false w = Ok (stored s !! key) w.
Proof.
  intros Hs.
  assert (Hget : returns (BrowserStorage.getItem super key false) w
            (fun a w' => a = stored s !! key /\ w' = w)).
  { unfold BrowserStorage.getItem. apply returns_bind.
    apply returns_ret. apply returns_bind. eapply getStorage_spec; [done..|].
    by eapply storage_getItem_spec. }
  by destruct Hget as (a & w' & Hrun & -> & ->).
Qed.

Lemma returns_async {A} (m : M T A) w (Q : JS.Promise A -> World T -> Prop) :
  returns m w (fun a w' => Q (JS.Fulfilled a) w') -> returns (async m) w Q.
Proof.
  intros (a & w' & Hm & HQ). exists (JS.Fulfilled a), w'.
  unfold async. by rewrite Hm.
Qed.

Lemma cookiesOnlyIf_refl flag s : cookiesOnlyIf flag s s.
Proof. by split. Qed.

Lemma cookiesOnlyIf_trans flag s1 s2 s3 :
  cookiesOnlyIf flag s1 s2 -> cookiesOnlyIf flag s2 s3 -> cookiesOnlyIf flag s1 s3.
Proof.
  intros [Hc1 Hj1] [Hc2 Hj2]. split; [congruence|].
  intros Hf. rewrite Hj2, Hj1; done.
Qed.

(** One write of the base class: the entry is stored, and the cookies
    change only if mirroring is on. *)
Lemma BrowserStorage_setItem_stored key value flag w s
    (Q : unit -> World T -> Prop) :
  snapshot contents r w = Some s ->
  (forall w' s', snapshot contents r w' = Some s' ->
                 stored s' = <[key := value]> (stored s) ->
                 cookiesOnlyIf flag s s' -> Q tt w') ->
  returns (BrowserStorage.setItem super key value flag) w Q.
Proof.
  intros Hs HQ. eapply BrowserStorage_setItem_spec; [done..|].
  intros w' Hs'. eapply HQ; [exact Hs'|..]; destruct flag; try done.
Qed.

Lemma forEach_duplicateCacheEntry flag kvs w s :
  snapshot contents r w = Some s ->
  returns
    (forEach kvs (fun '(cacheKey, value) =>
       AuthCache.duplicateCacheEntry host Constants this cacheKey value flag)) w
    (fun suspended w' =>
       suspended = map (fun '(_, value) =>
                          if JS.truthy_nullable value
                          then Some (JS.Fulfilled tt) else None) kvs
       /\ exists s', snapshot contents r w' = Some s'
            /\ stored s' = copyAll (fun k => generateCacheKey k true) kvs (stored s)
            /\ cookiesOnlyIf flag s s').
Proof.
  revert w s. induction kvs as [|[k v] kvs IH]; intros w s Hs.
  - apply returns_ret. split; [done|]. exists s.
    split; [done|]. split; [done|apply cookiesOnlyIf_refl].
  - cbn [forEach copyAll foldl map]. apply returns_bind.
    unfold AuthCache.duplicateCacheEntry at 1.
    destruct (JS.truthy_nullable v) eqn:Hv.
    + apply returns_bind. unfold AuthCache.setItem_called. apply returns_async.
      eapply BrowserStorage_setItem_stored; [done|]. intros w1 s1 Hs1 Hst1 Hc1.
      apply returns_ret. apply returns_bind.
      eapply returns_weaken; [by apply (IH w1 s1)|].
      intros ps w2 (-> & s2 & Hs2 & Hst2 & Hc2). apply returns_ret.
      split; [done|]. exists s2. split; [done|]. split.
      * rewrite Hst2, Hst1. done.
      * by eapply cookiesOnlyIf_trans.
    + apply returns_ret. apply returns_bind.
      eapply returns_weaken; [by apply (IH w s)|].
      intros ps w2 (-> & s2 & Hs2 & Hst2 & Hc2). apply returns_ret.
      split; [done|]. by exists s2.
Qed.

Lemma setItem_resumed_spec key value flag w s
    (Q : JS.Promise unit -> World T -> Prop) :
  snapshot contents r w = Some s ->
  (forall p w' s', snapshot contents r w' = Some s' ->
                   stored s' = (if AuthCache.rollbackEnabled this
                                then <[generateCacheKey key false := value]> (stored s)
                                else stored s) ->
                   cookiesOnlyIf flag s s' -> Q p w') ->
  returns (AuthCache.setItem_resumed host Constants this key value flag
             (JS.Fulfilled tt)) w Q.
Proof.
  intros Hs HQ. unfold AuthCache.setItem_resumed. apply returns_async.
  destruct (AuthCache.rollbackEnabled this).
  - eapply BrowserStorage_setItem_stored; [done|]. intros w1 s1 Hs1 Hst1 Hc1.
    by eapply HQ.
  - apply returns_ret. eapply HQ; [done..|]. apply cookiesOnlyIf_refl.
Qed.

Lemma copyAll_cons f k v kvs (m : gmap string string) :
  copyAll f ((k, v) :: kvs) m
  = copyAll f kvs (if JS.truthy_nullable v then <[f k := default "" v]> m else m).
Proof. reflexivity. Qed.

Lemma for_of_setItem_resumed flag kvs w s :
  snapshot contents r w = Some s ->
  returns
    (for_of (zip kvs (map (fun '(_, value) =>
                             if JS.truthy_nullable value
                             then Some (JS.Fulfilled tt) else None) kvs))
       (fun '(cacheKey, value, call) =>
          match call with
          | Some first =>
              _ ← AuthCache.setItem_resumed host Constants this cacheKey
                    (default "" value) flag first;
              mret tt
          | None => mret tt
          end)) w
    (fun _ w' =>
       exists s', snapshot contents r w' = Some s'
         /\ stored s' = (if AuthCache.rollbackEnabled this
                         then copyAll (fun k => generateCacheKey k false) kvs (stored s)
                         else stored s)
         /\ cookiesOnlyIf flag s s').
Proof.
  revert w s. induction kvs as [|[k v] kvs IH]; intros w s Hs.
  - apply returns_ret. exists s. split; [done|]. split.
    + by destruct (AuthCache.rollbackEnabled this).
    + apply cookiesOnlyIf_refl.
  - rewrite copyAll_cons. cbn [for_of map zip zip_with]. apply returns_bind.
    destruct (JS.truthy_nullable v) eqn:Hv.
    + apply returns_bind. eapply setItem_resumed_spec; [done|].
      intros p w1 s1 Hs1 Hst1 Hc1. apply returns_ret.
      eapply returns_weaken; [by apply (IH w1 s1)|].
      intros u w2 (s2 & Hs2 & Hst2 & Hc2). exists s2. split; [done|]. split.
      * rewrite Hst2, Hst1. by destruct (AuthCache.rollbackEnabled this).
      * by eapply cookiesOnlyIf_trans.
    + apply returns_ret.
      eapply returns_weaken; [by apply (IH w s)|].
      intros u w2 (s2 & Hs2 & Hst2 & Hc2). by exists s2.
Qed.

End MigrateRun.

Lemma copyAll_lookup_other f kvs (m : gmap string string) key :
  (forall k v, (k, v) ∈ kvs -> JS.truthy_nullable v = true -> f k <> key) ->
  copyAll f kvs m !! key = m !! key.
Proof.
  revert m. induction kvs as [|[k0 v0] kvs IH]; intros m Hother; [done|].
  unfold copyAll in *. cbn [foldl]. rewrite IH.
  - destruct (JS.truthy_nullable v0) eqn:Hv0; [|done].
    apply lookup_insert_ne. apply (Hother k0 v0); [left|done].
  - intros k v Hin. apply Hother. by right.
Qed.

Lemma copyAll_lookup_written f kvs (m : gmap string string) key v :
  (forall k' v', (k', v') ∈ kvs -> JS.truthy_nullable v' = true -> f k' = key ->
                 v' = Some v) ->
  m !! key = Some v
  \/ (exists k, (k, Some v) ∈ kvs /\ JS.truthy v = true /\ f k = key) ->
  copyAll f kvs m !! key = Some v.
Proof.
  revert m. induction kvs as [|[k0 v0] kvs IH]; intros m Hsame Hsrc.
  - destruct Hsrc as [Hm|(k & Hin & _)]; [done|]. by apply elem_of_nil in Hin.
  - unfold copyAll in *. cbn [foldl]. apply IH.
    + intros k' v' Hin. apply Hsame. by right.
    + destruct Hsrc as [Hm|(k & Hin & Hv & Hk)].
      * left. destruct (JS.truthy_nullable v0) eqn:Hv0; [|done].
        destruct (decide (f k0 = key)) as [Hk0|Hk0].
        -- rewrite (Hsame k0 v0) in * by (done || left). simpl. subst key.
           apply lookup_insert_eq.
        -- by rewrite lookup_insert_ne.
      * apply elem_of_cons in Hin as [[= <- <-]|Hin].
        -- left. simpl. rewrite Hv. subst key. apply lookup_insert_eq.
        -- right. by exists k.
Qed.

Lemma truthy_ne_empty v : JS.truthy v = true <-> v <> "".
Proof. by destruct v. Qed.

Lemma copyAll_ext f g kvs (m : gmap string string) :
  (forall k v, (k, v) ∈ kvs -> f k = g k) -> copyAll f kvs m = copyAll g kvs m.
Proof.
  revert m. induction kvs as [|[k0 v0] kvs IH]; intros m Hfg; [done|].
  unfold copyAll in *. cbn [foldl]. rewrite (Hfg k0 v0) by left.
  apply IH. intros k v Hin. apply (Hfg k v). by right.
Qed.

Section Migrate.
Context {T : Type} `{ICustomStorage T}.
Variable contents : T -> gmap string string.
Variable host : JS.Host.
Variable Constants : ConstantsT.
Variable PersistentCacheKeys : PersistentCacheKeysT.
Variable ErrorCacheKeys : ErrorCacheKeysT.
Variable this : AuthCache.Object.
Variable r : StorageRef.

Local Abbreviation generateCacheKey := (AuthCache.generateCacheKey Constants this).
Local Abbreviation keys := (migrationKeys PersistentCacheKeys ErrorCacheKeys).

Lemma migrateCacheEntries_run flag w s :
  honours r contents ->
  refOf (AuthCache.cacheLocation this) = Some r ->
  snapshot contents r w = Some s ->
  exists w' s',
    AuthCache.migrateCacheEntries host Constants PersistentCacheKeys ErrorCacheKeys
      this flag w = Ok (JS.Fulfilled tt) w'
    /\ snapshot contents r w' = Some s'
    /\ cookiesOnlyIf flag s s'
    /\ stored s'
       = let kvs := map (fun k => (k, stored s !! legacyKey Constants k)) keys in
         let m1 := copyAll (fun k => generateCacheKey k true) kvs (stored s) in
         if AuthCache.rollbackEnabled this
         then copyAll (fun k => generateCacheKey k false) kvs m1
         else m1.
Proof.
  intros Hr Hloc Hs.
  cut (returns (AuthCache.migrateCacheEntries host Constants PersistentCacheKeys
                  ErrorCacheKeys this flag) w
         (fun p w' => p = JS.Fulfilled tt /\ exists s',
            snapshot contents r w' = Some s'
            /\ cookiesOnlyIf flag s s'
            /\ stored s'
               = let kvs := map (fun k => (k, stored s !! legacyKey Constants k)) keys in
                 let m1 := copyAll (fun k => generateCacheKey k true) kvs (stored s) in
                 if AuthCache.rollbackEnabled this
                 then copyAll (fun k => generateCacheKey k false) kvs m1
                 else m1)).
  { intros (p & w' & Hrun & -> & s' & Hs' & Hrest). by exists w', s'. }
  unfold AuthCache.migrateCacheEntries. apply returns_bind.
  unfold AuthCache.migrateCacheEntries_called.
  exists (JS.Fulfilled (stored s !! legacyKey Constants (IDTOKEN PersistentCacheKeys))), w.
  split.
  { unfold async. by rewrite (BrowserStorage_getItem_spec contents host Constants this r Hr Hloc _ _ s). }
  unfold AuthCache.migrateCacheEntries_resumed. apply returns_async. cbv zeta.
  apply returns_bind. eexists _, w. split; [by eapply BrowserStorage_getItem_spec|].
  apply returns_bind. eexists _, w. split; [by eapply BrowserStorage_getItem_spec|].
  apply returns_bind. eexists _, w. split; [by eapply BrowserStorage_getItem_spec|].
  apply returns_bind.
  eapply returns_weaken;
    [by apply (forEach_duplicateCacheEntry contents host Constants this r Hr Hloc)|].
  intros ps w1 (-> & s1 & Hs1 & Hst1 & Hc1).
  eapply returns_weaken;
    [by apply (for_of_setItem_resumed contents host Constants this r Hr Hloc flag _ w1 s1)|].
  intros [] w2 (s2 & Hs2 & Hst2 & Hc2). split; [done|]. exists s2.
  split; [done|]. split; [by eapply cookiesOnlyIf_trans|].
  rewrite Hst2, Hst1. reflexivity.
Qed.

Lemma currentKey_inj k k' :
  currentKey Constants this k = currentKey Constants this k' -> k = k'.
Proof. unfold currentKey. intros Heq. by do 4 apply String.app_inj in Heq. Qed.

Lemma legacyKey_currentKey k k' :
  legacyKey Constants k' = currentKey Constants this k ->
  AuthCache.clientId this +:+ "." +:+ k = k'.
Proof.
  unfold currentKey, legacyKey. intros Heq. by do 2 apply String.app_inj in Heq.
Qed.

(** X5: run from its call to its end on a working storage,
    [migrateCacheEntries] copies each of the four legacy entries (id token,
    client info, error, error description) that holds a non-empty value to
    the key of the current schema, with the same value; where the legacy
    entry is absent or empty the current-schema entry is left as it was; no
    other entry changes, and the cookies change only if mirroring is on. *)
Theorem migrateCacheEntries_copies_legacy_entries flag w s :
  honours r contents ->
  refOf (AuthCache.cacheLocation this) = Some r ->
  snapshot contents r w = Some s ->
  (forall k, k ∈ keys -> namespaced Constants k = false) ->
  (forall k k', k ∈ keys -> k' ∈ keys ->
                AuthCache.clientId this +:+ "." +:+ k <> k') ->
  exists w' s',
    AuthCache.migrateCacheEntries host Constants PersistentCacheKeys ErrorCacheKeys
      this flag w = Ok (JS.Fulfilled tt) w'
    /\ snapshot contents r w' = Some s'
    /\ cookiesOnlyIf flag s s'
    /\ (forall k v, k ∈ keys ->
                    stored s !! legacyKey Constants k = Some v -> v <> "" ->
                    stored s' !! currentKey Constants this k = Some v)
    /\ (forall k, k ∈ keys ->
                  JS.truthy_nullable (stored s !! legacyKey Constants k) = false ->
                  stored s' !! currentKey Constants this k
                  = stored s !! currentKey Constants this k)
    /\ (forall key, key ∉ map (currentKey Constants this) keys ->
                    stored s' !! key = stored s !! key).
Proof.
  intros Hr Hloc Hs Hfresh Hapart.
  destruct (migrateCacheEntries_run flag w s Hr Hloc Hs)
    as (w' & s' & Hrun & Hs' & Hc & Hst).
  exists w', s'. split; [done|]. split; [done|]. split; [done|].
  cbv zeta in Hst.
  set (m := stored s) in *.
  set (kvs := map (fun k => (k, m !! legacyKey Constants k)) keys) in *.
  assert (Hkvs : forall k v, (k, v) ∈ kvs -> k ∈ keys /\ v = m !! legacyKey Constants k).
  { intros k v (k0 & [= -> ->] & Hin)%list_elem_of_fmap. done. }
  assert (Hkvs' : forall k, k ∈ keys -> (k, m !! legacyKey Constants k) ∈ kvs).
  { intros k Hin. apply list_elem_of_fmap. by exists k. }
  rewrite (copyAll_ext (fun k => generateCacheKey k true) (currentKey Constants this))
    in Hst.
  2: { intros k v [Hin _]%Hkvs. by rewrite generateCacheKey_fresh by by apply Hfresh. }
  rewrite (copyAll_ext (fun k => generateCacheKey k false) (legacyKey Constants))
    in Hst.
  2: { intros k v [Hin _]%Hkvs. by rewrite generateCacheKey_fresh by by apply Hfresh. }
  set (m1 := copyAll (currentKey Constants this) kvs m) in *.
  assert (Hphase2 : forall k, k ∈ keys ->
            stored s' !! currentKey Constants this k
            = m1 !! currentKey Constants this k).
  { intros k Hk. rewrite Hst. destruct (AuthCache.rollbackEnabled this); [|done].
    apply copyAll_lookup_other. intros k' v' [Hk' _]%Hkvs _ Heq.
    apply legacyKey_currentKey in Heq. by apply (Hapart k k'). }
  split; [|split].
  - intros k v Hk Hv Hne. rewrite Hphase2 by done.
    apply copyAll_lookup_written.
    + intros k' v' [Hk' ->]%Hkvs _ ->%currentKey_inj. done.
    + right. exists k. split; [|split; [by apply truthy_ne_empty|done]].
      rewrite <- Hv. by apply Hkvs'.
  - intros k Hk Hv. rewrite Hphase2 by done.
    apply copyAll_lookup_other. intros k' v' [Hk' ->]%Hkvs Hv' ->%currentKey_inj.
    congruence.
  - intros key Hkey.
    assert (Hm1 : m1 !! key = m !! key).
    { apply copyAll_lookup_other. intros k' v' [Hk' _]%Hkvs _ <-.
      apply Hkey. apply list_elem_of_fmap. by exists k'. }
    rewrite Hst. destruct (AuthCache.rollbackEnabled this); [|done].
    destruct (m !! key) as [v|] eqn:Hv.
    + apply copyAll_lookup_written; [|by left].
      intros k' v' [Hk' ->]%Hkvs _ <-. done.
    + rewrite copyAll_lookup_other; [done|].
      intros k' v' [Hk' ->]%Hkvs Hv' <-. by rewrite Hv in Hv'.
Qed.

End Migrate.

Lemma migrateCacheEntries_copies_legacy_entries_witness :
  exists w' s',
    AuthCache.migrateCacheEntries Sample.host Sample.Constants
      Sample.PersistentCacheKeys Sample.ErrorCacheKeys Sample.cache false
      (Sample.browser {["msal.idtoken" := "t"]}) = Ok (JS.Fulfilled tt) w'
    /\ snapshot (fun m => m) LocalRef w' = Some s'
    /\ stored s' !! "msal.app1.idtoken" = Some "t"
    /\ stored s' !! "msal.idtoken" = Some "t"
    /\ stored s' !! "msal.app1.error" = None.
Proof.
  assert (Hfresh : forall k,
            k ∈ migrationKeys Sample.PersistentCacheKeys Sample.ErrorCacheKeys ->
            namespaced Sample.Constants k = false).
  { intros k Hk. repeat (apply elem_of_cons in Hk as [->|Hk]; [reflexivity|]).
    by apply elem_of_nil in Hk. }
  assert (Hapart : forall k k',
            k ∈ migrationKeys Sample.PersistentCacheKeys Sample.ErrorCacheKeys ->
            k' ∈ migrationKeys Sample.PersistentCacheKeys Sample.ErrorCacheKeys ->
            AuthCache.clientId Sample.cache +:+ "." +:+ k <> k').
  { intros k k' Hk Hk'.
    repeat (apply elem_of_cons in Hk as [->|Hk];
            [repeat (apply elem_of_cons in Hk' as [->|Hk']; [discriminate|]);
             by apply elem_of_nil in Hk'|]).
    by apply elem_of_nil in Hk. }
  destruct (migrateCacheEntries_copies_legacy_entries (fun m => m) Sample.host
              Sample.Constants Sample.PersistentCacheKeys Sample.ErrorCacheKeys
              Sample.cache LocalRef false
              (Sample.browser {["msal.idtoken" := "t"]})
              (sample_snapshot {["msal.idtoken" := "t"]})
              I eq_refl eq_refl Hfresh Hapart)
    as (w' & s' & Hrun & Hs' & _ & Hcopy & Hskip & Hframe).
  exists w', s'. split; [exact Hrun|]. split; [exact Hs'|]. split; [|split].
  - apply (Hcopy "idtoken" "t"); [by left|reflexivity|discriminate].
  - rewrite (Hframe "msal.idtoken"); [reflexivity|].
    intros Hin. repeat (apply elem_of_cons in Hin as [Hin|Hin]; [discriminate|]).
    by apply elem_of_nil in Hin.
  - etrans; [apply (Hskip "error"); [right; right; by left|reflexivity]|].
    reflexivity.
Defined.

(** ** How the operations of the cache compose *)

Section Algebra.
Context {T : Type} `{ICustomStorage T}.
Variable contents : T -> gmap string string.
Variable host : JS.Host.
Variable Constants : ConstantsT.
Variable this : AuthCache.Object.
Variable r : StorageRef.
Hypothesis Hr : honours r contents.
Hypothesis Hloc : refOf (AuthCache.cacheLocation this) = Some r.

Local Abbreviation generateCacheKey := (AuthCache.generateCacheKey Constants this).

Lemma removed_removed key (m : gmap string string) :
  removed Constants this key (removed Constants this key m)
  = removed Constants this key m.
Proof.
  unfold removed. destruct (AuthCache.rollbackEnabled this); apply map_eq; intros k;
    rewrite ?lookup_delete; repeat case_decide; done.
Qed.

Lemma removed_absent key (m : gmap string string) :
  m !! generateCacheKey key true = None ->
  m !! generateCacheKey key false = None ->
  removed Constants this key m = m.
Proof.
  intros H1 H2. unfold removed. destruct (AuthCache.rollbackEnabled this).
  - rewrite (delete_id m) by done. by apply delete_id.
  - by apply delete_id.
Qed.

Lemma removed_lookup_current key (m : gmap string string) :
  removed Constants this key m !! generateCacheKey key true = None.
Proof.
  unfold removed. destruct (AuthCache.rollbackEnabled this);
    rewrite ?lookup_delete; repeat case_decide; done.
Qed.

(** X6: on a working storage [removeItem] does not raise; where neither
    physical key of the logical key is present it leaves the entries and the
    cookies exactly as they were, and removing a second time changes nothing
    more. *)
Theorem removeItem_absent_or_repeated key w s :
  snapshot contents r w = Some s ->
  exists w1 s1,
    AuthCache.removeItem host Constants this key w = Ok tt w1
    /\ snapshot contents r w1 = Some s1
    /\ jar s1 = jar s
    /\ (stored s !! generateCacheKey key true = None ->
        stored s !! generateCacheKey key false = None -> s1 = s)
    /\ exists w2,
         AuthCache.removeItem host Constants this key w1 = Ok tt w2
         /\ snapshot contents r w2 = Some s1.
Proof.
  intros Hs.
  cut (returns (AuthCache.removeItem host Constants this key) w
         (fun _ w1 => exists s1, snapshot contents r w1 = Some s1
            /\ jar s1 = jar s
            /\ (stored s !! generateCacheKey key true = None ->
                stored s !! generateCacheKey key false = None -> s1 = s)
            /\ exists w2,
                 AuthCache.removeItem host Constants this key w1 = Ok tt w2
                 /\ snapshot contents r w2 = Some s1)).
  { intros ([] & w1 & Hrun & s1 & Hrest). by exists w1, s1. }
  eapply removeItem_spec; [done..|]. intros w1 Hs1.
  eexists. split; [exact Hs1|]. split; [done|]. split.
  - intros H1 H2. rewrite removed_absent by done. apply withStored_stored.
  - apply returns_unit_elim. eapply removeItem_spec; [done..|]. intros w2 Hs2.
    rewrite Hs2. cbn [stored withStored]. by rewrite removed_removed.
Qed.

Lemma written_written key v1 v2 s :
  written host Constants this key v2 false (written host Constants this key v1 false s)
  = written host Constants this key v2 false s.
Proof.
  unfold written. destruct (AuthCache.rollbackEnabled this);
    cbn [stored withStored jar clock]; unfold withStored; cbn [stored jar clock];
    f_equal; apply map_eq; intros k;
    rewrite ?lookup_insert; repeat case_decide; done.
Qed.

(** X7: with mirroring off, writing a key twice leaves the storage as the
    second write alone would have left it, and a following [getItem] returns
    the second value. *)
Theorem setItem_last_write_wins key v1 v2 w s :
  snapshot contents r w = Some s ->
  exists w1 w2 w2',
    AuthCache.setItem host Constants this key v1 false w = Ok tt w1
    /\ AuthCache.setItem host Constants this key v2 false w1 = Ok tt w2
    /\ AuthCache.setItem host Constants this key v2 false w = Ok tt w2'
    /\ snapshot contents r w2 = snapshot contents r w2'
    /\ AuthCache.getItem host Constants this key false w2 = Ok (Some v2) w2.
Proof.
  intros Hs.
  assert (H1 : returns (AuthCache.setItem host Constants this key v1 false) w
            (fun _ w1 => snapshot contents r w1
                         = Some (written host Constants this key v1 false s))).
  { by eapply setItem_spec. }
  apply returns_unit_elim in H1 as (w1 & Hrun1 & Hs1).
  assert (H2 : returns (AuthCache.setItem host Constants this key v2 false) w1
            (fun _ w2 => snapshot contents r w2
                         = Some (written host Constants this key v2 false
                                   (written host Constants this key v1 false s)))).
  { by eapply setItem_spec. }
  apply returns_unit_elim in H2 as (w2 & Hrun2 & Hs2).
  assert (H3 : returns (AuthCache.setItem host Constants this key v2 false) w
            (fun _ w2 => snapshot contents r w2
                         = Some (written host Constants this key v2 false s))).
  { by eapply setItem_spec. }
  apply returns_unit_elim in H3 as (w2' & Hrun3 & Hs3).
  exists w1, w2, w2'. split; [done|]. split; [done|]. split; [done|]. split.
  - by rewrite Hs2, Hs3, written_written.
  - rewrite (getItem_spec contents host Constants this r Hr Hloc key w2 _ Hs2).
    by rewrite stored_written_lookup.
Qed.

(** X8: after [setItem] and [removeItem] of the same key, an unmirrored
    [getItem] of that key returns null, whether or not the write was
    mirrored. *)
Theorem setItem_removeItem_getItem key value enable w s :
  snapshot contents r w = Some s ->
  exists w1 w2,
    AuthCache.setItem host Constants this key value enable w = Ok tt w1
    /\ AuthCache.removeItem host Constants this key w1 = Ok tt w2
    /\ AuthCache.getItem host Constants this key false w2 = Ok None w2.
Proof.
  intros Hs.
  assert (H1 : returns (AuthCache.setItem host Constants this key value enable) w
            (fun _ w1 => snapshot contents r w1
                         = Some (written host Constants this key value enable s))).
  { by eapply setItem_spec. }
  apply returns_unit_elim in H1 as (w1 & Hrun1 & Hs1).
  assert (H2 : returns (AuthCache.removeItem host Constants this key) w1
            (fun _ w2 => snapshot contents r w2
                         = Some (withStored
                                   (removed Constants this key
                                      (stored (written host Constants this key value
                                                 enable s)))
                                   (written host Constants this key value enable s)))).
  { by eapply removeItem_spec. }
  apply returns_unit_elim in H2 as (w2 & Hrun2 & Hs2).
  exists w1, w2. split; [done|]. split; [done|].
  rewrite (getItem_spec contents host Constants this r Hr Hloc key w2 _ Hs2).
  cbn [stored withStored]. by rewrite removed_lookup_current.
Qed.

(** A mirrored read: the cookie of the current-schema key if it is not
    empty, the stored entry otherwise. *)
Lemma getItem_mirrored_eq key w s :
  snapshot contents r w = Some s ->
  lacks "=" (generateCacheKey key true) = true ->
  wfJar (jar s) = true ->
  AuthCache.getItem host Constants this key true w
  = Ok (if JS.truthy (jar_get (generateCacheKey key true) (jar s))
        then Some (jar_get (generateCacheKey key true) (jar s))
        else stored s !! generateCacheKey key true) w.
Proof.
  intros Hs Hname Hj.
  assert (Hcookie : AuthCache.getItemCookie Constants this
                      (generateCacheKey key true) w
                    = Ok (jar_get (generateCacheKey key true) (jar s)) w).
  { rewrite (getItemCookie_spec contents Constants this r _ _ _ Hs).
    rewrite generateCacheKey_fixed. f_equal.
    by apply (findCookie_cookie_read _ _ ""). }
  pose proof (getItem_spec contents host Constants this r Hr Hloc key w s Hs) as Hget.
  unfold AuthCache.getItem, BrowserStorage.getItem in *.
  cbn [BrowserStorage.this_getItemCookie AuthCache.super].
  unfold mbind at 1, M_bind at 1. unfold mbind at 1, M_bind at 1.
  rewrite Hcookie. cbn [mret M_ret].
  destruct (JS.truthy (jar_get (generateCacheKey key true) (jar s))).
  - unfold mbind, M_bind. by rewrite Hcookie.
  - exact Hget.
Qed.

(** X9: a mirrored [getItem] gives priority to the cookie: where the cookie
    of the current-schema key holds a non-empty value, that value is
    returned whatever the storage holds; where there is no such cookie, or
    an empty one, the result is that of an unmirrored [getItem].  This is
    for a current-schema key without [=] and for cookies that are well
    formed: no name with [=], [;] or a space in front, no value with
    [;]. *)
Theorem getItem_prefers_cookie key w s :
  snapshot contents r w = Some s ->
  lacks "=" (generateCacheKey key true) = true ->
  wfJar (jar s) = true ->
  (jar_get (generateCacheKey key true) (jar s) <> "" ->
   AuthCache.getItem host Constants this key true w
   = Ok (Some (jar_get (generateCacheKey key true) (jar s))) w)
  /\ (jar_get (generateCacheKey key true) (jar s) = "" ->
      AuthCache.getItem host Constants this key true w
      = AuthCache.getItem host Constants this key false w).
Proof.
  intros Hs Hname Hj. rewrite (getItem_mirrored_eq key w s) by done.
  rewrite (getItem_spec contents host Constants this r Hr Hloc key w s Hs).
  split.
  - intros Hc%truthy_ne_empty. by rewrite Hc.
  - intros ->. done.
Qed.

(** X10: [removeItem] leaves the cookie mirror alone: after a mirrored
    [setItem] of a non-empty value and a [removeItem] of the key, an
    unmirrored [getItem] returns nothing and a mirrored [getItem] still
    returns the value, from the cookie.  This is for physical keys that are
    cookie names (not empty, without [;] and [=], without blanks at the
    ends), a value without [;] and without blanks at the ends, and cookies
    that are well formed. *)
Theorem removeItem_keeps_mirrored_cookie key value w s :
  snapshot contents r w = Some s ->
  cookieName (generateCacheKey key true) = true ->
  cookieName (generateCacheKey key false) = true ->
  cookieValue value = true ->
  wfJar (jar s) = true ->
  value <> "" ->
  exists w1 w2,
    AuthCache.setItem host Constants this key value true w = Ok tt w1
    /\ AuthCache.removeItem host Constants this key w1 = Ok tt w2
    /\ AuthCache.getItem host Constants this key false w2 = Ok None w2
    /\ AuthCache.getItem host Constants this key true w2 = Ok (Some value) w2.
Proof.
  intros Hs Hn1 Hn2 Hv Hj Hne.
  assert (H1 : returns (AuthCache.setItem host Constants this key value true) w
            (fun _ w1 => snapshot contents r w1
                         = Some (written host Constants this key value true s))).
  { by eapply setItem_spec. }
  apply returns_unit_elim in H1 as (w1 & Hrun1 & Hs1).
  assert (H2 : returns (AuthCache.removeItem host Constants this key) w1
            (fun _ w2 => snapshot contents r w2
                         = Some (withStored
                                   (removed Constants this key
                                      (stored (written host Constants this key value
                                                 true s)))
                                   (written host Constants this key value true s)))).
  { by eapply removeItem_spec. }
  apply returns_unit_elim in H2 as (w2 & Hrun2 & Hs2).
  exists w1, w2. split; [done|]. split; [done|].
  destruct (jar_written host Constants this key value s Hn1 Hn2 Hv Hj) as [Hwf Hget].
  split.
  - rewrite (getItem_spec contents host Constants this r Hr Hloc key w2 _ Hs2).
    cbn [stored withStored]. by rewrite removed_lookup_current.
  - rewrite (getItem_mirrored_eq key w2 _ Hs2); cbn [jar withStored].
    + rewrite Hget. apply truthy_ne_empty in Hne. by rewrite Hne.
    + unfold cookieName in Hn1. by repeat (apply andb_prop in Hn1 as [Hn1 ?]).
    + done.
Qed.

End Algebra.

Lemma removeItem_absent_or_repeated_witness :
  exists w1 s1,
    AuthCache.removeItem Sample.host Sample.Constants Sample.cache "idtoken"
      (Sample.browser two_keys) = Ok tt w1
    /\ snapshot (fun m => m) LocalRef w1 = Some s1
    /\ jar s1 = []
    /\ s1 = sample_snapshot two_keys.
Proof.
  destruct (removeItem_absent_or_repeated (fun m => m) Sample.host Sample.Constants
              Sample.cache LocalRef I eq_refl "idtoken" (Sample.browser two_keys)
              (sample_snapshot two_keys) eq_refl)
    as (w1 & s1 & Hrun & Hs1 & Hjar & Hsame & _).
  exists w1, s1. split; [exact Hrun|]. split; [exact Hs1|]. split; [exact Hjar|].
  apply Hsame; reflexivity.
Defined.

Lemma setItem_last_write_wins_witness :
  exists w1 w2 w2',
    AuthCache.setItem Sample.host Sample.Constants custom_cache "idtoken" "a" false
      (Sample.browser ∅) = Ok tt w1
    /\ AuthCache.setItem Sample.host Sample.Constants custom_cache "idtoken" "b" false
         w1 = Ok tt w2
    /\ AuthCache.setItem Sample.host Sample.Constants custom_cache "idtoken" "b" false
         (Sample.browser ∅) = Ok tt w2'
    /\ snapshot (fun m => m) CustomRef w2 = snapshot (fun m => m) CustomRef w2'
    /\ AuthCache.getItem Sample.host Sample.Constants custom_cache "idtoken" false w2
       = Ok (Some "b") w2.
Proof.
  apply (setItem_last_write_wins (fun m => m) Sample.host Sample.Constants
           custom_cache CustomRef MemoryStorage_Contract eq_refl "idtoken" "a" "b"
           (Sample.browser ∅) (sample_snapshot ∅) eq_refl).
Defined.

Lemma setItem_removeItem_getItem_witness :
  exists w1 w2,
    AuthCache.setItem Sample.host Sample.Constants Sample.cache "idtoken" "v" true
      (Sample.browser ∅) = Ok tt w1
    /\ AuthCache.removeItem Sample.host Sample.Constants Sample.cache "idtoken" w1
       = Ok tt w2
    /\ AuthCache.getItem Sample.host Sample.Constants Sample.cache "idtoken" false w2
       = Ok None w2.
Proof.
  apply (setItem_removeItem_getItem (fun m => m) Sample.host Sample.Constants
           Sample.cache LocalRef I eq_refl "idtoken" "v" true
           (Sample.browser ∅) (sample_snapshot ∅) eq_refl).
Defined.

Lemma getItem_prefers_cookie_witness :
  AuthCache.getItem Sample.host Sample.Constants Sample.cache "idtoken" true
    world_stale_cookie
  = Ok (Some "old") world_stale_cookie.
Proof.
  destruct (getItem_prefers_cookie (fun m => m) Sample.host Sample.Constants
              Sample.cache LocalRef I eq_refl "idtoken" world_stale_cookie
              {| stored := {["msal.app1.idtoken" := "new"]};
                 jar := [("msal.app1.idtoken", "old")]; clock := 0 |}
              eq_refl eq_refl eq_refl) as [Hcookie _].
  apply Hcookie. discriminate.
Defined.

Lemma removeItem_keeps_mirrored_cookie_witness :
  exists w1 w2,
    AuthCache.setItem Sample.host Sample.Constants Sample.cache "idtoken" "v" true
      (Sample.browser ∅) = Ok tt w1
    /\ AuthCache.removeItem Sample.host Sample.Constants Sample.cache "idtoken" w1
       = Ok tt w2
    /\ AuthCache.getItem Sample.host Sample.Constants Sample.cache "idtoken" false w2
       = Ok None w2
    /\ AuthCache.getItem Sample.host Sample.Constants Sample.cache "idtoken" true w2
       = Ok (Some "v") w2.
Proof.
  assert (Hne : "v" <> "") by discriminate.
  apply (removeItem_keeps_mirrored_cookie (fun m => m) Sample.host Sample.Constants
           Sample.cache LocalRef I eq_refl "idtoken" "v"
           (Sample.browser ∅) (sample_snapshot ∅) eq_refl eq_refl eq_refl eq_refl
           eq_refl Hne).
Defined.

(** ** Cookies written, read and cleared *)

Lemma cookie_assign_expires host now n v days j :
  cookieName n = true ->
  cookieValue v = true ->
  JS.truthy_number days = true ->
  lacks ";" (expiryDate host now days) = true ->
  JS.cookie_assign host now (cookieString host now n v (Some days)) j
  = if JS.dateInPast host now (expiryDate host now days)
    then JS.jar_remove n j else JS.jar_put n v j.
Proof.
  intros Hn Hv Hdays Hdate. unfold cookieName in Hn. unfold cookieValue in Hv.
  apply andb_prop in Hn as [Hn Htrim]. apply andb_prop in Hn as [Hn Heq].
  apply andb_prop in Hn as [Hne Hsemi]. apply andb_prop in Hv as [Hvsemi Hvtrim].
  apply String_eqb_true in Htrim. apply String_eqb_true in Hvtrim.
  unfold JS.cookie_assign, cookieString. fold (expiryDate host now days).
  rewrite Hdays.
  set (D := expiryDate host now days) in *.
  replace (n +:+ "=" +:+ v +:+ ";path=/;" +:+ "expires=" +:+ D +:+ ";")
    with ((n +:+ "=" +:+ v) +:+ ";" +:+ "path=/" +:+ ";"
          +:+ ("expires=" +:+ D) +:+ ";" +:+ "")
    by (rewrite !String_append_assoc; reflexivity).
  rewrite split_semicolon_cons
    by (rewrite !lacks_app, Hsemi, Hvsemi; reflexivity).
  rewrite split_semicolon_cons by reflexivity.
  rewrite split_semicolon_cons by (rewrite lacks_app, Hdate; reflexivity).
  change (JS.split "" ";") with [""].
  unfold JS.indexOf. rewrite indexOf_from_eq_sign by done.
  destruct (Z.eqb_spec (0 + Z.of_nat (String.length n)) (-1)) as [Hbad|_]; [lia|].
  replace (Z.to_nat (0 + Z.of_nat (String.length n))) with (String.length n) by lia.
  rewrite take_string_app.
  replace (S (String.length n)) with (String.length (n +:+ "=")).
  2: { rewrite String_length_app. simpl. lia. }
  replace (n +:+ "=" +:+ v) with ((n +:+ "=") +:+ v)
    by (by rewrite String_append_assoc).
  rewrite substring_from_app, Htrim, Hvtrim, Hne. cbn [negb].
  assert (Hattr : JS.expiresAttribute ["path=/"; "expires=" +:+ D; ""] = Some D).
  { clearbody D. cbn [JS.expiresAttribute JS.trimStart String.append Ascii.eqb
           Bool.eqb orb].
    rewrite !prefix_cons, prefix_empty. reflexivity. }
  by rewrite Hattr.
Qed.

Lemma jar_get_remove n n' j :
  jar_get n (JS.jar_remove n' j) = if String.eqb n n' then "" else jar_get n j.
Proof.
  induction j as [|[n0 v0] j IH]; simpl.
  - by destruct (String.eqb n n').
  - destruct (String.eqb n0 n') eqn:H0; simpl.
    + rewrite IH. destruct (String.eqb n n') eqn:Hn; [done|].
      apply String_eqb_true in H0 as ->.
      by rewrite String.eqb_sym, Hn.
    + rewrite IH. destruct (String.eqb n0 n) eqn:H1; [|done].
      apply String_eqb_true in H1 as ->. by rewrite H0.
Qed.

Lemma wfJar_remove n j : wfJar j = true -> wfJar (JS.jar_remove n j) = true.
Proof.
  induction j as [|[n0 v0] j IH]; [done|]. simpl.
  intros [Hhd Hj]%andb_prop. destruct (String.eqb n0 n); [by apply IH|].
  simpl. by rewrite Hhd, IH.
Qed.

Section Cookies.
Context {T : Type} `{ICustomStorage T}.
Variable contents : T -> gmap string string.
Variable host : JS.Host.
Variable r : StorageRef.
Hypothesis Hr : honours r contents.

Lemma BrowserStorage_getItemCookie_spec cName w s :
  snapshot contents r w = Some s ->
  BrowserStorage.getItemCookie cName w
  = Ok (BrowserStorage.findCookie (cName +:+ "=")
          (JS.split (JS.cookie_read (jar s)) ";")) w.
Proof.
  intros Hs.
  assert (Hread : returns (document_cookie : M T _) w
            (fun a w' => a = JS.cookie_read (jar s) /\ w' = w)).
  { by eapply document_cookie_spec. }
  destruct Hread as (a & w' & Hrun & -> & ->).
  unfold BrowserStorage.getItemCookie, mbind, M_bind. by rewrite Hrun.
Qed.

(** X11: a cookie written by [setItemCookie] is read back by
    [getItemCookie], for a session cookie and for one whose expiry date the
    cookie store does not take to be past, when name and value are such
    that the store keeps them as they are; the stored entries are not
    touched. *)
Theorem setItemCookie_getItemCookie_roundtrip cName cValue expires w s :
  snapshot contents r w = Some s ->
  cookieName cName = true ->
  cookieValue cValue = true ->
  wfJar (jar s) = true ->
  (forall days, expires = Some days -> JS.truthy_number days = true ->
     lacks ";" (expiryDate host (clock s) days) = true
     /\ JS.dateInPast host (clock s) (expiryDate host (clock s) days) = false) ->
  exists w',
    BrowserStorage.setItemCookie host cName cValue expires w = Ok tt w'
    /\ snapshot contents r w' = Some (withJar (JS.jar_put cName cValue (jar s)) s)
    /\ BrowserStorage.getItemCookie cName w' = Ok cValue w'.
Proof.
  intros Hs Hn Hv Hj Hdate. apply returns_unit_elim.
  eapply BrowserStorage_setItemCookie_spec; [done..|]. intros w' Hs'.
  assert (Hassign : JS.cookie_assign host (clock s)
                      (cookieString host (clock s) cName cValue expires) (jar s)
                    = JS.jar_put cName cValue (jar s)).
  { destruct expires as [days|]; [|by apply cookie_assign_put].
    destruct (JS.truthy_number days) eqn:Hdays.
    - destruct (Hdate days eq_refl Hdays) as [Hsemi Hpast].
      rewrite cookie_assign_expires by done. by rewrite Hpast.
    - etrans; [|by apply (cookie_assign_put host (clock s))].
      unfold cookieString. by rewrite Hdays. }
  rewrite Hassign in Hs'. split; [done|].
  rewrite (BrowserStorage_getItemCookie_spec _ _ _ Hs'). cbn [jar withJar]. f_equal.
  etrans; [|apply jar_get_put_eq].
  apply (findCookie_cookie_read _ _ ""); [|by apply wfJar_put|done].
  unfold cookieName in Hn. by repeat (apply andb_prop in Hn as [Hn ?]).
Qed.

End Cookies.

Section ClearCookie.
Context {T : Type} `{ICustomStorage T}.
Variable contents : T -> gmap string string.
Variable host : JS.Host.
Variable Constants : ConstantsT.
Variable this : AuthCache.Object.
Variable r : StorageRef.
Hypothesis Hr : honours r contents.

Local Abbreviation generateCacheKey := (AuthCache.generateCacheKey Constants this).

(** X12: after [clearItemCookie], [getItemCookie] of the same name returns
    the empty string and the stored entries are as before, provided the two
    physical keys of the name are cookie names (not empty, without [;] and
    [=], without blanks at the ends), the cookies present are well formed,
    and the date rendered for the day before has no [;] and is taken by the
    cookie store to be past. *)
Theorem clearItemCookie_getItemCookie cName w s :
  snapshot contents r w = Some s ->
  cookieName (generateCacheKey cName true) = true ->
  cookieName (generateCacheKey cName false) = true ->
  wfJar (jar s) = true ->
  lacks ";" (expiryDate host (clock s) (JS.integer (-1))) = true ->
  JS.dateInPast host (clock s) (expiryDate host (clock s) (JS.integer (-1))) = true ->
  exists w' s',
    BrowserStorage.clearItemCookie (AuthCache.super host Constants this) cName w
    = Ok tt w'
    /\ snapshot contents r w' = Some s'
    /\ stored s' = stored s
    /\ AuthCache.getItemCookie Constants this cName w' = Ok "" w'.
Proof.
  intros Hs Hn1 Hn2 Hj Hsemi Hpast.
  cut (returns (BrowserStorage.clearItemCookie (AuthCache.super host Constants this)
                  cName) w
         (fun _ w' => exists s', snapshot contents r w' = Some s'
            /\ stored s' = stored s
            /\ AuthCache.getItemCookie Constants this cName w' = Ok "" w')).
  { intros ([] & w' & Hrun & s' & Hrest). by exists w', s'. }
  unfold BrowserStorage.clearItemCookie.
  cbn [BrowserStorage.this_setItemCookie AuthCache.super].
  eapply setItemCookie_spec; [done..|]. intros w' Hs'.
  eexists. split; [exact Hs'|]. split; [done|].
  rewrite (getItemCookie_spec contents Constants this r _ _ _ Hs'). f_equal.
  cbn [jar withJar].
  assert (Hlacks : lacks "=" (generateCacheKey cName true) = true).
  { unfold cookieName in Hn1. by repeat (apply andb_prop in Hn1 as [Hn1 ?]). }
  assert (Hm : mirrored host Constants this cName "" (Some (JS.integer (-1))) s
               = if AuthCache.rollbackEnabled this
                 then JS.jar_remove (generateCacheKey cName false)
                        (JS.jar_remove (generateCacheKey cName true) (jar s))
                 else JS.jar_remove (generateCacheKey cName true) (jar s)).
  { unfold mirrored. rewrite !cookie_assign_expires, Hpast by done. done. }
  rewrite Hm.
  etrans; [apply (findCookie_cookie_read _ _ ""); [done| |done]|].
  - destruct (AuthCache.rollbackEnabled this); by repeat apply wfJar_remove.
  - destruct (AuthCache.rollbackEnabled this);
      rewrite !jar_get_remove, String.eqb_refl;
      by repeat match goal with |- context [String.eqb ?a ?b] =>
                  destruct (String.eqb a b) end.
Qed.

End ClearCookie.

Lemma setItemCookie_getItemCookie_roundtrip_witness :
  exists w',
    BrowserStorage.setItemCookie Sample.host "x" "y" (Some (JS.integer 1))
      (Sample.browser ∅)
    = Ok tt w'
    /\ snapshot (fun m => m) LocalRef w'
       = Some (withJar (JS.jar_put "x" "y" []) (sample_snapshot ∅))
    /\ BrowserStorage.getItemCookie "x" w' = Ok "y" w'.
Proof.
  apply (setItemCookie_getItemCookie_roundtrip (fun m => m) Sample.host LocalRef I
           "x" "y" (Some (JS.integer 1)) (Sample.browser ∅) (sample_snapshot ∅)
           eq_refl eq_refl eq_refl eq_refl).
  intros days Hdays _. injection Hdays as <-. split; reflexivity.
Defined.

Lemma clearItemCookie_getItemCookie_witness :
  exists w' s',
    BrowserStorage.clearItemCookie
      (AuthCache.super Sample.host Sample.Constants Sample.cache) "idtoken"
      world_stale_cookie = Ok tt w'
    /\ snapshot (fun m => m) LocalRef w' = Some s'
    /\ stored s' = {["msal.app1.idtoken" := "new"]}
    /\ AuthCache.getItemCookie Sample.Constants Sample.cache "idtoken" w' = Ok "" w'.
Proof.
  apply (clearItemCookie_getItemCookie (fun m => m) Sample.host Sample.Constants
           Sample.cache LocalRef I "idtoken" world_stale_cookie
           {| stored := {["msal.app1.idtoken" := "new"]};
              jar := [("msal.app1.idtoken", "old")]; clock := 0 |}
           eq_refl eq_refl eq_refl eq_refl eq_refl eq_refl).
Defined.

Section ClearMsalCookie.
Context {T : Type} `{ICustomStorage T}.
Variable contents : T -> gmap string string.
Variable host : JS.Host.
Variable Constants : ConstantsT.
Variable TemporaryCacheKeys : TemporaryCacheKeysT.
Variable this : AuthCache.Object.
Variable r : StorageRef.
Hypothesis Hr : honours r contents.

Local Abbreviation generateCacheKey := (AuthCache.generateCacheKey Constants this).

Lemma jar_get_remove_empty n n' j :
  jar_get n j = "" -> jar_get n (JS.jar_remove n' j) = "".
Proof. intros Hn. rewrite jar_get_remove, Hn. by destruct (String.eqb n n'). Qed.

Lemma mirrored_cleared cName s :
  cookieName (generateCacheKey cName true) = true ->
  cookieName (generateCacheKey cName false) = true ->
  lacks ";" (expiryDate host (clock s) (JS.integer (-1))) = true ->
  JS.dateInPast host (clock s) (expiryDate host (clock s) (JS.integer (-1))) = true ->
  mirrored host Constants this cName "" (Some (JS.integer (-1))) s
  = if AuthCache.rollbackEnabled this
    then JS.jar_remove (generateCacheKey cName false)
           (JS.jar_remove (generateCacheKey cName true) (jar s))
    else JS.jar_remove (generateCacheKey cName true) (jar s).
Proof.
  intros Hn1 Hn2 Hsemi Hpast. unfold mirrored.
  rewrite !cookie_assign_expires, Hpast by done. done.
Qed.

(** One [clearItemCookie]: the cookie of the name is gone, well-formedness
    is kept, and a cookie that read as empty before still does. *)
Lemma clearItemCookie_spec cName w s (Q : unit -> World T -> Prop) :
  snapshot contents r w = Some s ->
  cookieName (generateCacheKey cName true) = true ->
  cookieName (generateCacheKey cName false) = true ->
  lacks ";" (expiryDate host (clock s) (JS.integer (-1))) = true ->
  JS.dateInPast host (clock s) (expiryDate host (clock s) (JS.integer (-1))) = true ->
  (forall w' j', snapshot contents r w' = Some (withJar j' s) ->
                 (wfJar (jar s) = true -> wfJar j' = true) ->
                 jar_get (generateCacheKey cName true) j' = "" ->
                 (forall n, jar_get n (jar s) = "" -> jar_get n j' = "") ->
                 Q tt w') ->
  returns (BrowserStorage.clearItemCookie (AuthCache.super host Constants this) cName)
    w Q.
Proof.
  intros Hs Hn1 Hn2 Hsemi Hpast HQ. unfold BrowserStorage.clearItemCookie.
  cbn [BrowserStorage.this_setItemCookie AuthCache.super].
  eapply setItemCookie_spec; [done..|]. intros w' Hs'.
  rewrite mirrored_cleared in Hs' by done. eapply HQ; [exact Hs'|..].
  - intros Hj. destruct (AuthCache.rollbackEnabled this); by repeat apply wfJar_remove.
  - destruct (AuthCache.rollbackEnabled this);
      rewrite !jar_get_remove, String.eqb_refl;
      by repeat match goal with |- context [String.eqb ?a ?b] =>
                  destruct (String.eqb a b) end.
  - intros n Hn. destruct (AuthCache.rollbackEnabled this);
      by repeat apply jar_get_remove_empty.
Qed.

(** X13: after [clearMsalCookie] for a state, [getItemCookie] returns the
    empty string for each of the four names of that state (nonce, login
    state, login request, acquire-token state), and the stored entries are
    as before, provided the physical keys of the four names are cookie
    names (not empty, without [;] and [=], without blanks at the ends), the
    cookies present are well formed, and the date rendered for the day
    before has no [;] and is taken by the cookie store to be past. *)
Theorem clearMsalCookie_clears_state_cookies state w s :
  snapshot contents r w = Some s ->
  (forall cName, cName ∈ msalCookieNames TemporaryCacheKeys state ->
     cookieName (generateCacheKey cName true) = true
     /\ cookieName (generateCacheKey cName false) = true) ->
  wfJar (jar s) = true ->
  lacks ";" (expiryDate host (clock s) (JS.integer (-1))) = true ->
  JS.dateInPast host (clock s) (expiryDate host (clock s) (JS.integer (-1))) = true ->
  exists w' s',
    AuthCache.clearMsalCookie host Constants TemporaryCacheKeys this state w = Ok tt w'
    /\ snapshot contents r w' = Some s'
    /\ stored s' = stored s
    /\ forall cName, cName ∈ msalCookieNames TemporaryCacheKeys state ->
         AuthCache.getItemCookie Constants this cName w' = Ok "" w'.
Proof.
  intros Hs Hnames Hj Hsemi Hpast.
  cut (returns (AuthCache.clearMsalCookie host Constants TemporaryCacheKeys this state)
         w (fun _ w' => exists s', snapshot contents r w' = Some s'
              /\ stored s' = stored s
              /\ forall cName, cName ∈ msalCookieNames TemporaryCacheKeys state ->
                   AuthCache.getItemCookie Constants this cName w' = Ok "" w')).
  { intros ([] & w' & Hrun & s' & Hrest). by exists w', s'. }
  assert (Hin : forall i cName,
            msalCookieNames TemporaryCacheKeys state !! i = Some cName ->
            cookieName (generateCacheKey cName true) = true
            /\ cookieName (generateCacheKey cName false) = true).
  { intros i cName Hi. apply Hnames. by eapply list_elem_of_lookup_2. }
  destruct (Hin 0%nat _ eq_refl) as [Ha1 Ha2].
  destruct (Hin 1%nat _ eq_refl) as [Hb1 Hb2].
  destruct (Hin 2%nat _ eq_refl) as [Hc1 Hc2].
  destruct (Hin 3%nat _ eq_refl) as [Hd1 Hd2].
  unfold AuthCache.clearMsalCookie.
  apply returns_bind. eapply clearItemCookie_spec; [done..|].
  intros w1 j1 Hs1 Hwf1 Hget1 Hkeep1.
  apply returns_bind. eapply clearItemCookie_spec; [done..|].
  intros w2 j2 Hs2 Hwf2 Hget2 Hkeep2.
  apply returns_bind. eapply clearItemCookie_spec; [done..|].
  intros w3 j3 Hs3 Hwf3 Hget3 Hkeep3.
  eapply clearItemCookie_spec; [done..|].
  intros w4 j4 Hs4 Hwf4 Hget4 Hkeep4.
  cbn [jar withJar] in *.
  eexists. split; [exact Hs4|]. split; [done|].
  intros cName HcName.
  rewrite (getItemCookie_spec contents Constants this r _ _ _ Hs4). f_equal.
  cbn [jar withJar].
  etrans; [apply (findCookie_cookie_read _ _ ""); [|by auto|done]|].
  - destruct (Hnames cName HcName) as [Hn _]. unfold cookieName in Hn.
    by repeat (apply andb_prop in Hn as [Hn ?]).
  - repeat (apply elem_of_cons in HcName as [->|HcName]); auto.
    by apply elem_of_nil in HcName.
Qed.

End ClearMsalCookie.

Lemma clearMsalCookie_clears_state_cookies_witness :
  exists w' s',
    AuthCache.clearMsalCookie Sample.host Sample.Constants Sample.TemporaryCacheKeys
      Sample.cache "s1" world_stale_cookie = Ok tt w'
    /\ snapshot (fun m => m) LocalRef w' = Some s'
    /\ stored s' = {["msal.app1.idtoken" := "new"]}
    /\ AuthCache.getItemCookie Sample.Constants Sample.cache "nonce.idtoken|s1" w'
       = Ok "" w'.
Proof.
  destruct (clearMsalCookie_clears_state_cookies (fun m => m) Sample.host
              Sample.Constants Sample.TemporaryCacheKeys Sample.cache LocalRef I
              "s1" world_stale_cookie
              {| stored := {["msal.app1.idtoken" := "new"]};
                 jar := [("msal.app1.idtoken", "old")]; clock := 0 |})
    as (w' & s' & Hrun & Hs' & Hst & Hget).
  - reflexivity.
  - intros cName Hin.
    repeat (apply elem_of_cons in Hin as [->|Hin]; [split; reflexivity|]).
    by apply elem_of_nil in Hin.
  - reflexivity.
  - reflexivity.
  - reflexivity.
  - exists w', s'. split; [exact Hrun|]. split; [exact Hs'|]. split; [exact Hst|].
    apply Hget. by left.
Defined.

(** ** The renewal flag and the scan for tokens *)

Section Renewal.
Context {T : Type} `{ICustomStorage T}.
Variable contents : T -> gmap string string.
Variable host : JS.Host.
Variable Constants : ConstantsT.
Variable TemporaryCacheKeys : TemporaryCacheKeysT.
Variable this : AuthCache.Object.
Variable r : StorageRef.

(** X14: the promise of [tokenRenewalInProgress] is fulfilled, with [true]
    exactly when the entry under the current-schema key of
    [RENEW_STATUS|state] holds the in-progress sentinel and the sentinel is
    not the empty string; the call changes nothing. *)
Theorem tokenRenewalInProgress_iff_sentinel state w s :
  honours r contents ->
  refOf (AuthCache.cacheLocation this) = Some r ->
  snapshot contents r w = Some s ->
  exists b,
    AuthCache.tokenRenewalInProgress host Constants TemporaryCacheKeys this state w
    = Ok (JS.Fulfilled b) w
    /\ (b = true <->
        stored s !! AuthCache.generateCacheKey Constants this
                      (RENEW_STATUS TemporaryCacheKeys +:+ "|" +:+ state) true
        = Some (inProgress Constants)
        /\ inProgress Constants <> "").
Proof.
  intros Hr Hloc Hs. eexists. split; [by eapply tokenRenewalInProgress_settles|].
  unfold renewalInProgress.
  destruct (stored s !! _) as [v|]; simpl.
  - rewrite andb_true_iff, bool_decide_eq_true, truthy_ne_empty. split.
    + intros [Hv [= ->]]. done.
    + intros [[= ->] Hv]. done.
  - split; [done|]. by intros [? _].
Qed.

End Renewal.

Lemma tokenRenewalInProgress_iff_sentinel_witness :
  exists b,
    AuthCache.tokenRenewalInProgress Sample.host Sample.Constants
      Sample.TemporaryCacheKeys Sample.cache "interactionStatus" world_in_progress
    = Ok (JS.Fulfilled b) world_in_progress
    /\ b = true.
Proof.
  destruct (tokenRenewalInProgress_iff_sentinel (fun m => m) Sample.host
              Sample.Constants Sample.TemporaryCacheKeys Sample.cache LocalRef
              "interactionStatus" world_in_progress
              {| stored := <["msal.app1.token.renew.status|interactionStatus"
                               := "in progress"]>
                             (<["msal.app1.interactionStatus" := "x"]> ∅);
                 jar := []; clock := 0 |} I eq_refl eq_refl)
    as (b & Hrun & Hiff).
  exists b. split; [exact Hrun|]. apply Hiff. split; [reflexivity|discriminate].
Defined.

Section Scan.
Context {T : Type} `{ICustomStorage T}.
Variable host : JS.Host.
Variable Constants : ConstantsT.
Variable this : AuthCache.Object.

Lemma readonly_keysOf r : readonly (keysOf r : M T _).
Proof.
  assert (Harea : forall r', readonly (withArea r' (fun m _ => mret (JS.Object_keys m))
                                       : M T _)).
  { intros r'. apply readonly_bind; [apply readonly_theWindow|]. intros win.
    destruct (area r' win); [apply readonly_ret|apply readonly_throw]. }
  destruct r; simpl; try apply Harea.
  apply readonly_bind; [apply readonly_getWorld|]. intros w.
  destruct (cs_getAllKeys (custom w)); [apply readonly_throw|apply readonly_ret].
Qed.

Lemma readonly_key_match key p : readonly (AuthCache.key_match host key p : M T _).
Proof.
  unfold AuthCache.key_match.
  destruct (JS.String_match host key p); [apply readonly_throw|apply readonly_ret].
Qed.

Lemma readonly_getAllAccessTokens_step clientId homeAccountIdentifier results key :
  readonly (AuthCache.getAllAccessTokens_step host Constants this clientId
              homeAccountIdentifier results key).
Proof.
  unfold AuthCache.getAllAccessTokens_step.
  apply readonly_bind; [apply readonly_key_match|]. intros m1.
  apply readonly_bind.
  { destruct m1; [apply readonly_key_match|apply readonly_ret]. }
  intros [|]; [|apply readonly_ret].
  apply readonly_bind; [apply readonly_getItem|]. intros value.
  destruct (JS.JSON_parse key); [|apply readonly_ret].
  destruct (JS.JSON_parse_nullable value); apply readonly_ret.
Qed.

(** X15: on the two storage areas of the browser, and where the cache
    location names no usable storage, [getAllAccessTokens] only reads:
    whether it returns or throws, the storage, the cookies and everything
    else are left as they were.  Nothing is stated of a cache on a
    host-supplied storage object, whose methods are the host's. *)
Theorem getAllAccessTokens_readonly clientId homeAccountIdentifier :
  AuthCache.cacheLocation this <> Some (CustomObject true) ->
  readonly (AuthCache.getAllAccessTokens host Constants this clientId
              homeAccountIdentifier).
Proof.
  intros _.
  unfold AuthCache.getAllAccessTokens.
  apply readonly_bind; [apply readonly_getStorage|]. intros r.
  apply readonly_bind; [apply readonly_keysOf|]. intros ks.
  generalize (@nil AuthCache.AccessTokenCacheItem).
  induction ks as [|key ks IH]; intros results; [apply readonly_ret|].
  cbn [AuthCache.getAllAccessTokens_loop].
  apply readonly_bind; [apply readonly_getAllAccessTokens_step|]. apply IH.
Qed.

End Scan.

Lemma getAllAccessTokens_readonly_witness :
  readonly (AuthCache.getAllAccessTokens (T := gmap string string) Sample.host
              Sample.Constants Sample.cache "app1" "acct1").
Proof.
  apply (getAllAccessTokens_readonly (T := gmap string string) Sample.host
           Sample.Constants Sample.cache "app1" "acct1").
  discriminate.
Defined.

Section ScanEdges.
Context {T : Type} `{ICustomStorage T}.
Variable contents : T -> gmap string string.
Variable host : JS.Host.
Variable Constants : ConstantsT.
Variable this : AuthCache.Object.
Variable r : StorageRef.

(** The scan returns what it has when the first pattern matches none of
    the keys: the second pattern is not looked at. *)
Lemma getAllAccessTokens_loop_unmatched clientId homeAccountIdentifier ks results
    (w : World T) :
  (forall key, key ∈ ks -> JS.String_match host key clientId = inr false) ->
  AuthCache.getAllAccessTokens_loop host Constants this clientId
    homeAccountIdentifier results ks w
  = Ok results w.
Proof.
  induction ks as [|key ks IH]; intros Hno; [done|].
  cbn [AuthCache.getAllAccessTokens_loop]. unfold mbind at 1, M_bind at 1.
  unfold AuthCache.getAllAccessTokens_step, mbind, M_bind, AuthCache.key_match.
  rewrite (Hno key) by left. cbn [mret M_ret].
  apply IH. intros key' Hkey'. apply Hno. by right.
Qed.

(** X16: on an empty storage [getAllAccessTokens] returns the empty list
    whatever the two arguments are.  On a non-empty one the call throws the
    error of the regular-expression engine at the first key when the engine
    rejects [clientId] there, or when [clientId] matches that key and the
    engine rejects [homeAccountIdentifier].  The second pattern is compiled
    only for a key the first one matches: when [clientId] matches none of
    the keys the call returns the empty list, also for a
    [homeAccountIdentifier] the engine rejects. *)
Theorem getAllAccessTokens_empty_or_rejected clientId homeAccountIdentifier w s :
  honours r contents ->
  refOf (AuthCache.cacheLocation this) = Some r ->
  snapshot contents r w = Some s ->
  (stored s = ∅ ->
   AuthCache.getAllAccessTokens host Constants this clientId homeAccountIdentifier w
   = Ok [] w)
  /\ (forall key keys e,
        keysOf r w = Ok (key :: keys) w ->
        JS.String_match host key clientId = inl e
        \/ (JS.String_match host key clientId = inr true
            /\ JS.String_match host key homeAccountIdentifier = inl e) ->
        AuthCache.getAllAccessTokens host Constants this clientId
          homeAccountIdentifier w
        = Throw e w)
  /\ (forall keys,
        keysOf r w = Ok keys w ->
        (forall key, key ∈ keys -> JS.String_match host key clientId = inr false) ->
        AuthCache.getAllAccessTokens host Constants this clientId
          homeAccountIdentifier w
        = Ok [] w).
Proof.
  intros Hr Hloc Hs.
  assert (Hst : returns (BrowserStorage.getStorage (AuthCache.super host Constants this))
            w (fun a w' => a = r /\ w' = w)).
  { by eapply getStorage_spec. }
  destruct Hst as (a & w' & Hst & -> & ->).
  split; [|split].
  - intros Hempty.
    assert (Hkeys : returns (keysOf r) w (fun ks w' => ks = [] /\ w' = w)).
    { eapply keysOf_spec; [done..|]. intros ks Hks _. split; [|done].
      destruct ks as [|k ks]; [done|]. exfalso.
      assert (Hk : is_Some (stored s !! k)) by (apply Hks; left).
      rewrite Hempty, lookup_empty in Hk. by destruct Hk. }
    destruct Hkeys as (ks & w' & Hkeys & -> & ->).
    unfold AuthCache.getAllAccessTokens, mbind, M_bind. by rewrite Hst, Hkeys.
  - intros key keys e Hkeys Hrej.
    unfold AuthCache.getAllAccessTokens, mbind, M_bind. rewrite Hst, Hkeys.
    cbn [AuthCache.getAllAccessTokens_loop]. unfold mbind, M_bind.
    unfold AuthCache.getAllAccessTokens_step, mbind, M_bind, AuthCache.key_match.
    destruct Hrej as [-> | [-> ->]]; done.
  - intros keys Hkeys Hno.
    unfold AuthCache.getAllAccessTokens, mbind, M_bind. rewrite Hst, Hkeys.
    by apply getAllAccessTokens_loop_unmatched.
Qed.

End ScanEdges.

Lemma getAllAccessTokens_empty_or_rejected_witness :
  AuthCache.getAllAccessTokens Sample.host Sample.Constants Sample.cache "(" "acct1"
    (Sample.browser ∅) = Ok [] (Sample.browser ∅)
  /\ AuthCache.getAllAccessTokens Sample.host Sample.Constants Sample.cache "zzz" "("
       (Sample.browser {["k" := "v"]})
     = Ok [] (Sample.browser {["k" := "v"]})
  /\ AuthCache.getAllAccessTokens Sample.host Sample.Constants Sample.cache "(" "acct1"
       (Sample.browser {["k" := "v"]})
     = Throw JS.SyntaxError (Sample.browser {["k" := "v"]}).
Proof.
  split; [|split].
  - apply (getAllAccessTokens_empty_or_rejected (fun m => m) Sample.host
             Sample.Constants Sample.cache LocalRef "(" "acct1" (Sample.browser ∅)
             (sample_snapshot ∅) I eq_refl eq_refl). reflexivity.
  - apply (getAllAccessTokens_empty_or_rejected (fun m => m) Sample.host
             Sample.Constants Sample.cache LocalRef "zzz" "("
             (Sample.browser {["k" := "v"]}) (sample_snapshot {["k" := "v"]})
             I eq_refl eq_refl) with (keys := ["k"]).
    + by vm_compute.
    + intros key Hkey. apply list_elem_of_singleton in Hkey as ->. by vm_compute.
  - apply (getAllAccessTokens_empty_or_rejected (fun m => m) Sample.host
             Sample.Constants Sample.cache LocalRef "(" "acct1"
             (Sample.browser {["k" := "v"]}) (sample_snapshot {["k" := "v"]})
             I eq_refl eq_refl) with (key := "k") (keys := []).
    + by vm_compute.
    + left. by vm_compute.
Defined.

(** ** The keys built for a state *)

Lemma indexOf_from_prefix i s p :
  String.prefix p s = true -> JS.indexOf_from i s p = i.
Proof. intros Hp. destruct s; cbn [JS.indexOf_from]; by rewrite Hp. Qed.

Lemma indexOf_from_app i a s b :
  0 <= i -> JS.indexOf_from i (a +:+ s +:+ b) s <> -1.
Proof.
  revert i. induction a as [|c a IH]; intros i Hi.
  - cbn [String.append]. rewrite indexOf_from_prefix by apply prefix_app. lia.
  - cbn [String.append JS.indexOf_from].
    destruct (String.prefix s (String c (a +:+ s +:+ b))); [lia|].
    apply IH. lia.
Qed.

(** A key contains each of the pieces it is put together from. *)
Lemma contains_app a s b : contains (a +:+ s +:+ b) s = true.
Proof.
  unfold contains, JS.indexOf.
  destruct (Z.eqb_spec (JS.indexOf_from 0 (a +:+ s +:+ b) s) (-1)) as [Hbad|_];
    [|done].
  by apply indexOf_from_app in Hbad.
Qed.

Lemma generateCacheKey_suffix Constants this key g :
  exists pre, AuthCache.generateCacheKey Constants this key g = pre +:+ key.
Proof.
  unfold AuthCache.generateCacheKey. destruct (JS.JSON_parse key); [by exists ""|].
  destruct (_ || _)%bool; [by exists ""|]. destruct g.
  - exists (cachePrefix Constants +:+ "." +:+ AuthCache.clientId this +:+ ".").
    by rewrite !String_append_assoc.
  - exists (cachePrefix Constants +:+ "."). by rewrite !String_append_assoc.
Qed.

(** X17: the physical keys of the entries built for a state contain the
    state: the authority key and the account key of a state, in either
    schema, pass the test [key.indexOf(state) !== -1] by which
    [resetTempCacheItems] selects the entries of a state. *)
Theorem state_keys_contain_state Constants TemporaryCacheKeys this accountId state g :
  contains (AuthCache.generateCacheKey Constants this
              (AuthCache.generateAuthorityKey Constants TemporaryCacheKeys state) g)
    state = true
  /\ contains (AuthCache.generateCacheKey Constants this
                 (AuthCache.generateAcquireTokenAccountKey Constants
                    TemporaryCacheKeys accountId state) g)
       state = true.
Proof.
  split.
  - destruct (generateCacheKey_suffix Constants this
                (AuthCache.generateAuthorityKey Constants TemporaryCacheKeys state) g)
      as [pre ->].
    unfold AuthCache.generateAuthorityKey.
    replace (pre +:+ AUTHORITY TemporaryCacheKeys +:+ resourceDelimiter Constants
             +:+ state)
      with ((pre +:+ AUTHORITY TemporaryCacheKeys +:+ resourceDelimiter Constants)
            +:+ state +:+ "")
      by (by rewrite !String_append_assoc, String_append_empty).
    apply contains_app.
  - destruct (generateCacheKey_suffix Constants this
                (AuthCache.generateAcquireTokenAccountKey Constants
                   TemporaryCacheKeys accountId state) g)
      as [pre ->].
    unfold AuthCache.generateAcquireTokenAccountKey.
    replace (pre +:+ ACQUIRE_TOKEN_ACCOUNT TemporaryCacheKeys
             +:+ resourceDelimiter Constants +:+ accountId
             +:+ resourceDelimiter Constants +:+ state)
      with ((pre +:+ ACQUIRE_TOKEN_ACCOUNT TemporaryCacheKeys
             +:+ resourceDelimiter Constants +:+ accountId
             +:+ resourceDelimiter Constants) +:+ state +:+ "")
      by (by rewrite !String_append_assoc, String_append_empty).
    apply contains_app.
Qed.

Lemma split_go_lacks_char c cur a rest :
  lacks c a = true ->
  JS.split_go (String c "") 0 cur (a +:+ rest)
  = JS.split_go (String c "") 0 (JS.rev_string cur a) rest.
Proof.
  revert cur. induction a as [|d a IH]; intros cur Ha; [done|].
  simpl in Ha. apply andb_prop in Ha as [Hd Ha].
  cbn [String.append JS.split_go JS.rev_string]. rewrite <- IH by done.
  rewrite prefix_cons, prefix_empty, andb_true_r, Ascii.eqb_sym.
  by destruct (Ascii.eqb d c).
Qed.

(** Splitting at a one-character separator: a piece without the separator
    in front of one comes off. *)
Lemma split_char_cons c a rest :
  lacks c a = true ->
  JS.split (a +:+ String c rest) (String c "") = a :: JS.split rest (String c "").
Proof.
  intros Ha. unfold JS.split. rewrite split_go_lacks_char by done.
  cbn [JS.split_go]. rewrite prefix_cons, prefix_empty, Ascii.eqb_refl.
  cbn [andb String.length Nat.sub]. by rewrite rev_string_rev_string.
Qed.

Lemma split_char_last c a :
  lacks c a = true -> JS.split a (String c "") = [a].
Proof.
  intros Ha. unfold JS.split.
  rewrite <- (String_append_empty a) at 1. rewrite split_go_lacks_char by done.
  cbn [JS.split_go]. by rewrite rev_string_rev_string.
Qed.

(** X18: what [removeAcquireTokenEntries] takes for the state of a key, the
    second piece of the key split at the resource delimiter, is the state
    for a key built by [generateAuthorityKey]; for a key built by
    [generateAcquireTokenAccountKey] it is the account identifier. *)
Theorem split_authority_and_account_keys Constants CacheKeys c accountId state :
  Storage.resourceDelimiter Constants = String c "" ->
  lacks c (Storage.AUTHORITY CacheKeys) = true ->
  lacks c (Storage.ACQUIRE_TOKEN_ACCOUNT CacheKeys) = true ->
  lacks c accountId = true ->
  lacks c state = true ->
  JS.split (Storage.generateAuthorityKey Constants CacheKeys state)
    (Storage.resourceDelimiter Constants) !! 1%nat = Some state
  /\ JS.split (Storage.generateAcquireTokenAccountKey Constants CacheKeys
                 accountId state)
       (Storage.resourceDelimiter Constants) !! 1%nat = Some accountId.
Proof.
  intros Hc Hauth Hacct Hid Hstate.
  unfold Storage.generateAuthorityKey, Storage.generateAcquireTokenAccountKey.
  rewrite Hc. cbn [String.append]. split.
  - rewrite split_char_cons, split_char_last by done. done.
  - rewrite !split_char_cons, split_char_last by done. done.
Qed.

Lemma split_authority_and_account_keys_witness :
  JS.split (Storage.generateAuthorityKey Sample.StorageConstants Sample.CacheKeys "s1")
    "|" !! 1%nat = Some "s1"
  /\ JS.split (Storage.generateAcquireTokenAccountKey Sample.StorageConstants
                 Sample.CacheKeys "acct1" "s1") "|" !! 1%nat = Some "acct1".
Proof.
  apply (split_authority_and_account_keys Sample.StorageConstants Sample.CacheKeys
           "|" "acct1" "s1" eq_refl eq_refl eq_refl eq_refl eq_refl).
Defined.

(** ** Clearing *)

Section Clear.
Context {T : Type} `{ICustomStorage T}.
Variable contents : T -> gmap string string.
Variable host : JS.Host.
Variable Constants : ConstantsT.
Variable TemporaryCacheKeys : TemporaryCacheKeysT.
Variable this : AuthCache.Object.
Variable r : StorageRef.
Hypothesis Hr : honours r contents.
Hypothesis Hloc : refOf (AuthCache.cacheLocation this) = Some r.

Local Abbreviation generateCacheKey := (AuthCache.generateCacheKey Constants this).

Lemma storage_clear_spec w s (Q : unit -> World T -> Prop) :
  r <> CustomRef ->
  snapshot contents r w = Some s ->
  (forall w', snapshot contents r w' = Some (withStored ∅ s) -> Q tt w') ->
  returns (storage_clear r) w Q.
Proof.
  intros Hweb Hs HQ.
  pose proof Hs as (win & Hwin & Hview & Hjar & Hnow)%(snapshot_inv contents).
  apply returns_unit. destruct r; simpl in *; [| |done].
  - unfold withArea, theWindow, mbind, M_bind. rewrite Hwin in Hview |- *.
    simpl in Hview |- *. rewrite Hview. eexists. split; [reflexivity|].
    apply HQ. unfold snapshot, withStored. simpl. by rewrite Hjar, Hnow.
  - unfold withArea, theWindow, mbind, M_bind. rewrite Hwin in Hview |- *.
    simpl in Hview |- *. rewrite Hview. eexists. split; [reflexivity|].
    apply HQ. unfold snapshot, withStored. simpl. by rewrite Hjar, Hnow.
Qed.

(** X19: on a storage area of the browser, [clear] removes every entry of
    the area, those of other applications included, and leaves the cookies
    alone: afterwards an unmirrored [getItem] returns null for every key. *)
Theorem clear_empties_storage_area w s :
  r <> CustomRef ->
  snapshot contents r w = Some s ->
  exists w',
    BrowserStorage.clear (AuthCache.super host Constants this) w = Ok tt w'
    /\ snapshot contents r w' = Some (withStored ∅ s)
    /\ (forall key, AuthCache.getItem host Constants this key false w' = Ok None w').
Proof.
  intros Hweb Hs. apply returns_unit_elim.
  unfold BrowserStorage.clear. apply returns_bind.
  eapply getStorage_spec; [done..|]. eapply storage_clear_spec; [done..|].
  intros w' Hs'. split; [done|]. intros key.
  by rewrite (getItem_spec contents host Constants this r Hr Hloc key w' _ Hs').
Qed.

Lemma removed_lookup_None key (m : gmap string string) k :
  m !! k = None -> removed Constants this key m !! k = None.
Proof.
  intros Hk. unfold removed. destruct (AuthCache.rollbackEnabled this);
    rewrite ?lookup_delete; repeat case_decide; done.
Qed.

(** X20: whatever the state argument and whatever the storage holds,
    [resetTempCacheItems] ends with the interaction-status entry and the
    redirect-request entry gone; it deletes no entry under any other key
    and does not touch the cookies. *)
Theorem resetTempCacheItems_clears_global_entries state w s :
  snapshot contents r w = Some s ->
  exists w' s',
    AuthCache.resetTempCacheItems host Constants TemporaryCacheKeys this state w
    = Ok tt w'
    /\ snapshot contents r w' = Some s'
    /\ jar s' = jar s
    /\ AuthCache.getItem host Constants this
         (INTERACTION_STATUS TemporaryCacheKeys) false w' = Ok None w'
    /\ AuthCache.getItem host Constants this
         (REDIRECT_REQUEST TemporaryCacheKeys) false w' = Ok None w'
    /\ forall k, k ∉ globalKeys Constants TemporaryCacheKeys this ->
                 stored s' !! k = stored s !! k.
Proof.
  intros Hs.
  destruct (resetTempCacheItems_effect contents host Constants TemporaryCacheKeys
              this r state w s Hr Hloc Hs) as (w' & Hrun & Hs').
  eexists w', _. split; [done|]. split; [exact Hs'|]. split; [done|].
  rewrite !(getItem_spec contents host Constants this r Hr Hloc _ w' _ Hs').
  cbn [stored withStored]. split; [|split].
  - f_equal. apply removed_lookup_None.
    unfold removed. destruct (AuthCache.rollbackEnabled this);
      rewrite ?lookup_delete; repeat case_decide; done.
  - f_equal. unfold removed at 1. destruct (AuthCache.rollbackEnabled this);
      rewrite ?lookup_delete; repeat case_decide; done.
  - intros k Hk. unfold globalKeys in Hk.
    rewrite !removed_lookup_ne; [done|..]; intros ->; apply Hk; set_solver.
Qed.

End Clear.

Lemma clear_empties_storage_area_witness :
  exists w',
    BrowserStorage.clear (AuthCache.super Sample.host Sample.Constants Sample.cache)
      (Sample.browser two_keys) = Ok tt w'
    /\ snapshot (fun m => m) LocalRef w' = Some (sample_snapshot ∅)
    /\ (forall key, AuthCache.getItem Sample.host Sample.Constants Sample.cache
                      key false w' = Ok None w').
Proof.
  assert (Hweb : LocalRef <> CustomRef) by discriminate.
  apply (clear_empties_storage_area (fun m => m) Sample.host Sample.Constants
           Sample.cache LocalRef I eq_refl (Sample.browser two_keys)
           (sample_snapshot two_keys) Hweb eq_refl).
Defined.

Lemma resetTempCacheItems_clears_global_entries_witness :
  exists w' s',
    AuthCache.resetTempCacheItems Sample.host Sample.Constants
      Sample.TemporaryCacheKeys Sample.cache "interactionStatus" world_in_progress
    = Ok tt w'
    /\ snapshot (fun m => m) LocalRef w' = Some s'
    /\ jar s' = []
    /\ AuthCache.getItem Sample.host Sample.Constants Sample.cache
         "interactionStatus" false w' = Ok None w'
    /\ AuthCache.getItem Sample.host Sample.Constants Sample.cache
         "redirectRequest" false w' = Ok None w'
    /\ stored s' !! "msal.app1.token.renew.status|interactionStatus"
       = Some "in progress".
Proof.
  destruct (resetTempCacheItems_clears_global_entries (fun m => m) Sample.host
              Sample.Constants Sample.TemporaryCacheKeys Sample.cache LocalRef I
              eq_refl "interactionStatus" world_in_progress
              {| stored := <["msal.app1.token.renew.status|interactionStatus"
                               := "in progress"]>
                             (<["msal.app1.interactionStatus" := "x"]> ∅);
                 jar := []; clock := 0 |} eq_refl)
    as (w' & s' & Hrun & Hs' & Hjar & Hi & Hq & Hframe).
  exists w', s'. repeat (split; [assumption|]).
  rewrite Hframe; [reflexivity|].
  intros Hin. repeat (apply elem_of_cons in Hin as [Hin|Hin]; [discriminate|]).
  by apply elem_of_nil in Hin.
Defined.

(** ** The earlier class *)

Section Singleton.
Context {T : Type} `{ICustomStorage T}.

(** X21: the earlier [Storage] is a singleton: once a construction has
    succeeded, every later construction returns that first object, whatever
    its argument, without any check and without changing anything. *)
Theorem Storage_constructor_singleton loc (this : Storage.Object) (w w1 : World T) :
  Storage_instance w = None ->
  Storage.constructor loc w = Ok this w1 ->
  Storage.cacheLocation this = loc
  /\ forall loc', Storage.constructor loc' w1 = Ok this w1.
Proof.
  intros Hi Hrun.
  assert (Hw1 : this = {| Storage.cacheLocation := loc |}
                /\ Storage_instance w1 = Some loc).
  { unfold Storage.constructor, getWorld, mbind, M_bind, Storage.setInstance in Hrun.
    rewrite Hi in Hrun. cbn [Storage.cacheLocation] in Hrun.
    destruct (Storage.isString loc).
    - unfold theWindow in Hrun. destruct (window w) as [win|]; [|done].
      destruct (Storage.stringStorageSupported loc win); [|done].
      cbn [negb mret M_ret] in Hrun. by injection Hrun as <- <-.
    - cbn [mret M_ret] in Hrun. by injection Hrun as <- <-. }
  destruct Hw1 as [-> Hinst]. split; [done|]. intros loc'.
  unfold Storage.constructor, getWorld, mbind, M_bind. by rewrite Hinst.
Qed.

End Singleton.

Lemma Storage_constructor_singleton_witness :
  Storage.constructor SessionStorageName world_with_instance
  = Ok {| Storage.cacheLocation := LocalStorageName |} world_with_instance.
Proof.
  apply (Storage_constructor_singleton LocalStorageName
           {| Storage.cacheLocation := LocalStorageName |} (Sample.browser ∅)
           world_with_instance eq_refl eq_refl).
Defined.

Lemma Storage_cookie_assign_put host now n v j :
  cookieName n = true ->
  cookieValue v = true ->
  JS.cookie_assign host now (Storage_cookieString host now n v None) j
  = JS.jar_put n v j.
Proof.
  intros Hn Hv. unfold cookieName in Hn. unfold cookieValue in Hv.
  apply andb_prop in Hn as [Hn Htrim]. apply andb_prop in Hn as [Hn Heq].
  apply andb_prop in Hn as [Hne Hsemi]. apply andb_prop in Hv as [Hvsemi Hvtrim].
  apply String_eqb_true in Htrim. apply String_eqb_true in Hvtrim.
  unfold JS.cookie_assign, Storage_cookieString.
  replace (n +:+ "=" +:+ v +:+ ";" +:+ "")
    with ((n +:+ "=" +:+ v) +:+ ";" +:+ "")
    by (rewrite !String_append_assoc; reflexivity).
  rewrite split_semicolon_cons
    by (rewrite !lacks_app, Hsemi, Hvsemi; reflexivity).
  unfold JS.indexOf. rewrite indexOf_from_eq_sign by done.
  destruct (Z.eqb_spec (0 + Z.of_nat (String.length n)) (-1)) as [Hbad|_]; [lia|].
  replace (Z.to_nat (0 + Z.of_nat (String.length n))) with (String.length n) by lia.
  rewrite take_string_app.
  replace (S (String.length n)) with (String.length (n +:+ "=")).
  2: { rewrite String_length_app. simpl. lia. }
  replace (n +:+ "=" +:+ v) with ((n +:+ "=") +:+ v)
    by (by rewrite String_append_assoc).
  rewrite substring_from_app, Htrim, Hvtrim, Hne. reflexivity.
Qed.

Section EarlierClass.
Context {T : Type} `{ICustomStorage T}.
Variable contents : T -> gmap string string.
Variable host : JS.Host.
Variable Constants : Storage.ConstantsT.
Variable CacheKeys : Storage.CacheKeysT.
Variable this : Storage.Object.
Variable r : StorageRef.
Hypothesis Hr : honours r contents.
Hypothesis Hloc : refOf (Some (Storage.cacheLocation this)) = Some r.

Lemma returns_eq {A} (m m' : M T A) w (Q : A -> World T -> Prop) :
  m w = m' w -> returns m' w Q -> returns m w Q.
Proof. unfold returns. by intros ->. Qed.

Lemma Storage_getStorage_spec w s (Q : StorageRef -> World T -> Prop) :
  snapshot contents r w = Some s ->
  Q r w ->
  returns (Storage.getStorage this) w Q.
Proof.
  intros Hs HQ. pose proof Hs as (win & Hwin & _)%(snapshot_inv contents).
  exists r, w. split; [|done].
  unfold Storage.getStorage.
  destruct (Storage.cacheLocation this) as [| |[]]; simplify_eq/=;
    try done; unfold theWindow, mbind, M_bind; by rewrite Hwin.
Qed.

Lemma Storage_setItemCookie_eq cName cValue expires (w : World T) :
  Storage.setItemCookie host cName cValue expires w
  = document_cookie_set host (Storage_cookieString host (now w) cName cValue expires) w.
Proof.
  unfold Storage.setItemCookie, Storage_cookieString,
    Storage.getCookieExpirationTime, BrowserStorage.truthy_number,
    mbind, M_bind, mret, M_ret, getWorld.
  destruct expires as [days|]; [destruct (JS.truthy_number days)|]; cbn [default];
    f_equal; rewrite ?String_append_empty, ?String_append_assoc; reflexivity.
Qed.

Lemma Storage_setItemCookie_spec cName cValue expires w s
    (Q : unit -> World T -> Prop) :
  snapshot contents r w = Some s ->
  (forall w', snapshot contents r w'
              = Some (withJar (JS.cookie_assign host (clock s)
                                 (Storage_cookieString host (clock s) cName cValue
                                    expires)
                                 (jar s)) s) -> Q tt w') ->
  returns (Storage.setItemCookie host cName cValue expires) w Q.
Proof.
  intros Hs HQ. pose proof Hs as (win & _ & _ & _ & Hnow)%(snapshot_inv contents).
  unfold returns. rewrite Storage_setItemCookie_eq. fold (returns
    (document_cookie_set host (Storage_cookieString host (now w) cName cValue expires))
    w Q).
  rewrite Hnow. by eapply document_cookie_set_spec.
Qed.

Lemma Storage_removeItem_spec key w s (Q : unit -> World T -> Prop) :
  snapshot contents r w = Some s ->
  (forall w', snapshot contents r w' = Some (withStored (delete key (stored s)) s) ->
              Q tt w') ->
  returns (Storage.removeItem this key) w Q.
Proof.
  intros Hs HQ. unfold Storage.removeItem. apply returns_bind.
  eapply Storage_getStorage_spec; [done|]. by eapply storage_removeItem_spec.
Qed.

Lemma Storage_getItem_spec key w s :
  snapshot contents r w = Some s ->
  Storage.getItem this key false w = Ok (stored s !! key) w.
Proof.
  intros Hs.
  assert (Hget : returns (Storage.getItem this key false) w
            (fun a w' => a = stored s !! key /\ w' = w)).
  { unfold Storage.getItem. apply returns_bind.
    apply returns_ret. apply returns_bind. eapply Storage_getStorage_spec; [done..|].
    by eapply storage_getItem_spec. }
  by destruct Hget as (a & w' & Hrun & -> & ->).
Qed.

(** X22: in the earlier class a key is used as it is given: [setItem]
    stores the value under the key itself, and [getItem] of the same key
    returns it; with mirroring on for both calls this holds when the cookie
    store keeps key and value as they are. *)
Theorem Storage_setItem_getItem_roundtrip key value (enable : bool) w s :
  snapshot contents r w = Some s ->
  (enable = true ->
     cookieName key = true /\ cookieValue value = true /\ wfJar (jar s) = true) ->
  exists w' s',
    Storage.setItem host this key value enable w = Ok tt w'
    /\ snapshot contents r w' = Some s'
    /\ stored s' = <[key := value]> (stored s)
    /\ Storage.getItem this key enable w' = Ok (Some value) w'.
Proof.
  intros Hs Hsafe.
  cut (returns (Storage.setItem host this key value enable) w
         (fun _ w' => exists s', snapshot contents r w' = Some s'
            /\ stored s' = <[key := value]> (stored s)
            /\ Storage.getItem this key enable w' = Ok (Some value) w')).
  { intros ([] & w' & Hrun & s' & Hrest). by exists w', s'. }
  unfold Storage.setItem. apply returns_bind.
  eapply Storage_getStorage_spec; [done|]. apply returns_bind.
  eapply storage_setItem_spec; [done..|]. intros w1 Hs1.
  destruct enable.
  - destruct Hsafe as (Hn & Hv & Hj); [done|].
    eapply Storage_setItemCookie_spec; [done|]. intros w2 Hs2.
    rewrite Storage_cookie_assign_put in Hs2 by done.
    eexists. split; [exact Hs2|]. split; [done|].
    assert (Hcookie : Storage.getItemCookie key w2 = Ok value w2).
    { change (Storage.getItemCookie key w2) with (BrowserStorage.getItemCookie key w2).
      rewrite (BrowserStorage_getItemCookie_spec contents r _ _ _ Hs2).
      cbn [jar withJar withStored]. f_equal.
      etrans; [|apply jar_get_put_eq].
      apply (findCookie_cookie_read _ _ ""); [|by apply wfJar_put|done].
      unfold cookieName in Hn. by repeat (apply andb_prop in Hn as [Hn ?]). }
    unfold Storage.getItem.
    unfold mbind at 1, M_bind at 1. unfold mbind at 1, M_bind at 1.
    rewrite Hcookie. cbn [mret M_ret].
    destruct (JS.truthy value).
    + unfold mbind, M_bind. by rewrite Hcookie.
    + pose proof (Storage_getItem_spec key w2 _ Hs2) as Hget.
      unfold Storage.getItem in Hget. cbn [stored withJar withStored] in Hget.
      rewrite lookup_insert_eq in Hget. exact Hget.
  - apply returns_ret. eexists. split; [exact Hs1|]. split; [done|].
    rewrite (Storage_getItem_spec key w1 _ Hs1). cbn [stored withStored].
    by rewrite lookup_insert_eq.
Qed.

Lemma Storage_resetCacheItems_loop ks w s m :
  snapshot contents r w = Some (withStored m s) ->
  returns
    (for_of ks (fun key =>
       if negb (Z.eqb (JS.indexOf key (Storage.msal Constants)) (-1))
       then Storage.removeItem this key
       else mret tt)) w
    (fun _ w' => snapshot contents r w'
                 = Some (withStored
                           (removeAll (fun k => contains k (Storage.msal Constants))
                              ks m) s)).
Proof.
  revert w m. induction ks as [|x ks IH]; intros w m Hs.
  - by apply returns_ret.
  - cbn [for_of removeAll foldl]. apply returns_bind.
    fold (contains x (Storage.msal Constants)).
    destruct (contains x (Storage.msal Constants)).
    + eapply Storage_removeItem_spec; [done..|].
      intros w1 Hs1. by apply IH.
    + apply returns_ret. by apply IH.
Qed.

Lemma Storage_clearCookie_spec w s (Q : unit -> World T -> Prop) :
  snapshot contents r w = Some s ->
  (forall w', snapshot contents r w'
              = Some (withJar (clearedCookies host Constants (clock s) (jar s)) s) ->
              Q tt w') ->
  returns (Storage.clearCookie host Constants) w Q.
Proof.
  intros Hs HQ. unfold Storage.clearCookie.
  apply returns_bind. eapply Storage_setItemCookie_spec; [done|]. intros w1 Hs1.
  apply returns_bind. eapply Storage_setItemCookie_spec; [done|]. intros w2 Hs2.
  apply returns_bind. eapply Storage_setItemCookie_spec; [done|]. intros w3 Hs3.
  eapply Storage_setItemCookie_spec; [done|]. intros w4 Hs4. by apply HQ.
Qed.

(** X23: on a storage area of the browser, [resetCacheItems] of the earlier
    class removes exactly the entries whose key contains the library prefix,
    leaves every other entry as it was, and ends with the four state
    cookies cleared. *)
Theorem Storage_resetCacheItems_removes_prefixed w s :
  r <> CustomRef ->
  snapshot contents r w = Some s ->
  exists w' s',
    Storage.resetCacheItems host Constants CacheKeys this w = Ok tt w'
    /\ snapshot contents r w' = Some s'
    /\ (forall k, stored s' !! k
                  = if contains k (Storage.msal Constants) then None
                    else stored s !! k)
    /\ jar s' = clearedCookies host Constants (clock s) (jar s).
Proof.
  intros Hweb Hs.
  cut (returns (Storage.resetCacheItems host Constants CacheKeys this) w
         (fun _ w' => exists s', snapshot contents r w' = Some s'
            /\ (forall k, stored s' !! k
                          = if contains k (Storage.msal Constants) then None
                            else stored s !! k)
            /\ jar s' = clearedCookies host Constants (clock s) (jar s))).
  { intros ([] & w' & Hrun & s' & Hrest). by exists w', s'. }
  unfold Storage.resetCacheItems. apply returns_bind.
  eapply Storage_getStorage_spec; [done|]. apply returns_bind.
  eapply keysOf_spec; [done..|]. intros ks Hks _. apply returns_bind.
  eapply returns_weaken.
  { apply Storage_resetCacheItems_loop. by rewrite withStored_stored. }
  intros u w1 Hs1. cbv beta in Hs1. apply returns_bind. apply returns_async.
  eapply returns_eq; [apply removeAcquireTokenEntries_eq|].
  apply returns_bind. eapply Storage_getStorage_spec; [done|]. apply returns_bind.
  eapply keysOf_spec; [done..|]. intros ks' _ _.
  eapply Storage_clearCookie_spec; [done|]. intros w2 Hs2. apply returns_ret.
  eexists. split; [exact Hs2|]. split; [|done].
  intros k. cbn [stored withJar withStored]. by rewrite removeAll_all.
Qed.

(** X24: [removeAcquireTokenEntries] of the earlier class, for every state
    argument and whatever the storage holds, returns with every entry of
    the storage in place and with the four state cookies cleared. *)
Theorem Storage_removeAcquireTokenEntries_keeps_entries state w s :
  snapshot contents r w = Some s ->
  exists w' s',
    Storage.removeAcquireTokenEntries host Constants CacheKeys this state w = Ok tt w'
    /\ snapshot contents r w' = Some s'
    /\ stored s' = stored s
    /\ jar s' = clearedCookies host Constants (clock s) (jar s).
Proof.
  intros Hs.
  cut (returns (Storage.removeAcquireTokenEntries host Constants CacheKeys this state)
         w (fun _ w' => exists s', snapshot contents r w' = Some s'
              /\ stored s' = stored s
              /\ jar s' = clearedCookies host Constants (clock s) (jar s))).
  { intros ([] & w' & Hrun & s' & Hrest). by exists w', s'. }
  eapply returns_eq; [apply removeAcquireTokenEntries_eq|].
  apply returns_bind. eapply Storage_getStorage_spec; [done|]. apply returns_bind.
  eapply keysOf_spec; [done..|]. intros ks _ _.
  eapply Storage_clearCookie_spec; [done|]. intros w' Hs'.
  eexists. split; [exact Hs'|]. done.
Qed.

End EarlierClass.

Lemma Storage_removeAcquireTokenEntries_keeps_entries_witness :
  exists w' s',
    Storage.removeAcquireTokenEntries Sample.host Sample.StorageConstants
      Sample.CacheKeys {| Storage.cacheLocation := LocalStorageName |} (Some "s1")
      world_authority = Ok tt w'
    /\ snapshot (fun m => m) LocalRef w' = Some s'
    /\ stored s' = <["msal.authority|s1" := "https://login.example/"]> ∅
    /\ jar s' = [].
Proof.
  apply (Storage_removeAcquireTokenEntries_keeps_entries (fun m => m) Sample.host
           Sample.StorageConstants Sample.CacheKeys
           {| Storage.cacheLocation := LocalStorageName |} LocalRef I eq_refl
           (Some "s1") world_authority
           (sample_snapshot (<["msal.authority|s1" := "https://login.example/"]> ∅))
           eq_refl).
Defined.

Lemma Storage_setItem_getItem_roundtrip_witness :
  exists w' s',
    Storage.setItem Sample.host {| Storage.cacheLocation := LocalStorageName |}
      "msal.idtoken" "v" true (Sample.browser ∅) = Ok tt w'
    /\ snapshot (fun m => m) LocalRef w' = Some s'
    /\ stored s' = <["msal.idtoken" := "v"]> ∅
    /\ Storage.getItem {| Storage.cacheLocation := LocalStorageName |}
         "msal.idtoken" true w' = Ok (Some "v") w'.
Proof.
  apply (Storage_setItem_getItem_roundtrip (fun m => m) Sample.host
           {| Storage.cacheLocation := LocalStorageName |} LocalRef I eq_refl
           "msal.idtoken" "v" true (Sample.browser ∅) (sample_snapshot ∅) eq_refl).
  intros _. repeat split; reflexivity.
Defined.

Lemma Storage_resetCacheItems_removes_prefixed_witness :
  exists w' s',
    Storage.resetCacheItems Sample.host Sample.StorageConstants Sample.CacheKeys
      {| Storage.cacheLocation := LocalStorageName |} (Sample.browser two_keys)
    = Ok tt w'
    /\ snapshot (fun m => m) LocalRef w' = Some s'
    /\ (forall k, stored s' !! k
                  = if contains k "msal" then None else two_keys !! k)
    /\ jar s' = [].
Proof.
  assert (Hweb : LocalRef <> CustomRef) by discriminate.
  apply (Storage_resetCacheItems_removes_prefixed (fun m => m) Sample.host
           Sample.StorageConstants Sample.CacheKeys
           {| Storage.cacheLocation := LocalStorageName |} LocalRef I eq_refl
           (Sample.browser two_keys) (sample_snapshot two_keys) Hweb eq_refl).
Defined.

Section EarlierScan.
Context {T : Type} `{ICustomStorage T}.
Variable contents : T -> gmap string string.
Variable host : JS.Host.
Variable this : Storage.Object.
Variable r : StorageRef.
Hypothesis Hr : honours r contents.
Hypothesis Hloc : refOf (Some (Storage.cacheLocation this)) = Some r.

Lemma Storage_getAllAccessTokens_step_spec clientId homeAccountIdentifier results
    key w s :
  validPattern host clientId ->
  validPattern host homeAccountIdentifier ->
  snapshot contents r w = Some s ->
  Storage.getAllAccessTokens_step host this clientId homeAccountIdentifier results
    key w
  = if tokenCandidate host clientId homeAccountIdentifier (stored s) key
    then match decodeEntry (stored s) key with
         | Some item => Ok (results ++ [item])%list w
         | None => Throw JS.SyntaxError w
         end
    else Ok results w.
Proof.
  intros Hc Hh Hs. unfold Storage.getAllAccessTokens_step, tokenCandidate, selected.
  unfold mbind at 1, M_bind at 1. rewrite key_match_valid by done.
  destruct (matches host key clientId); simpl; [|done].
  unfold mbind at 1, M_bind at 1. rewrite key_match_valid by done.
  destruct (matches host key homeAccountIdentifier); simpl; [|done].
  unfold mbind, M_bind.
  rewrite (Storage_getItem_spec contents this r Hr Hloc key w s Hs).
  destruct (JS.truthy_nullable (stored s !! key)); [|done].
  unfold decodeEntry. destruct (JS.JSON_parse key); simpl; [|done].
  by destruct (JS.JSON_parse_nullable (stored s !! key)).
Qed.

Lemma Storage_getAllAccessTokens_loop_spec clientId homeAccountIdentifier ks results
    w s :
  validPattern host clientId ->
  validPattern host homeAccountIdentifier ->
  snapshot contents r w = Some s ->
  Storage.getAllAccessTokens_loop host this clientId homeAccountIdentifier results
    ks w
  = match mapM (decodeEntry (stored s))
            (filter (fun key => tokenCandidate host clientId homeAccountIdentifier
                                  (stored s) key = true) ks) with
    | Some items => Ok (results ++ items)%list w
    | None => Throw JS.SyntaxError w
    end.
Proof.
  intros Hc Hh Hs. revert results. induction ks as [|key ks IH]; intros results.
  - simpl. by rewrite app_nil_r.
  - cbn [Storage.getAllAccessTokens_loop]. unfold mbind, M_bind.
    rewrite (Storage_getAllAccessTokens_step_spec _ _ _ _ _ s) by done.
    rewrite filter_cons.
    destruct (tokenCandidate host clientId homeAccountIdentifier (stored s) key).
    + rewrite decide_True by done. cbn [mapM].
      destruct (decodeEntry (stored s) key) as [item|]; [|done].
      rewrite IH. simpl.
      destruct (mapM _ _) as [items|]; simpl; [|done].
      by rewrite <- app_assoc.
    + rewrite decide_False by done. apply IH.
Qed.

(** X25: [getAllAccessTokens] of the earlier class decodes, in enumeration
    order, the entries whose key both patterns match and whose value is not
    empty; if one of them has a key or a value that is not a JSON text the
    call throws a syntax error and returns nothing, where the later class
    skips the entry. *)
Theorem Storage_getAllAccessTokens_decodes_or_throws clientId homeAccountIdentifier
    w s :
  validPattern host clientId ->
  validPattern host homeAccountIdentifier ->
  snapshot contents r w = Some s ->
  exists ks,
    keysOf r w = Ok ks w
    /\ (forall k, k ∈ ks <-> is_Some (stored s !! k))
    /\ Storage.getAllAccessTokens host this clientId homeAccountIdentifier w
       = match mapM (decodeEntry (stored s))
                 (filter (fun key =>
                            tokenCandidate host clientId homeAccountIdentifier
                              (stored s) key = true) ks) with
         | Some items => Ok items w
         | None => Throw JS.SyntaxError w
         end.
Proof.
  intros Hc Hh Hs.
  assert (Hkeys : returns (keysOf r) w
            (fun ks w' => w' = w /\ forall k, k ∈ ks <-> is_Some (stored s !! k))).
  { eapply keysOf_spec; [done..|]. by intros ks Hks _. }
  destruct Hkeys as (ks & w' & Hrun & -> & Hks). exists ks.
  split; [done|]. split; [done|].
  assert (Hst : returns (Storage.getStorage this) w (fun a w' => a = r /\ w' = w)).
  { by eapply Storage_getStorage_spec. }
  destruct Hst as (a & w' & Hst & -> & ->).
  unfold Storage.getAllAccessTokens, mbind, M_bind. rewrite Hst, Hrun.
  by rewrite (Storage_getAllAccessTokens_loop_spec _ _ _ _ _ s).
Qed.

End EarlierScan.

Section Scans.
Context {T : Type} `{ICustomStorage T}.
Variable contents : T -> gmap string string.
Variable host : JS.Host.
Variable Constants : ConstantsT.
Variable this : AuthCache.Object.
Variable earlier : Storage.Object.
Variable r : StorageRef.
Hypothesis Hr : honours r contents.
Hypothesis Hloc : refOf (AuthCache.cacheLocation this) = Some r.
Hypothesis Hearlier : refOf (Some (Storage.cacheLocation earlier)) = Some r.

(** C8, as amended: the keys both scans select are those matched by
    [clientId] and by [homeAccountIdentifier] read as regular expressions,
    provided the engine accepts both; for arguments without
    regular-expression syntax characters these are exactly the keys that
    contain both as substrings.  [getAllAccessTokens] of [AuthCache]
    returns, in enumeration order, exactly the items decoded from the
    selected entries: an entry whose key or value is not a JSON text is left
    out and raises nothing.  [getAllAccessTokens] of the earlier [Storage]
    has no handler: of the selected entries it decodes those with a
    non-empty value, and when one of these has a key or a value that is not
    a JSON text the call throws a syntax error and returns nothing. *)
Theorem getAllAccessTokens_selects_and_decodes clientId homeAccountIdentifier w s :
  snapshot contents r w = Some s ->
  (validPattern host clientId ->
   validPattern host homeAccountIdentifier ->
   exists ks,
     keysOf r w = Ok ks w
     /\ (forall k, k ∈ ks <-> is_Some (stored s !! k))
     /\ AuthCache.getAllAccessTokens host Constants this clientId
          homeAccountIdentifier w
        = Ok (omap (decodeEntry (stored s))
                (filter (fun key =>
                           selected host clientId homeAccountIdentifier key = true)
                   ks)) w
     /\ Storage.getAllAccessTokens host earlier clientId homeAccountIdentifier w
        = match mapM (decodeEntry (stored s))
                  (filter (fun key =>
                             tokenCandidate host clientId homeAccountIdentifier
                               (stored s) key = true) ks) with
          | Some items => Ok items w
          | None => Throw JS.SyntaxError w
          end
     /\ (forall key,
           key ∈ ks ->
           tokenCandidate host clientId homeAccountIdentifier (stored s) key = true ->
           decodeEntry (stored s) key = None ->
           Storage.getAllAccessTokens host earlier clientId homeAccountIdentifier w
           = Throw JS.SyntaxError w))
  /\ (JS.literalPattern clientId = true ->
      JS.literalPattern homeAccountIdentifier = true ->
      validPattern host clientId
      /\ validPattern host homeAccountIdentifier
      /\ forall key, selected host clientId homeAccountIdentifier key
                     = contains key clientId && contains key homeAccountIdentifier).
Proof.
  intros Hs. split; [|apply literal_selected].
  intros Hc Hh.
  assert (Hkeys : returns (keysOf r) w
            (fun ks w' => w' = w /\ forall k, k ∈ ks <-> is_Some (stored s !! k))).
  { eapply keysOf_spec; [done..|]. by intros ks Hks _. }
  destruct Hkeys as (ks & w' & Hrun & -> & Hks). exists ks.
  split; [done|]. split; [done|].
  split; [by eapply AuthCache_getAllAccessTokens_spec|].
  assert (Hscan : Storage.getAllAccessTokens host earlier clientId
                    homeAccountIdentifier w
                  = match mapM (decodeEntry (stored s))
                            (filter (fun key =>
                               tokenCandidate host clientId homeAccountIdentifier
                                 (stored s) key = true) ks) with
                    | Some items => Ok items w
                    | None => Throw JS.SyntaxError w
                    end).
  { assert (Hst : returns (Storage.getStorage earlier) w
              (fun a w' => a = r /\ w' = w)).
    { by eapply Storage_getStorage_spec. }
    destruct Hst as (a & w' & Hst & -> & ->).
    unfold Storage.getAllAccessTokens, mbind, M_bind. rewrite Hst, Hrun.
    by rewrite (Storage_getAllAccessTokens_loop_spec contents host earlier r Hr
                  Hearlier _ _ _ _ _ s). }
  split; [done|].
  intros key Hkey Hcand Hnone. rewrite Hscan.
  destruct (mapM _ _) as [items|] eqn:Hitems; [|done].
  assert (Hall : is_Some (mapM (decodeEntry (stored s))
                   (filter (fun key =>
                      tokenCandidate host clientId homeAccountIdentifier
                        (stored s) key = true) ks))) by eauto.
  apply mapM_is_Some in Hall. rewrite Forall_forall in Hall.
  destruct (Hall key) as [item Hitem].
  - apply list_elem_of_filter. by split.
  - simpl in Hitem. congruence.
Qed.

End Scans.

Lemma getAllAccessTokens_selects_and_decodes_witness :
  exists ks,
    keysOf LocalRef (Sample.browser two_keys) = Ok ks (Sample.browser two_keys)
    /\ AuthCache.getAllAccessTokens Sample.host Sample.Constants Sample.cache
         "unrelated" "bar" (Sample.browser two_keys)
       = Ok (omap (decodeEntry two_keys)
               (filter (fun key => selected Sample.host "unrelated" "bar" key = true)
                  ks)) (Sample.browser two_keys)
    /\ Storage.getAllAccessTokens Sample.host
         {| Storage.cacheLocation := LocalStorageName |} "unrelated" "bar"
         (Sample.browser two_keys)
       = Throw JS.SyntaxError (Sample.browser two_keys)
    /\ forall key, selected Sample.host "unrelated" "bar" key
                   = contains key "unrelated" && contains key "bar".
Proof.
  destruct (getAllAccessTokens_selects_and_decodes (fun m => m) Sample.host
              Sample.Constants Sample.cache
              {| Storage.cacheLocation := LocalStorageName |} LocalRef I eq_refl
              eq_refl "unrelated" "bar"
              (Sample.browser two_keys) (sample_snapshot two_keys) eq_refl)
    as [Hvalid Hliteral].
  destruct (Hliteral eq_refl eq_refl) as (Hc & Hh & Hsel).
  destruct (Hvalid Hc Hh) as (ks & Hkeys & Hks & Hrun & _ & Hthrow).
  exists ks. split; [exact Hkeys|]. split; [exact Hrun|]. split; [|exact Hsel].
  apply (Hthrow "unrelated.bar").
  - apply Hks. vm_compute. eauto.
  - vm_compute. reflexivity.
  - vm_compute. reflexivity.
Defined.

Lemma Storage_getAllAccessTokens_decodes_or_throws_witness :
  exists ks,
    keysOf LocalRef (Sample.browser two_keys) = Ok ks (Sample.browser two_keys)
    /\ Storage.getAllAccessTokens Sample.host
         {| Storage.cacheLocation := LocalStorageName |} "unrelated" "bar"
         (Sample.browser two_keys)
       = match mapM (decodeEntry two_keys)
                 (filter (fun key =>
                            tokenCandidate Sample.host "unrelated" "bar" two_keys key
                            = true) ks) with
         | Some items => Ok items (Sample.browser two_keys)
         | None => Throw JS.SyntaxError (Sample.browser two_keys)
         end.
Proof.
  destruct (Storage_getAllAccessTokens_decodes_or_throws (fun m => m) Sample.host
              {| Storage.cacheLocation := LocalStorageName |} LocalRef I eq_refl
              "unrelated" "bar" (Sample.browser two_keys) (sample_snapshot two_keys))
    as (ks & Hkeys & _ & Hrun).
  - intros key. eexists. by apply literal_String_match.
  - intros key. eexists. by apply literal_String_match.
  - reflexivity.
  - exists ks. split; [exact Hkeys|exact Hrun].
Defined.

(** ** The base class on its own *)

Section PlainInstance.
Context {T : Type} `{ICustomStorage T}.
Variable contents : T -> gmap string string.
Variable host : JS.Host.
Variable r : StorageRef.
Hypothesis Hr : honours r contents.

Lemma BrowserStorage_getStorage_spec (this : BrowserStorage.Object T) w s
    (Q : StorageRef -> World T -> Prop) :
  refOf (BrowserStorage.cacheLocation this) = Some r ->
  snapshot contents r w = Some s ->
  Q r w ->
  returns (BrowserStorage.getStorage this) w Q.
Proof.
  intros Hloc Hs HQ. pose proof Hs as (win & Hwin & _)%(snapshot_inv contents).
  exists r, w. split; [|done].
  unfold BrowserStorage.getStorage.
  destruct (BrowserStorage.cacheLocation this) as [[| |[]]|]; simplify_eq/=;
    try done; unfold theWindow, mbind, M_bind; by rewrite Hwin.
Qed.

(** X26: an instance of the base class created by [new BrowserStorage]
    uses a key as it is given: [setItem] stores the value under the key
    itself, and [getItem] of the same key returns it; with mirroring on for
    both calls this holds when the cookie store keeps key and value as they
    are. *)
Theorem BrowserStorage_setItem_getItem_roundtrip cacheLocation key value
    (enable : bool) w s :
  refOf (Some cacheLocation) = Some r ->
  snapshot contents r w = Some s ->
  (enable = true ->
     cookieName key = true /\ cookieValue value = true /\ wfJar (jar s) = true) ->
  exists this w' s',
    BrowserStorage.new host cacheLocation w = Ok this w
    /\ BrowserStorage.setItem this key value enable w = Ok tt w'
    /\ snapshot contents r w' = Some s'
    /\ stored s' = <[key := value]> (stored s)
    /\ BrowserStorage.getItem this key enable w' = Ok (Some value) w'.
Proof.
  intros Hloc Hs Hsafe.
  pose proof Hs as (win & Hwin & _)%(snapshot_inv contents).
  eexists. 
  assert (Hnew : BrowserStorage.new host cacheLocation w
                 = Ok {| BrowserStorage.cacheLocation := Some cacheLocation;
                         BrowserStorage.this_setItemCookie :=
                           BrowserStorage.setItemCookie host;
                         BrowserStorage.this_getItemCookie :=
                           BrowserStorage.getItemCookie |} w).
  { unfold BrowserStorage.new, mbind, M_bind.
    by rewrite BrowserStorage_constructor_eq, Hwin. }
  rewrite Hnew.
  set (this := {| BrowserStorage.cacheLocation := Some cacheLocation;
                  BrowserStorage.this_setItemCookie :=
                    BrowserStorage.setItemCookie host;
                  BrowserStorage.this_getItemCookie :=
                    BrowserStorage.getItemCookie |}).
  cut (returns (BrowserStorage.setItem this key value enable) w
         (fun _ w' => exists s', snapshot contents r w' = Some s'
            /\ stored s' = <[key := value]> (stored s)
            /\ BrowserStorage.getItem this key enable w' = Ok (Some value) w')).
  { intros ([] & w' & Hrun & s' & Hrest). exists w', s'. by split. }
  assert (Hget : forall w1 s1, snapshot contents r w1 = Some s1 ->
            (storage ← BrowserStorage.getStorage this; storage_getItem storage key) w1
            = Ok (stored s1 !! key) w1).
  { intros w1 s1 Hs1.
    assert (Hret : returns
              (storage ← BrowserStorage.getStorage this; storage_getItem storage key)
              w1 (fun a w' => a = stored s1 !! key /\ w' = w1)).
    { apply returns_bind. eapply BrowserStorage_getStorage_spec; [done..|].
      by eapply storage_getItem_spec. }
    by destruct Hret as (a & w' & Hrun & -> & ->). }
  unfold BrowserStorage.setItem. apply returns_bind.
  eapply BrowserStorage_getStorage_spec; [done..|]. apply returns_bind.
  eapply storage_setItem_spec; [done..|]. intros w1 Hs1.
  destruct enable.
  - destruct Hsafe as (Hn & Hv & Hj); [done|].
    cbn [BrowserStorage.this_setItemCookie this].
    eapply BrowserStorage_setItemCookie_spec; [done..|]. intros w2 Hs2.
    rewrite cookie_assign_put in Hs2 by done.
    eexists. split; [exact Hs2|]. split; [done|].
    assert (Hcookie : BrowserStorage.getItemCookie key w2 = Ok value w2).
    { rewrite (BrowserStorage_getItemCookie_spec contents r _ _ _ Hs2).
      cbn [jar withJar withStored]. f_equal.
      etrans; [|apply jar_get_put_eq].
      apply (findCookie_cookie_read _ _ ""); [|by apply wfJar_put|done].
      unfold cookieName in Hn. by repeat (apply andb_prop in Hn as [Hn ?]). }
    unfold BrowserStorage.getItem. cbn [BrowserStorage.this_getItemCookie this].
    unfold mbind at 1, M_bind at 1. unfold mbind at 1, M_bind at 1.
    rewrite Hcookie. cbn [mret M_ret].
    destruct (JS.truthy value).
    + unfold mbind, M_bind. by rewrite Hcookie.
    + rewrite (Hget w2 _ Hs2). cbn [stored withJar withStored].
      by rewrite lookup_insert_eq.
  - apply returns_ret. eexists. split; [exact Hs1|]. split; [done|].
    unfold BrowserStorage.getItem. unfold mbind at 1, M_bind at 1. cbn [mret M_ret].
    rewrite (Hget w1 _ Hs1). cbn [stored withStored]. by rewrite lookup_insert_eq.
Qed.

End PlainInstance.

Lemma BrowserStorage_setItem_getItem_roundtrip_witness :
  exists this w' s',
    BrowserStorage.new Sample.host LocalStorageName (Sample.browser ∅)
    = Ok this (Sample.browser ∅)
    /\ BrowserStorage.setItem this "k" "v" true (Sample.browser ∅) = Ok tt w'
    /\ snapshot (fun m => m) LocalRef w' = Some s'
    /\ stored s' = <["k" := "v"]> ∅
    /\ BrowserStorage.getItem this "k" true w' = Ok (Some "v") w'.
Proof.
  apply (BrowserStorage_setItem_getItem_roundtrip (fun m => m) Sample.host LocalRef I
           LocalStorageName "k" "v" true (Sample.browser ∅) (sample_snapshot ∅)
           eq_refl eq_refl).
  intros _. repeat split; reflexivity.
Defined.
